(** * volar: the source-file orchestrator and its diagnostics engine

    A shallow embedding of

      - [packages/vscode-vue-languageservice/src/sourceFile.ts]
        ([createSourceFile]: [update], [updateTemplateScript],
        [useDiagnostics] and the producers it composes), and
      - the [SWITCH_REF_SUGAR] branch of the command handler,

    together with the properties of these functions that the
    specification states.

    The language engines (TypeScript, CSS, the SFC compiler, htmlparser2)
    and the text-document library are external; their answers are fields
    of the records the functions below receive. *)

From Stdlib Require Import List String Ascii ZArith Lia Bool Arith.
From stdpp Require Import base gmap sets list strings.
Import ListNotations.
Open Scope string_scope.
Open Scope list_scope.

(** ** Protocol types ([vscode-languageserver]) *)

Record Position := mkPosition { line : nat; character : nat }.

Record Range := mkRange { r_start : Position; r_end : Position }.

Inductive DiagnosticSeverity := SevError | SevWarning | SevInformation | SevHint.

Inductive DiagnosticTag := Unnecessary | Deprecated.

Record Diagnostic := mkDiagnostic {
  range : Range;
  message : string;
  severity : option DiagnosticSeverity;
  code : option string;
  source : option string;
  tags : option (list DiagnosticTag);
}.

(** [{ ...error, range: r }] *)
Definition withRange (error : Diagnostic) (r : Range) : Diagnostic :=
  {| range := r; message := message error; severity := severity error;
     code := code error; source := source error; tags := tags error |}.

#[global] Instance Position_eq_dec : EqDecision Position.
Proof. solve_decision. Defined.
#[global] Instance Range_eq_dec : EqDecision Range.
Proof. solve_decision. Defined.
#[global] Instance DiagnosticSeverity_eq_dec : EqDecision DiagnosticSeverity.
Proof. solve_decision. Defined.
#[global] Instance DiagnosticTag_eq_dec : EqDecision DiagnosticTag.
Proof. solve_decision. Defined.
#[global] Instance Diagnostic_eq_dec : EqDecision Diagnostic.
Proof. solve_decision. Defined.

(** ** Source maps ([utils/sourceMaps]: only the interface is used here)

    A mapped range is what [getSourceRange] returns: the source-side range
    and the segment's data.  [SourceMap D] is the interface of a source map
    whose segments carry data of type [D]; [TsSourceMap] is the one of the
    generated scripts, whose segments carry capabilities. *)

Record Capabilities := mkCapabilities {
  basic : bool;
  diagnostic : bool;
  completion : bool;
  rename : bool;
  references : bool;
  definitions : bool;
}.

Record TsMappingData := mkTsMappingData { capabilities : Capabilities }.

Record TeleportMappingData := mkTeleportMappingData { isAdditionalReference : bool }.

Record MappedRange (D : Type) := mkMappedRange {
  m_start : Position;
  m_end : Position;
  data : D;
}.
Arguments mkMappedRange {D}.
Arguments m_start {D}.
Arguments m_end {D}.
Arguments data {D}.

(** The range object that is spread into a diagnostic. *)
Definition asRange {D} (m : MappedRange D) : Range :=
  {| r_start := m_start m; r_end := m_end m |}.

Record SourceMap (D : Type) := mkSourceMap {
  mappedDocument_uri : string;
  (** [getSourceRange(start, end?)] *)
  getSourceRange : Position -> option Position -> option (MappedRange D);
  (** [getMappedRanges(start, end)] *)
  getMappedRanges : Position -> Position -> list (MappedRange D);
}.
Arguments mkSourceMap {D}.
Arguments mappedDocument_uri {D}.
Arguments getSourceRange {D}.
Arguments getMappedRanges {D}.

Abbreviation TsSourceMap := (SourceMap TsMappingData).
Abbreviation TeleportSourceMap := (SourceMap TeleportMappingData).

(** ** Remapping of diagnostics ([toSourceDiags], [toTsSourceDiags])

    Both functions are nested [for] loops that push onto [result]; the
    loops are folds over the arrays.  [Diagnostic.is(error)] holds of every
    value of the type [Diagnostic], so the guard of [toSourceDiags] does
    not appear. *)

Definition toSourceDiags {D} (errors : list Diagnostic) (virtualScriptUri : string)
    (sourceMaps : list (SourceMap D)) : list Diagnostic :=
  fold_left (fun result error =>
    fold_left (fun result sourceMap =>
      if negb (String.eqb (mappedDocument_uri sourceMap) virtualScriptUri) then result
      else
        match getSourceRange sourceMap (r_start (range error)) (Some (r_end (range error))) with
        | None => result
        | Some vueRange => result ++ [withRange error (asRange vueRange)]
        end) sourceMaps result) errors [].

(** The first inner loop of [toTsSourceDiags]: the state is [(result, found)]. *)
Definition tsRangePass (error : Diagnostic) (virtualScriptUri : string)
    (sourceMaps : list TsSourceMap) (result : list Diagnostic) : list Diagnostic * bool :=
  fold_left (fun '(result, found) sourceMap =>
    if negb (String.eqb (mappedDocument_uri sourceMap) virtualScriptUri) then (result, found)
    else
      match getSourceRange sourceMap (r_start (range error)) (Some (r_end (range error))) with
      | None => (result, found)
      | Some vueRange =>
          if negb (diagnostic (capabilities (data vueRange))) then (result, found)
          else (result ++ [withRange error (asRange vueRange)], true)
      end) sourceMaps (result, false).

(** The second inner loop ("patching for ref sugar"). *)
Definition tsPointPass (error : Diagnostic) (virtualScriptUri : string)
    (sourceMaps : list TsSourceMap) (result : list Diagnostic) : list Diagnostic :=
  fold_left (fun result sourceMap =>
    if negb (String.eqb (mappedDocument_uri sourceMap) virtualScriptUri) then result
    else
      match getSourceRange sourceMap (r_start (range error)) None with
      | None => result
      | Some vueStartRange =>
          if negb (diagnostic (capabilities (data vueStartRange))) then result
          else
            match getSourceRange sourceMap (r_end (range error)) None with
            | None => result
            | Some vueEndRange =>
                if negb (diagnostic (capabilities (data vueEndRange))) then result
                else result ++ [withRange error
                       {| r_start := m_start vueStartRange; r_end := m_start vueEndRange |}]
            end
      end) sourceMaps result.

Definition toTsSourceDiags (errors : list Diagnostic) (virtualScriptUri : string)
    (sourceMaps : list TsSourceMap) : list Diagnostic :=
  fold_left (fun result error =>
    let '(result, found) := tsRangePass error virtualScriptUri sourceMaps result in
    if negb found then tsPointPass error virtualScriptUri sourceMaps result
    else result) errors [].

(** ** Text documents ([vscode-languageserver-textdocument])

    Offsets count characters of [text].  [getLineOffsets], [positionAt] and
    [offsetAt] follow the library: a line ends at LF, at CR, or at CR LF. *)

Record TextDocument := mkTextDocument {
  uri : string;
  languageId : string;
  version : nat;
  text : string;
}.

#[global] Instance TextDocument_eq_dec : EqDecision TextDocument.
Proof. solve_decision. Defined.

Definition CR : ascii := ascii_of_nat 13.
Definition LF : ascii := ascii_of_nat 10.

(** [computeLineOffsets]: the offsets that follow a line break, where the
    scan is at offset [i]. *)
Fixpoint computeLineOffsets (i : nat) (s : string) : list nat :=
  match s with
  | EmptyString => []
  | String ch s' =>
      if Ascii.eqb ch CR then
        match s' with
        | String ch' s'' =>
            if Ascii.eqb ch' LF then (i + 2) :: computeLineOffsets (i + 2) s''
            else (i + 1) :: computeLineOffsets (i + 1) s'
        | EmptyString => [i + 1]
        end
      else if Ascii.eqb ch LF then (i + 1) :: computeLineOffsets (i + 1) s'
      else computeLineOffsets (i + 1) s'
  end.

Definition getLineOffsets (doc : TextDocument) : list nat :=
  0 :: computeLineOffsets 0 (text doc).

(** The binary search of [positionAt]: the index of the last line offset
    that is not larger than [offset], and that line offset. *)
Fixpoint lineAt (lineOffset : nat) (rest : list nat) (offset : nat) : nat * nat :=
  match rest with
  | next :: rest' =>
      if (next <=? offset)%nat then
        let '(l, lo) := lineAt next rest' offset in (S l, lo)
      else (0, lineOffset)
  | [] => (0, lineOffset)
  end.

Definition positionAt (doc : TextDocument) (offset : nat) : Position :=
  let offset := Nat.min offset (String.length (text doc)) in
  let '(l, lineOffset) := lineAt 0 (computeLineOffsets 0 (text doc)) offset in
  {| line := l; character := offset - lineOffset |}.

Definition offsetAt (doc : TextDocument) (position : Position) : nat :=
  let lineOffsets := getLineOffsets doc in
  match lineOffsets !! line position with
  | None => String.length (text doc)
  | Some lineOffset =>
      let nextLineOffset :=
        match lineOffsets !! S (line position) with
        | Some n => n
        | None => String.length (text doc)
        end in
      Nat.max (Nat.min (lineOffset + character position) nextLineOffset) lineOffset
  end.

(** [s.substring(a, b)] of JavaScript. *)
Definition js_substring (a b : nat) (s : string) : string :=
  substring (Nat.min a b) (Nat.max a b - Nat.min a b) s.

(** [s.substr(a, n)] of JavaScript. *)
Definition js_substr (a n : nat) (s : string) : string := substring a n s.

(** [s.indexOf(p)]; [None] is the -1 of JavaScript. *)
Definition indexOf (s p : string) : option nat := String.index 0 p s.

(** [s.indexOf(p) >= 0] *)
Definition includesText (s p : string) : bool :=
  match indexOf s p with Some _ => true | None => false end.

(** [doc.getText(range)] *)
Definition getTextIn (doc : TextDocument) (r : Range) : string :=
  js_substring (offsetAt doc (r_start r)) (offsetAt doc (r_end r)) (text doc).

(** ** [Array.prototype.sort] with a comparator [(a, b) => key(a) - key(b)]

    The sort of the engine is stable: elements with equal keys keep their
    order. *)

Fixpoint insertBy {A} (key : A -> Z) (x : A) (l : list A) : list A :=
  match l with
  | [] => [x]
  | y :: l' => if (key x <=? key y)%Z then x :: y :: l' else y :: insertBy key x l'
  end.

Definition sortBy {A} (key : A -> Z) (l : list A) : list A :=
  fold_right (insertBy key) [] l.

(** ** The parsed single-file component ([@vue/compiler-sfc], [htmlparser2]) *)

(** The value of an attribute: [true] for a bare attribute, or a string. *)
Inductive AttrValue := AttrTrue | AttrString (s : string).

(** [!!v] for an attribute value that may be absent. *)
Definition truthy (v : option AttrValue) : bool :=
  match v with
  | Some AttrTrue => true
  | Some (AttrString s) => negb (String.eqb s "")
  | None => false
  end.

Record SFCBlock := mkSFCBlock {
  b_type : string;
  b_content : string;
  b_attrs : gmap string AttrValue;
  b_loc_start_offset : nat;
  b_loc_end_offset : nat;
  b_lang : option string;
  b_src : option string;
  b_module : option AttrValue;
  b_scoped : option bool;
}.

Record SFCDescriptor := mkSFCDescriptor {
  sfc_template : option SFCBlock;
  sfc_script : option SFCBlock;
  sfc_scriptSetup : option SFCBlock;
  sfc_styles : list SFCBlock;
  sfc_customBlocks : list SFCBlock;
}.

Inductive ElementType :=
  | Root | Text | Directive | Comment | Script | Style | Tag | CDATA | Doctype.

#[global] Instance ElementType_eq_dec : EqDecision ElementType.
Proof. solve_decision. Defined.

Record Node := mkNode {
  n_type : ElementType;
  startIndex : option nat;
  endIndex : option nat;
}.

(** The two parsers [update] calls on the text. *)
Record Parsers := mkParsers {
  vueSfc_parse : string -> SFCDescriptor;
  htmlparser2_parseDocument : string -> list Node;
}.

(** *** References to the blocks of a descriptor

    [blocks] holds the block objects of [newDescriptor] themselves, and the
    marker is written through them; a block is named by its place in the
    descriptor. *)

Inductive BlockRef :=
  | RefTemplate | RefScript | RefScriptSetup
  | RefStyle (i : nat) | RefCustomBlock (i : nat).

#[global] Instance BlockRef_eq_dec : EqDecision BlockRef.
Proof. solve_decision. Defined.

Definition getBlock (d : SFCDescriptor) (r : BlockRef) : option SFCBlock :=
  match r with
  | RefTemplate => sfc_template d
  | RefScript => sfc_script d
  | RefScriptSetup => sfc_scriptSetup d
  | RefStyle i => sfc_styles d !! i
  | RefCustomBlock i => sfc_customBlocks d !! i
  end.

(** [block.attrs[k] = v] *)
Definition setAttr (k : string) (v : AttrValue) (b : SFCBlock) : SFCBlock :=
  {| b_type := b_type b; b_content := b_content b; b_attrs := <[k := v]> (b_attrs b);
     b_loc_start_offset := b_loc_start_offset b; b_loc_end_offset := b_loc_end_offset b;
     b_lang := b_lang b; b_src := b_src b; b_module := b_module b; b_scoped := b_scoped b |}.

Definition alterBlock (f : SFCBlock -> SFCBlock) (r : BlockRef) (d : SFCDescriptor) : SFCDescriptor :=
  match r with
  | RefTemplate =>
      {| sfc_template := f <$> sfc_template d; sfc_script := sfc_script d;
         sfc_scriptSetup := sfc_scriptSetup d; sfc_styles := sfc_styles d;
         sfc_customBlocks := sfc_customBlocks d |}
  | RefScript =>
      {| sfc_template := sfc_template d; sfc_script := f <$> sfc_script d;
         sfc_scriptSetup := sfc_scriptSetup d; sfc_styles := sfc_styles d;
         sfc_customBlocks := sfc_customBlocks d |}
  | RefScriptSetup =>
      {| sfc_template := sfc_template d; sfc_script := sfc_script d;
         sfc_scriptSetup := f <$> sfc_scriptSetup d; sfc_styles := sfc_styles d;
         sfc_customBlocks := sfc_customBlocks d |}
  | RefStyle i =>
      {| sfc_template := sfc_template d; sfc_script := sfc_script d;
         sfc_scriptSetup := sfc_scriptSetup d; sfc_styles := alter f i (sfc_styles d);
         sfc_customBlocks := sfc_customBlocks d |}
  | RefCustomBlock i =>
      {| sfc_template := sfc_template d; sfc_script := sfc_script d;
         sfc_scriptSetup := sfc_scriptSetup d; sfc_styles := sfc_styles d;
         sfc_customBlocks := alter f i (sfc_customBlocks d) |}
  end.

(** [[template, script, scriptSetup, ...styles, ...customBlocks].filter(notEmpty)] *)
Definition blocks (d : SFCDescriptor) : list BlockRef :=
  filter (fun r => is_Some (getBlock d r))
    ([RefTemplate; RefScript; RefScriptSetup]
       ++ map RefStyle (seq 0 (length (sfc_styles d)))
       ++ map RefCustomBlock (seq 0 (length (sfc_customBlocks d)))).

(** [block.loc.start.offset] through a reference. *)
Definition startOffset (d : SFCDescriptor) (r : BlockRef) : nat :=
  match getBlock d r with Some b => b_loc_start_offset b | None => 0 end.

(** [blocks.filter(block => block.loc.start.offset > node.startIndex)
          .sort((a, b) => a.loc.start.offset - b.loc.start.offset)] *)
Definition afterBlocks (d : SFCDescriptor) (nodeStart : nat) : list BlockRef :=
  sortBy (fun r => Z.of_nat (startOffset d r))
    (filter (fun r => (nodeStart < startOffset d r)%nat) (blocks d)).

(** The body of the loop over [htmlDoc.childNodes] in [update]. *)
Definition tagIgnore (docText : string) (d : SFCDescriptor) (node : Node) : SFCDescriptor :=
  match n_type node, startIndex node, endIndex node with
  | Comment, Some startIndex, Some endIndex =>
      let text := js_substring startIndex (endIndex + 1) docText in
      if includesText text "@vue-ignore" then
        match afterBlocks d startIndex with
        | r :: _ => alterBlock (setAttr "__VLS_ignore" AttrTrue) r d
        | [] => d
        end
      else d
  | _, _, _ => d
  end.

Definition tagIgnores (docText : string) (childNodes : list Node) (d : SFCDescriptor) : SFCDescriptor :=
  fold_left (tagIgnore docText) childNodes d.

(** ** The live sections ([IDescriptor]) *)

Record Loc := mkLoc { start : nat; end_ : nat }.

(** The shape of [descriptor.template] and of [descriptor.scriptSetup]. *)
Record Section_ := mkSection {
  lang : string;
  content : string;
  loc : Loc;
  ignore : bool;
}.

Record ScriptSection := mkScriptSection {
  sc_src : option string;
  sc_lang : string;
  sc_content : string;
  sc_loc : Loc;
  sc_ignore : bool;
}.

Record StyleSection := mkStyleSection {
  st_lang : string;
  st_content : string;
  st_loc : Loc;
  st_ignore : bool;
  st_module : bool;
  st_scoped : bool;
}.

Record CustomSection := mkCustomSection {
  cb_type : string;
  cb_lang : string;
  cb_content : string;
  cb_loc : Loc;
  cb_ignore : bool;
}.

Record IDescriptor := mkIDescriptor {
  template : option Section_;
  script : option ScriptSection;
  scriptSetup : option Section_;
  styles : list StyleSection;
  customBlocks : list CustomSection;
}.

Record LastUpdateChanged := mkLastUpdateChanged {
  luc_template : bool;
  luc_script : bool;
  luc_scriptSetup : bool;
}.

#[global] Instance Loc_eq_dec : EqDecision Loc.
Proof. solve_decision. Defined.
#[global] Instance Section_eq_dec : EqDecision Section_.
Proof. solve_decision. Defined.
#[global] Instance ScriptSection_eq_dec : EqDecision ScriptSection.
Proof. solve_decision. Defined.
#[global] Instance StyleSection_eq_dec : EqDecision StyleSection.
Proof. solve_decision. Defined.
#[global] Instance CustomSection_eq_dec : EqDecision CustomSection.
Proof. solve_decision. Defined.
#[global] Instance IDescriptor_eq_dec : EqDecision IDescriptor.
Proof. solve_decision. Defined.

Module defaultLanguages.
Definition template : string := "html".
Definition script : string := "js".
Definition style : string := "css".
End defaultLanguages.

(** [a ?? b] *)
Definition orDefault {A} (a : option A) (b : A) : A :=
  match a with Some x => x | None => b end.

(** [a !== b] on values that may be [undefined]. *)
Definition differs {A} `{EqDecision A} (a b : option A) : bool :=
  negb (bool_decide (a = b)).

(** [!!block.attrs['__VLS_ignore']] *)
Definition ignoreAttr (b : SFCBlock) : bool := truthy (b_attrs b !! "__VLS_ignore").

(** *** [updateTemplate], [updateScript], [updateScriptSetup]

    Each returns the new section and the new changed-flag.  When both the
    old and the new section exist the fields are assigned one by one,
    otherwise the property is replaced. *)

Definition updateTemplate (newDescriptor : SFCDescriptor) (old : option Section_)
    : option Section_ * bool :=
  let newData :=
    match sfc_template newDescriptor with
    | Some t =>
        Some {| lang := orDefault (b_lang t) defaultLanguages.template;
                content := b_content t;
                loc := {| start := b_loc_start_offset t; end_ := b_loc_end_offset t |};
                ignore := ignoreAttr t |}
    | None => None
    end in
  let changed := differs (content <$> old) (content <$> newData) in
  match old, newData with
  | Some _, Some n =>
      (Some {| lang := lang n; content := content n;
               loc := {| start := start (loc n); end_ := end_ (loc n) |};
               ignore := ignore n |}, changed)
  | _, _ => (newData, changed)
  end.

Definition updateScript (newDescriptor : SFCDescriptor) (old : option ScriptSection)
    : option ScriptSection * bool :=
  let newData :=
    match sfc_script newDescriptor with
    | Some t =>
        Some {| sc_src := b_src t;
                sc_lang := orDefault (b_lang t) defaultLanguages.script;
                sc_content := b_content t;
                sc_loc := {| start := b_loc_start_offset t; end_ := b_loc_end_offset t |};
                sc_ignore := ignoreAttr t |}
    | None => None
    end in
  let changed := differs (sc_content <$> old) (sc_content <$> newData) in
  match old, newData with
  | Some _, Some n =>
      (Some {| sc_src := sc_src n; sc_lang := sc_lang n; sc_content := sc_content n;
               sc_loc := {| start := start (sc_loc n); end_ := end_ (sc_loc n) |};
               sc_ignore := sc_ignore n |}, changed)
  | _, _ => (newData, changed)
  end.

Definition updateScriptSetup (newDescriptor : SFCDescriptor) (old : option Section_)
    : option Section_ * bool :=
  let newData :=
    match sfc_scriptSetup newDescriptor with
    | Some t =>
        Some {| lang := orDefault (b_lang t) "js";
                content := b_content t;
                loc := {| start := b_loc_start_offset t; end_ := b_loc_end_offset t |};
                ignore := ignoreAttr t |}
    | None => None
    end in
  let changed := differs (content <$> old) (content <$> newData) in
  match old, newData with
  | Some _, Some n =>
      (Some {| lang := lang n; content := content n;
               loc := {| start := start (loc n); end_ := end_ (loc n) |};
               ignore := ignore n |}, changed)
  | _, _ => (newData, changed)
  end.

(** *** [updateStyles], [updateCustomBlocks]

    The [for] loop overwrites slot [i] when it exists and pushes otherwise;
    the [while] loop pops the surplus slots. *)

Definition styleData (style : SFCBlock) : StyleSection :=
  {| st_lang := orDefault (b_lang style) defaultLanguages.style;
     st_content := b_content style;
     st_loc := {| start := b_loc_start_offset style; end_ := b_loc_end_offset style |};
     st_ignore := ignoreAttr style;
     st_module := truthy (b_module style);
     st_scoped := orDefault (b_scoped style) false |}.

Definition customBlockData (block : SFCBlock) : CustomSection :=
  {| cb_type := b_type block;
     cb_lang := orDefault (b_lang block) "";
     cb_content := b_content block;
     cb_loc := {| start := b_loc_start_offset block; end_ := b_loc_end_offset block |};
     cb_ignore := ignoreAttr block |}.

(** The slot-wise merge shared by the two functions: [newData] is what the
    loop body builds from the [i]-th new block. *)
Definition mergeSlots {A B} (newData : A -> B) (news : list A) (olds : list B) : list B :=
  let merged :=
    fold_left (fun olds '(i, x) =>
      if (i <? length olds)%nat then <[i := newData x]> olds
      else olds ++ [newData x]) (imap pair news) olds in
  take (length news) merged.

Definition updateStyles (newDescriptor : SFCDescriptor) (old : list StyleSection)
    : list StyleSection :=
  mergeSlots styleData (sfc_styles newDescriptor) old.

Definition updateCustomBlocks (newDescriptor : SFCDescriptor) (old : list CustomSection)
    : list CustomSection :=
  mergeSlots customBlockData (sfc_customBlocks newDescriptor) old.

(** ** Cross-reference data ([ITemplateScriptData]) and the script engine *)

Record TextEdit := mkTextEdit { te_range : Range; newText : string }.

Record CompletionItem := mkCompletionItem {
  label : string;
  data_name : string;
  data_importModule : option string;
  additionalTextEdits : option (list TextEdit);
}.

Record ITemplateScriptData := mkITemplateScriptData {
  projectVersion : option string;
  context : list string;
  components : list string;
  props : list string;
  setupReturns : list string;
  htmlElements : list string;
  componentItems : list CompletionItem;
  htmlElementItems : list CompletionItem;
}.

Inductive ValidationKind := Semantic | Syntactic | Suggestion.

Record LocationLink := mkLocationLink {
  targetUri : string;
  targetRange : Range;
  targetSelectionRange : Range;
}.

(** What the functions of this file ask of [tsLanguageService]. *)
Record LanguageService := mkLanguageService {
  (** [host.getProjectVersion?.()] *)
  getProjectVersion : option string;
  (** [host.getCompilationSettings()] *)
  noUnusedLocals : bool;
  noUnusedParameters : bool;
  doComplete : string -> Position -> list CompletionItem;
  doValidation : string -> ValidationKind -> list Diagnostic;
  findDefinition : string -> Position -> list LocationLink;
  getTextDocument2 : string -> option TextDocument;
}.

(** The marker strings of [SearchTexts]. *)
Record SearchTexts := mkSearchTexts {
  st_Context : string;
  st_Components : string;
  st_Props : string;
  st_SetupReturns : string;
  st_HtmlElements : string;
  st_GlobalAttrs : string;
  st_Ref : string;
}.

(** ** The generated documents

    Modelled from the spec: the generators ([virtuals/script],
    [virtuals/template], [virtuals/main]) are not part of the sources at
    hand.  The specification says of a virtual document that its "version
    increments only when generated text actually changes (content-equality
    gate)", and that "a generator whose inputs are absent yields
    [{document: undefined, sourceMap: undefined}]".  A generator is modelled
    by the document it last produced and its version counter; what text it
    generates from its inputs is a field of [Generators]. *)

Record Generator := mkGenerator {
  versionCounter : nat;
  textDocument : option TextDocument;
}.

Record Generators := mkGenerators {
  scriptGen_uri : string;
  scriptGen_languageId : string;
  scriptGen_generate : TextDocument -> IDescriptor -> option string;
  templateGen_uri : string;
  templateGen_languageId : string;
  templateGen_generate : TextDocument -> IDescriptor -> ITemplateScriptData -> option string;
  scriptMain_generate : TextDocument -> IDescriptor -> TextDocument;
}.

(** Modelled from the spec: one generation pass, with the content-equality
    gate on the generated text. *)
Definition regenerate (docUri docLanguageId : string) (generated : option string)
    (g : Generator) : Generator :=
  if bool_decide (generated = text <$> textDocument g) then g
  else
    {| versionCounter := S (versionCounter g);
       textDocument :=
         (fun t => {| uri := docUri; languageId := docLanguageId;
                      version := S (versionCounter g); text := t |}) <$> generated |}.

(** ** The state of a source file: the variables [createSourceFile] closes over *)

Record SourceFile := mkSourceFile {
  vueDoc : TextDocument;
  descriptor : IDescriptor;
  lastUpdateChanged : LastUpdateChanged;
  templateScriptData : ITemplateScriptData;
  virtualScriptGen : Generator;
  virtualTemplateGen : Generator;
}.

(** Reading [virtualScriptGen.textDocument.value]: the computed document is
    brought up to date with the current sections first. *)
Definition readScriptGen (G : Generators) (s : SourceFile) : SourceFile :=
  {| vueDoc := vueDoc s; descriptor := descriptor s;
     lastUpdateChanged := lastUpdateChanged s;
     templateScriptData := templateScriptData s;
     virtualScriptGen :=
       regenerate (scriptGen_uri G) (scriptGen_languageId G)
         (scriptGen_generate G (vueDoc s) (descriptor s)) (virtualScriptGen s);
     virtualTemplateGen := virtualTemplateGen s |}.

(** [virtualTemplateGen.update()] *)
Definition virtualTemplateGen_update (G : Generators) (s : SourceFile) : SourceFile :=
  {| vueDoc := vueDoc s; descriptor := descriptor s;
     lastUpdateChanged := lastUpdateChanged s;
     templateScriptData := templateScriptData s;
     virtualScriptGen := virtualScriptGen s;
     virtualTemplateGen :=
       regenerate (templateGen_uri G) (templateGen_languageId G)
         (templateGen_generate G (vueDoc s) (descriptor s) (templateScriptData s))
         (virtualTemplateGen s) |}.

(** ** [update] *)

Record UpdateResult := mkUpdateResult {
  scriptUpdated : bool;
  templateScriptUpdated : bool;
}.

(** [virtualScriptGen.textDocument.value?.version] and its template twin,
    once the computed script document is up to date. *)
Definition versions (s : SourceFile) : option nat * option nat :=
  (version <$> textDocument (virtualScriptGen s),
   version <$> textDocument (virtualTemplateGen s)).

Definition update (P : Parsers) (G : Generators) (newVueDocument : TextDocument)
    (s : SourceFile) : SourceFile * UpdateResult :=
  let newDescriptor := vueSfc_parse P (text newVueDocument) in
  let s := readScriptGen G s in
  let versionsBeforeUpdate := versions s in
  let htmlDoc := htmlparser2_parseDocument P (text newVueDocument) in
  let newDescriptor := tagIgnores (text newVueDocument) htmlDoc newDescriptor in
  let '(template', templateChanged) := updateTemplate newDescriptor (template (descriptor s)) in
  let '(script', scriptChanged) := updateScript newDescriptor (script (descriptor s)) in
  let '(scriptSetup', scriptSetupChanged) :=
    updateScriptSetup newDescriptor (scriptSetup (descriptor s)) in
  let styles' := updateStyles newDescriptor (styles (descriptor s)) in
  let customBlocks' := updateCustomBlocks newDescriptor (customBlocks (descriptor s)) in
  let s :=
    {| vueDoc := vueDoc s;
       descriptor :=
         {| template := template'; script := script'; scriptSetup := scriptSetup';
            styles := styles'; customBlocks := customBlocks' |};
       lastUpdateChanged :=
         {| luc_template := templateChanged; luc_script := scriptChanged;
            luc_scriptSetup := scriptSetupChanged |};
       templateScriptData := templateScriptData s;
       virtualScriptGen := virtualScriptGen s;
       virtualTemplateGen := virtualTemplateGen s |} in
  let s := virtualTemplateGen_update G s in
  let s :=
    if negb (String.eqb (text newVueDocument) (text (vueDoc s))) then
      {| vueDoc := newVueDocument; descriptor := descriptor s;
         lastUpdateChanged := lastUpdateChanged s;
         templateScriptData := templateScriptData s;
         virtualScriptGen := virtualScriptGen s;
         virtualTemplateGen := virtualTemplateGen s |}
    else s in
  let s := readScriptGen G s in
  let versionsAfterUpdate := versions s in
  (s, {| scriptUpdated := differs (fst versionsBeforeUpdate) (fst versionsAfterUpdate);
         templateScriptUpdated := differs (snd versionsBeforeUpdate) (snd versionsAfterUpdate) |}).

(** ** [updateTemplateScript] *)

(** [eqSet] of [updateTemplateScript], on [Set<string>]. *)
Definition eqSet (as_ bs : gset string) : bool :=
  if negb (size as_ =? size bs)%nat then false
  else forallb (fun a => bool_decide (a ∈ bs)) (elements as_).

(** [docText.indexOf(marker) >= 0
       ? tsLanguageService.doComplete(doc.uri, doc.positionAt(docText.indexOf(marker)))
       : []] *)
Definition completeAt (ls : LanguageService) (doc : TextDocument) (marker : string)
    : list CompletionItem :=
  match indexOf (text doc) marker with
  | Some offset => doComplete ls (uri doc) (positionAt doc offset)
  | None => []
  end.

Definition newSet (names : list string) : gset string := list_to_set names.

Definition updateTemplateScript (ls : LanguageService) (G : Generators) (T : SearchTexts)
    (s : SourceFile) : SourceFile * bool :=
  let d := templateScriptData s in
  if bool_decide (projectVersion d = getProjectVersion ls) then (s, false)
  else
    let doc := scriptMain_generate G (vueDoc s) (descriptor s) in
    let context' := completeAt ls doc (st_Context T) in
    let components' := completeAt ls doc (st_Components T) in
    let props' := completeAt ls doc (st_Props T) in
    let setupReturns' := completeAt ls doc (st_SetupReturns T) in
    let globalEls := completeAt ls doc (st_HtmlElements T) in
    let contextNames := map data_name context' in
    let componentNames := map data_name components' in
    let propNames := map data_name props' in
    let setupReturnNames := map data_name setupReturns' in
    let htmlElementNames := map data_name globalEls in
    if eqSet (newSet contextNames) (newSet (context d))
       && eqSet (newSet componentNames) (newSet (components d))
       && eqSet (newSet propNames) (newSet (props d))
       && eqSet (newSet setupReturnNames) (newSet (setupReturns d))
       && eqSet (newSet htmlElementNames) (newSet (htmlElements d))
    then
      ({| vueDoc := vueDoc s; descriptor := descriptor s;
          lastUpdateChanged := lastUpdateChanged s;
          templateScriptData :=
            {| projectVersion := getProjectVersion ls;
               context := context d; components := components d; props := props d;
               setupReturns := setupReturns d; htmlElements := htmlElements d;
               componentItems := componentItems d;
               htmlElementItems := htmlElementItems d |};
          virtualScriptGen := virtualScriptGen s;
          virtualTemplateGen := virtualTemplateGen s |}, false)
    else
      (virtualTemplateGen_update G
         {| vueDoc := vueDoc s; descriptor := descriptor s;
            lastUpdateChanged := lastUpdateChanged s;
            templateScriptData :=
              {| projectVersion := getProjectVersion ls;
                 context := contextNames; components := componentNames;
                 props := propNames; setupReturns := setupReturnNames;
                 htmlElements := htmlElementNames;
                 componentItems := components';
                 htmlElementItems := globalEls |};
            virtualScriptGen := virtualScriptGen s;
            virtualTemplateGen := virtualTemplateGen s |}, true).

(** ** The diagnostic producers of [useDiagnostics]

    A producer is a [computed] value: a function of the reactive state and
    of the engines' current answers.  [World] collects what the producers
    read: the state of the source file (its computed documents up to date),
    the current outputs of the generators that are not part of
    [SourceFile], and the engines. *)

Record StyleDocument := mkStyleDocument {
  sd_textDocument : TextDocument;
  (** [stylesheet: css.Stylesheet | undefined], as an opaque handle *)
  sd_stylesheet : option nat;
  sd_ignore : option bool;
}.

Record CssLanguageService := mkCssLanguageService {
  css_doValidation : TextDocument -> nat -> option (list Diagnostic);
}.

Record VirtualTemplateRaw := mkVirtualTemplateRaw {
  tr_textDocument : option TextDocument;
  tr_htmlDocument : bool;
  tr_pugDocument : bool;
  tr_htmlSourceMap : option (SourceMap unit);
  tr_pugSourceMap : option (SourceMap unit);
}.

Inductive ProducerId :=
  | StylesValidation | TemplateValidation | ScriptExistValidation
  | TemplateScriptValidation1 | TemplateScriptValidation2 | TemplateScriptValidation3
  | ScriptValidation1 | ScriptValidation2 | ScriptValidation3 | ScriptUnusedValidation.

#[global] Instance ProducerId_eq_dec : EqDecision ProducerId.
Proof. solve_decision. Defined.

Record World := mkWorld {
  sourceFile : SourceFile;
  tsLanguageService : LanguageService;
  (** [tsSourceMaps.value] *)
  tsSourceMaps : list TsSourceMap;
  (** [virtualScriptGen.textDocumentForSuggestion.value] *)
  textDocumentForSuggestion : option TextDocument;
  (** [virtualTemplateGen.teleportSourceMap.value] *)
  teleportSourceMap : option TeleportSourceMap;
  virtualTemplateRaw : VirtualTemplateRaw;
  (** [virtualStyles.textDocuments.value], [virtualStyles.sourceMaps.value] *)
  virtualStyles_textDocuments : list StyleDocument;
  virtualStyles_sourceMaps : list (SourceMap unit);
  (** [languageServices.getCssLanguageService] *)
  getCssLanguageService : string -> option CssLanguageService;
  (** [getVueCompileErrors], which reports what [vueSfc.compileTemplate] finds *)
  getVueCompileErrors : TextDocument -> list Diagnostic;
  (** the value of the computed [pugErrors] *)
  pugErrors : list Diagnostic;
  (** the wall time [Date.now() - startTime] that evaluating a producer takes *)
  elapsed : ProducerId -> Z;
}.

(** [x ? [x] : []] *)
Definition optList {A} (x : option A) : list A :=
  match x with Some a => [a] | None => [] end.

(** [descriptor.template?.ignore] *)
Definition ignoreTemplateCheck (w : World) : bool :=
  match template (descriptor (sourceFile w)) with
  | Some t => ignore t
  | None => false
  end.

(** [descriptor.script?.ignore || descriptor.scriptSetup?.ignore] *)
Definition ignoreScriptCheck (w : World) : bool :=
  match script (descriptor (sourceFile w)) with
  | Some t => sc_ignore t
  | None => false
  end
  || match scriptSetup (descriptor (sourceFile w)) with
     | Some t => ignore t
     | None => false
     end.

Definition htmlErrors (w : World) : list Diagnostic :=
  match tr_textDocument (virtualTemplateRaw w) with
  | Some doc => if tr_htmlDocument (virtualTemplateRaw w) then getVueCompileErrors w doc else []
  | None => []
  end.

Definition useTemplateValidation (ignore : World -> bool) (w : World) : list Diagnostic :=
  if ignore w then []
  else
    match tr_textDocument (virtualTemplateRaw w) with
    | None => []
    | Some doc =>
        toSourceDiags (htmlErrors w) (uri doc) (optList (tr_htmlSourceMap (virtualTemplateRaw w)))
        ++ toSourceDiags (pugErrors w) (uri doc) (optList (tr_pugSourceMap (virtualTemplateRaw w)))
    end.

(** [Map.prototype.set] on a map kept in insertion order. *)
Fixpoint mapSet {V} (k : string) (v : V) (m : list (string * V)) : list (string * V) :=
  match m with
  | [] => [(k, v)]
  | (k', v') :: m' => if String.eqb k' k then (k, v) :: m' else (k', v') :: mapSet k v m'
  end.

Definition stylesErrors (w : World) (documents : list StyleDocument)
    : list (string * list Diagnostic) :=
  fold_left (fun result d =>
    if orDefault (sd_ignore d) false then result
    else
      match getCssLanguageService w (languageId (sd_textDocument d)), sd_stylesheet d with
      | Some cssLanguageService, Some stylesheet =>
          match css_doValidation cssLanguageService (sd_textDocument d) stylesheet with
          | Some errs => mapSet (uri (sd_textDocument d)) errs result
          | None => result
          end
      | _, _ => result
      end) documents [].

Definition useStylesValidation (documents : World -> list StyleDocument) (w : World)
    : list Diagnostic :=
  fold_left (fun result '(uri, errs) =>
    result ++ toSourceDiags errs uri (virtualStyles_sourceMaps w))
    (stylesErrors w (documents w)) [].

Definition scriptMissingMessage : string :=
  "services are not working for this script block because virtual file is not found in TS server, maybe try to add lang=" ++ String (ascii_of_nat 34) "ts" ++ String (ascii_of_nat 34) " to <script> or add `" ++ String (ascii_of_nat 34) "allowJs" ++ String (ascii_of_nat 34) ": true` to tsconfig.json".

Definition useScriptExistValidation (ignore : World -> bool) (w : World) : list Diagnostic :=
  if ignore w then []
  else
    match textDocument (virtualScriptGen (sourceFile w)) with
    | Some doc =>
        match getTextDocument2 (tsLanguageService w) (uri doc) with
        | None =>
            fold_left (fun diags (script : option Loc) =>
              match script with
              | None => diags
              | Some l =>
                  diags ++ [ {| range :=
                                  {| r_start := positionAt (vueDoc (sourceFile w)) (start l);
                                     r_end := positionAt (vueDoc (sourceFile w)) (end_ l) |};
                                message := scriptMissingMessage;
                                severity := Some SevWarning;
                                code := None;
                                source := Some "volar";
                                tags := None |} ]
              end)
              [sc_loc <$> script (descriptor (sourceFile w));
               loc <$> scriptSetup (descriptor (sourceFile w))] []
        | Some _ => []
        end
    | None => []
    end.

(** The choice of validation by [mode]: 1 is semantic, 2 is syntactic, and
    everything else is suggestion. *)
Definition validationOf (mode : nat) : ValidationKind :=
  match mode with
  | 1 => Semantic
  | 2 => Syntactic
  | _ => Suggestion
  end.

(** [error.tags?.includes(DiagnosticTag.Unnecessary)] *)
Definition isUnnecessary (error : Diagnostic) : bool :=
  match tags error with
  | Some ts => bool_decide (Unnecessary ∈ ts)
  | None => false
  end.

Definition useScriptValidation (ignore : World -> bool) (document : World -> option TextDocument)
    (mode : nat) (onlyUnusedCheck : bool) (w : World) : list Diagnostic :=
  let errors :=
    match document w with
    | None => []
    | Some doc => doValidation (tsLanguageService w) (uri doc) (validationOf mode)
    end in
  if ignore w then []
  else
    match document w with
    | None => []
    | Some doc =>
        let result := toTsSourceDiags errors (uri doc) (tsSourceMaps w) in
        if onlyUnusedCheck then List.filter isUnnecessary result else result
    end.

(** [errors_1] of [useTemplateScriptValidation] *)
Definition errors_1 (mode : nat) (w : World) : list Diagnostic :=
  match textDocument (virtualTemplateGen (sourceFile w)) with
  | None => []
  | Some doc => doValidation (tsLanguageService w) (uri doc) (validationOf mode)
  end.

(** [errors_2] of [useTemplateScriptValidation]: the diagnostics of
    [errors_1] on a setup-returned name, moved to the definitions that the
    teleport map leads to. *)
Definition errors_2 (mode : nat) (w : World) : list Diagnostic :=
  match textDocument (virtualTemplateGen (sourceFile w)),
        teleportSourceMap w,
        textDocument (virtualScriptGen (sourceFile w)) with
  | Some templateDoc, Some teleport, Some scriptDoc =>
      fold_left (fun result diag =>
        let spanText := getTextIn templateDoc (range diag) in
        if negb (bool_decide (spanText ∈ setupReturns (templateScriptData (sourceFile w))))
        then result
        else
          let propRights :=
            getMappedRanges teleport (r_start (range diag)) (r_end (range diag)) in
          fold_left (fun result propRight =>
            if isAdditionalReference (data propRight) then result
            else
              let definitions :=
                findDefinition (tsLanguageService w) (uri templateDoc) (m_start propRight) in
              fold_left (fun result definition =>
                if negb (String.eqb (targetUri definition) (uri scriptDoc)) then result
                else result ++ [withRange diag (targetSelectionRange definition)])
                definitions result)
            propRights result)
        (errors_1 mode w) []
  | _, _, _ => []
  end.

Definition useTemplateScriptValidation (ignore : World -> bool) (mode : nat) (w : World)
    : list Diagnostic :=
  if ignore w then []
  else
    let result_1 :=
      match textDocument (virtualTemplateGen (sourceFile w)) with
      | Some doc => toTsSourceDiags (errors_1 mode w) (uri doc) (tsSourceMaps w)
      | None => []
      end in
    let result_2 :=
      match textDocument (virtualScriptGen (sourceFile w)) with
      | Some doc => toTsSourceDiags (errors_2 mode w) (uri doc) (tsSourceMaps w)
      | None => []
      end in
    result_1 ++ result_2.

(** [anyNoUnusedEnabled]: [tsOptions] is read once, when [useDiagnostics]
    is set up; the compilation settings of the engine are taken to stay
    what they were then. *)
Definition anyNoUnusedEnabled (w : World) : bool :=
  noUnusedLocals (tsLanguageService w) || noUnusedParameters (tsLanguageService w).

(** The value [diag[0].value] of each producer record of [nonTs],
    [templateTs] and [scriptTs]. *)
Definition producer (p : ProducerId) : World -> list Diagnostic :=
  match p with
  | StylesValidation => useStylesValidation virtualStyles_textDocuments
  | TemplateValidation => useTemplateValidation ignoreTemplateCheck
  | ScriptExistValidation => useScriptExistValidation ignoreScriptCheck
  | TemplateScriptValidation1 => useTemplateScriptValidation ignoreTemplateCheck 1
  | TemplateScriptValidation2 => useTemplateScriptValidation ignoreTemplateCheck 2
  | TemplateScriptValidation3 => useTemplateScriptValidation ignoreTemplateCheck 3
  | ScriptValidation1 =>
      useScriptValidation ignoreScriptCheck
        (fun w => textDocument (virtualScriptGen (sourceFile w))) 1 false
  | ScriptValidation2 =>
      useScriptValidation ignoreScriptCheck
        (fun w => textDocument (virtualScriptGen (sourceFile w))) 2 false
  | ScriptValidation3 =>
      useScriptValidation ignoreScriptCheck
        (fun w =>
           match textDocumentForSuggestion w with
           | Some d => Some d
           | None => textDocument (virtualScriptGen (sourceFile w))
           end) 3 false
  | ScriptUnusedValidation =>
      useScriptValidation ignoreScriptCheck
        (fun w => if anyNoUnusedEnabled w then textDocumentForSuggestion w else None) 1 true
  end.

(** ** Deduplication ([utils/dedupe])

    Modelled from the spec: [dedupe.withDiagnostics] is not part of the
    sources at hand.  The specification: "diagnostics that remap to an
    identical [{range, message, severity}] triple are collapsed".  The
    first diagnostic of each triple is kept, in the order of the input. *)

Definition dedupeKey (d : Diagnostic) : Range * string * option DiagnosticSeverity :=
  (range d, message d, severity d).

Fixpoint withDiagnosticsFrom (seen : list (Range * string * option DiagnosticSeverity))
    (items : list Diagnostic) : list Diagnostic :=
  match items with
  | [] => []
  | d :: items' =>
      if bool_decide (dedupeKey d ∈ seen) then withDiagnosticsFrom seen items'
      else d :: withDiagnosticsFrom (dedupeKey d :: seen) items'
  end.

Definition withDiagnostics (items : list Diagnostic) : list Diagnostic :=
  withDiagnosticsFrom [] items.

(** ** The diagnostics run (the function [useDiagnostics] returns)

    The producer records [[Ref, Diagnostic[], number]] are shared objects:
    [nonTs], [templateTs], [scriptTs], [all] and [keep] hold references to
    them, and the loop writes [diag[1]] and [diag[2]] through [all].  A
    record is named by its [ProducerId]; [records] holds the two mutable
    components of each. *)

Record DiagState := mkDiagState {
  world : World;
  tsProjectVersion : option string;
  (** [diag[1]] and [diag[2]] of every record *)
  records : ProducerId -> list Diagnostic * Z;
  (** the arrays [templateTs] and [scriptTs], in their current order *)
  templateTs : list ProducerId;
  scriptTs : list ProducerId;
}.

Definition nonTs : list ProducerId :=
  [StylesValidation; TemplateValidation; ScriptExistValidation].

(** The state in which [useDiagnostics] leaves the records. *)
Definition initialRecords : ProducerId -> list Diagnostic * Z := fun _ => ([], 0%Z).
Definition initialTemplateTs : list ProducerId :=
  [TemplateScriptValidation1; TemplateScriptValidation2; TemplateScriptValidation3].
Definition initialScriptTs : list ProducerId :=
  [ScriptValidation1; ScriptValidation2; ScriptValidation3; ScriptUnusedValidation].

(** What an observer of a run sees, in order. *)
Inductive Event :=
  | Polled (cancelled : bool)             (* [await isCancel()] resolved *)
  | Computed (p : ProducerId)             (* [diag[0].value] was evaluated *)
  | Response (diags : list Diagnostic).   (* [response(diags)] was called *)

(** The callback [isCancel]: it has a state [K] of its own and, since the
    run awaits it, whatever else runs in the meantime may change the state
    of the source file and of the records. *)
Definition IsCancel (K : Type) : Type := K -> DiagState -> K * DiagState * bool.

(** The part of the run before the loop: the project version is recorded,
    the two families are sorted by cost, and [all] and [keep] are chosen. *)
Definition schedule (withSideEffect : bool) (st : DiagState)
    : DiagState * (list ProducerId * list ProducerId) :=
  let cost := fun p => snd (records st p) in
  let templateTs' := sortBy cost (templateTs st) in
  let scriptTs' := sortBy cost (scriptTs st) in
  let st' :=
    {| world := world st;
       tsProjectVersion := getProjectVersion (tsLanguageService (world st));
       records := records st;
       templateTs := templateTs';
       scriptTs := scriptTs' |} in
  let changed := lastUpdateChanged (sourceFile (world st)) in
  let all := nonTs in
  let keep := [] in
  if luc_script changed || luc_scriptSetup changed then
    let all := all ++ scriptTs' in
    if withSideEffect then (st', (all ++ templateTs', keep))
    else (st', (all, keep ++ templateTs'))
  else if luc_template changed then
    let all := all ++ templateTs' in
    if withSideEffect then (st', (all ++ scriptTs', keep))
    else (st', (all, keep ++ scriptTs'))
  else
    if withSideEffect then (st', ((all ++ scriptTs') ++ templateTs', keep))
    else (st', (all, (keep ++ scriptTs') ++ templateTs')).

(** [diag[1] = ...; diag[2] = ...] *)
Definition setRecord (p : ProducerId) (v : list Diagnostic * Z) (st : DiagState) : DiagState :=
  {| world := world st;
     tsProjectVersion := tsProjectVersion st;
     records := fun q => if bool_decide (q = p) then v else records st q;
     templateTs := templateTs st;
     scriptTs := scriptTs st |}.

(** [[...all, ...keep].map(diag => diag[1]).flat()] *)
Definition results (all keep : list ProducerId) (st : DiagState) : list Diagnostic :=
  concat (map (fun p => fst (records st p)) (all ++ keep)).

(** The loop [for (const diag of all)], from the producers [rest] on.  The
    log pairs every event with the state in which it happens. *)
Fixpoint runLoop {K} (isCancel : option (IsCancel K)) (all keep rest : list ProducerId)
    (k : K) (st : DiagState) : list (Event * DiagState) * (K * DiagState) :=
  match rest with
  | [] => ([], (k, st))
  | diag :: rest' =>
      let '(k, st, cancelled, polled) :=
        match isCancel with
        | Some f => let '(k', st', b) := f k st in (k', st', b, [(Polled b, st')])
        | None => (k, st, false, [])
        end in
      if cancelled then (polled, (k, st))
      else
        let st := setRecord diag (producer diag (world st), elapsed (world st) diag) st in
        let '(events, final) := runLoop isCancel all keep rest' k st in
        (polled
           ++ [(Computed diag, st); (Response (withDiagnostics (results all keep st)), st)]
           ++ events,
         final)
  end.

(** [getDiagnostics(response, isCancel, withSideEffect)] *)
Definition getDiagnostics {K} (isCancel : option (IsCancel K)) (withSideEffect : bool)
    (k : K) (st : DiagState) : list (Event * DiagState) * (K * DiagState) :=
  let '(st, (all, keep)) := schedule withSideEffect st in
  runLoop isCancel all keep all k st.

(** The events of a run, as an observer sees them. *)
Definition trace {K} (isCancel : option (IsCancel K)) (withSideEffect : bool)
    (k : K) (st : DiagState) : list Event :=
  map fst (fst (getDiagnostics isCancel withSideEffect k st)).

(** ** The command [SWITCH_REF_SUGAR]

    The handler reads the descriptor, the data the script-setup generator
    collected ([labels] for the sugared declarations, [refCalls] for the
    desugared ones; offsets are relative to the start of the script-setup
    content), the references of each bound variable and, to import [ref],
    a completion of the script engine.  Its result is the list of edits it
    hands to [connection.workspace.applyEdit]; [None] stands for a return
    without any edit. *)

Record Location := mkLocation { l_uri : string; l_range : Range }.

Record LabelRight := mkLabelRight {
  lr_start : nat;
  lr_end : nat;
  isComputedCall : bool;
}.

Record RefSugarLabel := mkRefSugarLabel {
  lb_label : Loc;
  lb_right : LabelRight;
  lb_vars : list Loc;
}.

Record RefCall := mkRefCall {
  rc_start : nat;
  rc_end : nat;
  rc_vars : list Loc;
  rc_left : Loc;
  rc_rightExpression : Loc;
}.

Record ScriptSetupData := mkScriptSetupData {
  labels : list RefSugarLabel;
  refCalls : list RefCall;
}.

Record CommandContext := mkCommandContext {
  (** [sourceFile.getDescriptor()] *)
  getDescriptor : IDescriptor;
  (** [sourceFile.getScriptSetupData()], its [data] *)
  getScriptSetupData : option ScriptSetupData;
  (** [sourceFile.getVirtualScript()]: the document and the
      [targetToSource] of its source map *)
  getVirtualScript_document : option TextDocument;
  getVirtualScript_targetToSource : option (Range -> option Range);
  (** [_findReferences(document, position)] *)
  findReferences : TextDocument -> Position -> option (list Location);
  (** [tsLanguageService.doComplete(document, position, options)] and
      [tsLanguageService.doCompletionResolve(item)] *)
  cmd_doComplete : TextDocument -> Position -> list CompletionItem;
  doCompletionResolve : CompletionItem -> CompletionItem;
  (** [SearchTexts.Ref] *)
  SearchTexts_Ref : string;
}.

(** [TextEdit.replace(range, newText)] with the range given by offsets. *)
Definition replaceAt (document : TextDocument) (from to : nat) (newText : string) : TextEdit :=
  {| te_range := {| r_start := positionAt document from; r_end := positionAt document to |};
     newText := newText |}.

(** The body of the loop over the references of one variable, in the
    branch that removes the sugar. *)
Definition unuseReference (document : TextDocument) (scriptSetup : Section_) (_var : Loc)
    (varText : string) (edits : list TextEdit) (reference : Location) : list TextEdit :=
  if negb (String.eqb (l_uri reference) (uri document)) then edits
  else
    let refernceRange_start := offsetAt document (r_start (l_range reference)) in
    let refernceRange_end := offsetAt document (r_end (l_range reference)) in
    if (refernceRange_start =? start (loc scriptSetup) + start _var)%nat
       && (refernceRange_end =? start (loc scriptSetup) + end_ _var)%nat
    then edits
    else if (start (loc scriptSetup) <=? refernceRange_start)%nat
            && (refernceRange_end <=? end_ (loc scriptSetup))%nat
    then
      let referenceText :=
        js_substring refernceRange_start refernceRange_end (text document) in
      let isRaw := String.eqb ("$" +:+ varText) referenceText in
      if isRaw then edits ++ [ {| te_range := l_range reference; newText := varText |} ]
      else edits ++ [ {| te_range := l_range reference; newText := varText +:+ ".value" |} ]
    else edits.

Definition unuseReferences (ctx : CommandContext) (document : TextDocument)
    (scriptSetup : Section_) (_var : Loc) (edits : list TextEdit) : list TextEdit :=
  let varRange :=
    {| r_start := positionAt document (start (loc scriptSetup) + start _var);
       r_end := positionAt document (start (loc scriptSetup) + end_ _var) |} in
  let varText := getTextIn document varRange in
  let references := orDefault (findReferences ctx document (r_start varRange)) [] in
  fold_left (unuseReference document scriptSetup _var varText) references edits.

(** The body of the loop over the references of one variable, in the
    branch that introduces the sugar. *)
Definition useReference (document : TextDocument) (scriptSetup : Section_) (_var : Loc)
    (varText : string) (edits : list TextEdit) (reference : Location) : list TextEdit :=
  if negb (String.eqb (l_uri reference) (uri document)) then edits
  else
    let refernceRange_start := offsetAt document (r_start (l_range reference)) in
    let refernceRange_end := offsetAt document (r_end (l_range reference)) in
    if (refernceRange_start =? start (loc scriptSetup) + start _var)%nat
       && (refernceRange_end =? start (loc scriptSetup) + end_ _var)%nat
    then edits
    else if (start (loc scriptSetup) <=? refernceRange_start)%nat
            && (refernceRange_end <=? end_ (loc scriptSetup))%nat
    then
      let withDotValue :=
        String.eqb (js_substr refernceRange_end (String.length ".value") (text document))
          ".value" in
      if withDotValue then
        edits ++ [ {| te_range :=
                        {| r_start := r_start (l_range reference);
                           r_end := positionAt document
                                      (refernceRange_end + String.length ".value") |};
                      newText := varText |} ]
      else edits ++ [ {| te_range := l_range reference; newText := "$" +:+ varText |} ]
    else edits.

Definition useReferences (ctx : CommandContext) (document : TextDocument)
    (scriptSetup : Section_) (_var : Loc) (edits : list TextEdit) : list TextEdit :=
  let varRange :=
    {| r_start := positionAt document (start (loc scriptSetup) + start _var);
       r_end := positionAt document (start (loc scriptSetup) + end_ _var) |} in
  let varText := getTextIn document varRange in
  let references := orDefault (findReferences ctx document (r_start varRange)) [] in
  fold_left (useReference document scriptSetup _var varText) references edits.

(** The edits that import [ref], from the completion at [SearchTexts.Ref]. *)
Definition importRefEdits (ctx : CommandContext) (scriptDocument : TextDocument)
    (targetToSource : Range -> option Range) (edits : list TextEdit) : list TextEdit :=
  let refOffset := orDefault (indexOf (text scriptDocument) (SearchTexts_Ref ctx)) 0 in
  let items := cmd_doComplete ctx scriptDocument (positionAt scriptDocument refOffset) in
  fold_left (fun edits item =>
    if negb (String.eqb (label item) "ref") then edits
    else
      let item := doCompletionResolve ctx item in
      match data_importModule item with
      | None => edits
      | Some m =>
          if String.eqb m "" then edits
          else
            match additionalTextEdits item with
            | None => edits
            | Some additional =>
                fold_left (fun edits edit =>
                  match targetToSource (te_range edit) with
                  | None => edits
                  | Some vueRange => edits ++ [ {| te_range := vueRange; newText := newText edit |} ]
                  end) additional edits
            end
      end) items edits.

Definition switchRefSugar (ctx : CommandContext) (document : TextDocument)
    : option (list TextEdit) :=
  match scriptSetup (getDescriptor ctx) with
  | None => None
  | Some scriptSetup =>
      match getScriptSetupData ctx with
      | None => None
      | Some genData =>
          let base := start (loc scriptSetup) in
          match labels genData with
          | _ :: _ =>
              (* unuse ref sugar *)
              let edits :=
                fold_left (fun edits label =>
                  let edits :=
                    edits ++ [replaceAt document (base + start (lb_label label))
                                (base + end_ (lb_label label) + 1) "const"] in
                  let edits :=
                    if negb (isComputedCall (lb_right label)) then
                      edits
                        ++ [replaceAt document (base + lr_start (lb_right label))
                              (base + lr_start (lb_right label)) "ref("]
                        ++ [replaceAt document (base + lr_end (lb_right label))
                              (base + lr_end (lb_right label)) ")"]
                    else edits in
                  fold_left (fun edits _var =>
                    unuseReferences ctx document scriptSetup _var edits)
                    (lb_vars label) edits)
                  (labels genData) [] in
              match getVirtualScript_document ctx, getVirtualScript_targetToSource ctx with
              | Some scriptDocument, Some targetToSource =>
                  Some (importRefEdits ctx scriptDocument targetToSource edits)
              | _, _ => None
              end
          | [] =>
              (* use ref sugar *)
              Some (fold_left (fun edits refCall =>
                let left :=
                  js_substring (base + start (rc_left refCall))
                    (base + end_ (rc_left refCall)) (text document) in
                let right :=
                  js_substring (base + start (rc_rightExpression refCall))
                    (base + end_ (rc_rightExpression refCall)) (text document) in
                let edits :=
                  edits ++ [replaceAt document (base + rc_start refCall)
                              (base + rc_end refCall)
                              ("ref: " +:+ left +:+ " = " +:+ right)] in
                fold_left (fun edits _var =>
                  useReferences ctx document scriptSetup _var edits)
                  (rc_vars refCall) edits)
                (refCalls genData) [])
          end
      end
  end.

(** *** Applying a workspace edit

    The editor applies the edits of one document together: every range
    refers to the text before the edit, the edits are taken in the order
    of their start (edits at the same place in the order given), and two
    edits may not overlap.  [None] is such an overlap. *)

Fixpoint applySorted (docText : string) (lastModifiedOffset : nat)
    (edits : list (nat * nat * string)) : option string :=
  match edits with
  | [] => Some (substring lastModifiedOffset (String.length docText - lastModifiedOffset) docText)
  | (startOffset, endOffset, new) :: edits' =>
      if (startOffset <? lastModifiedOffset)%nat then None
      else
        match applySorted docText endOffset edits' with
        | None => None
        | Some rest =>
            Some (substring lastModifiedOffset (startOffset - lastModifiedOffset) docText
                    +:+ new +:+ rest)
        end
  end.

Definition applyEdits (document : TextDocument) (edits : list TextEdit) : option string :=
  let byOffset :=
    map (fun e => (offsetAt document (r_start (te_range e)),
                   offsetAt document (r_end (te_range e)), newText e)) edits in
  applySorted (text document) 0
    (sortBy (fun e => Z.of_nat (fst (fst e))) byOffset).

From Stdlib Require Import Sorted.

(** ** The computed values [tsSourceMaps] and [tsDocuments]

    What the two read: the documents and source maps that the generators
    currently give, each [undefined] when its inputs are absent, and the
    optional [dtsMode]. *)

Record VirtualScripts := mkVirtualScripts {
  (** [dtsMode?.value] *)
  dtsMode : option bool;
  virtualScriptGen_textDocument : option TextDocument;
  virtualScriptGen_textDocumentForSuggestion : option TextDocument;
  virtualScriptGen_textDocumentForTemplate : option TextDocument;
  virtualScriptGen_sourceMap : option TsSourceMap;
  virtualScriptGen_sourceMapForSuggestion : option TsSourceMap;
  virtualScriptGen_sourceMapForTemplate : option TsSourceMap;
  virtualScriptMain_textDocument : TextDocument;
  virtualScriptMain_sourceMap : option TsSourceMap;
  virtualTemplateGen_textDocument : option TextDocument;
  virtualTemplateGen_sourceMap : option TsSourceMap;
  virtualScriptRaw_textDocument : option TextDocument;
}.

(** [xs.filter(notEmpty)] *)
Definition notEmpty {A} (xs : list (option A)) : list A := omap id xs.

(** [if (doc) docs.set(doc.uri, doc)] *)
Definition setDocument (doc : option TextDocument) (docs : gmap string TextDocument)
    : gmap string TextDocument :=
  match doc with
  | Some d => <[uri d := d]> docs
  | None => docs
  end.

Module Computed.

Definition tsSourceMaps (v : VirtualScripts) : list TsSourceMap :=
  if orDefault (dtsMode v) false then []
  else
    notEmpty [virtualScriptGen_sourceMap v;
              virtualScriptGen_sourceMapForSuggestion v;
              virtualScriptGen_sourceMapForTemplate v;
              virtualScriptMain_sourceMap v;
              virtualTemplateGen_sourceMap v].

Definition tsDocuments (v : VirtualScripts) : gmap string TextDocument :=
  let docs : gmap string TextDocument := ∅ in
  if orDefault (dtsMode v) false then
    setDocument (virtualScriptRaw_textDocument v) docs
  else
    let docs := setDocument (Some (virtualScriptMain_textDocument v)) docs in
    let docs := setDocument (virtualScriptGen_textDocument v) docs in
    let docs := setDocument (virtualScriptGen_textDocumentForSuggestion v) docs in
    let docs := setDocument (virtualScriptGen_textDocumentForTemplate v) docs in
    let docs := setDocument (virtualTemplateGen_textDocument v) docs in
    docs.

End Computed.

(** ** [getVueCompileErrors]

    [vueSfc.compileTemplate] reports errors in two ways, through the
    [onError] callback while it runs and in the [errors] of its result, and
    it may throw.  An error of the result is an object or a string. *)

Record CompilerError := mkCompilerError {
  err_code : option string;
  err_message : string;
  (** [err.loc], its [start.offset] and [end.offset] *)
  err_loc : option Loc;
}.

Inductive TemplateResult :=
  | Compiled (errors : list (string + CompilerError))
  | Thrown (err_code : option string) (err_message : string).

(** What [compileTemplate] does with a source: the errors it hands to
    [onError], in order, and how it ends. *)
Definition TemplateCompiler : Type := string -> list CompilerError * TemplateResult.

Module Template.

Definition diagnosticOf (doc : TextDocument) (err : CompilerError) (l : Loc) : Diagnostic :=
  {| range := {| r_start := positionAt doc (start l); r_end := positionAt doc (end_ l) |};
     message := err_message err;
     severity := Some SevError;
     code := err_code err;
     source := Some "vue";
     tags := None |}.

Definition getVueCompileErrors (compileTemplate : TemplateCompiler) (doc : TextDocument)
    : list Diagnostic :=
  let '(reported, templateResult) := compileTemplate (text doc) in
  (* onError *)
  let result :=
    fold_left (fun result err =>
      match err_loc err with
      | None => result
      | Some l => result ++ [diagnosticOf doc err l]
      end) reported [] in
  match templateResult with
  | Compiled errors =>
      fold_left (fun result err =>
        match err with
        | inl _ => result
        | inr err =>
            match err_loc err with
            | None => result
            | Some l => result ++ [diagnosticOf doc err l]
            end
        end) errors result
  | Thrown err_code err_message =>
      result ++ [ {| range := {| r_start := positionAt doc 0;
                                 r_end := positionAt doc (String.length (text doc)) |};
                     message := err_message;
                     severity := Some SevError;
                     code := err_code;
                     source := Some "vue";
                     tags := None |} ]
  end.

(** [pugErrors].  The pug document has the error of its parser, if any,
    and a source map from the html it compiles to ([mappedDocument]) to the
    pug source ([sourceDocument]).  [trimEnd] and [trim] are the methods
    of JavaScript strings; [prettyhtml] gives the formatted text, or the
    error it throws as [JSON.stringify(error, null, 2)] prints it. *)

Record PugAstError := mkPugAstError {
  ast_code : option string;
  ast_msg : string;
  ast_line : nat;
  ast_column : nat;
}.

Record PugSourceMap := mkPugSourceMap {
  pug_mappedDocument : TextDocument;
  pug_sourceDocument : TextDocument;
  pug_getSourceRange : Position -> Position -> option Range;
}.

Record PugDocument := mkPugDocument {
  pug_error : option PugAstError;
  pug_sourceMap : PugSourceMap;
}.

Record TextTools := mkTextTools {
  trimEnd : string -> string;
  trim : string -> string;
  prettyhtml : string -> string + string;
}.

(** The range of a compile error in the pug source: through a segment
    over the whole range or, failing that, from the start and the end
    point, with the white space at the end cut off. *)
Definition pugRangeOf (tools : TextTools) (sourceMap : PugSourceMap)
    (vueCompileError : Diagnostic) : option Range :=
  let range := range vueCompileError in
  match pug_getSourceRange sourceMap (r_start range) (r_end range) with
  | Some pugRange => Some pugRange
  | None =>
      match pug_getSourceRange sourceMap (r_start range) (r_start range),
            pug_getSourceRange sourceMap (r_end range) (r_end range) with
      | Some startRange, Some endRange =>
          let pugStart := r_start startRange in
          let pugEnd := r_end endRange in
          (* trim empty space *)
          let pugText :=
            getTextIn (pug_sourceDocument sourceMap)
              {| r_start := pugStart; r_end := pugEnd |} in
          let trimLength := String.length pugText - String.length (trimEnd tools pugText) in
          if negb (trimLength =? 0)%nat then
            Some {| r_start := pugStart;
                    r_end := positionAt (pug_sourceDocument sourceMap)
                               (offsetAt (pug_sourceDocument sourceMap) pugEnd - trimLength) |}
          else Some {| r_start := pugStart; r_end := pugEnd |}
      | _, _ => None
      end
  end.

(** The text added to the message of a compile error that has no place
    in the pug source. *)
Definition errorTextOf (tools : TextTools) (htmlText : string) : string :=
  let fence := "```" in
  match prettyhtml tools htmlText with
  | inl contents =>
      String LF "" +:+ fence +:+ "html" +:+ String LF "" +:+ trim tools contents
        +:+ String LF "" +:+ fence
  | inr error =>
      (String LF "" +:+ fence +:+ "html" +:+ String LF "" +:+ trim tools htmlText
         +:+ String LF "" +:+ fence)
      +:+ (String LF "" +:+ fence +:+ "json" +:+ String LF "" +:+ error
             +:+ String LF "" +:+ fence)
  end.

Definition pugErrors (tools : TextTools) (getVueCompileErrors : TextDocument -> list Diagnostic)
    (textDocument : option TextDocument) (pugDocument : option PugDocument)
    : list Diagnostic :=
  match textDocument, pugDocument with
  | Some textDocument, Some pugDoc =>
      match pug_error pugDoc with
      | Some astError =>
          [ {| range :=
                 {| r_start := {| line := ast_line astError; character := ast_column astError |};
                    r_end := {| line := ast_line astError; character := ast_column astError |} |};
               message := ast_msg astError;
               severity := None;
               code := ast_code astError;
               source := None;
               tags := None |} ]
      | None =>
          let htmlDoc := pug_mappedDocument (pug_sourceMap pugDoc) in
          fold_left (fun result vueCompileError =>
            match pugRangeOf tools (pug_sourceMap pugDoc) vueCompileError with
            | Some pugRange => result ++ [withRange vueCompileError pugRange]
            | None =>
                let htmlText := getTextIn htmlDoc (range vueCompileError) in
                result
                  ++ [ {| range :=
                            {| r_start := positionAt textDocument 0;
                               r_end := positionAt textDocument
                                          (String.length (text textDocument)) |};
                          message :=
                            message vueCompileError +:+ errorTextOf tools htmlText;
                          severity := severity vueCompileError;
                          code := code vueCompileError;
                          source := source vueCompileError;
                          tags := tags vueCompileError |} ]
            end) (getVueCompileErrors htmlDoc) []
      end
  | _, _ => []
  end.

End Template.

(** ** [useComponentCompletionData]

    [hyphenate] is the function of [@vue/shared].  The value of the
    computed [result] is a function of the state, as for the producers. *)

Record ComponentCompletion := mkComponentCompletion {
  cc_item : option CompletionItem;
  cc_bind : list CompletionItem;
  cc_on : list CompletionItem;
  cc_slot : list CompletionItem;
}.

(** [let offset = text.indexOf(searchText);
     if (offset >= 0) { offset += searchText.length; x = doComplete(doc.uri, doc.positionAt(offset)) }] *)
Definition completeAfter (ls : LanguageService) (doc : TextDocument) (searchText : string)
    : list CompletionItem :=
  match indexOf (text doc) searchText with
  | Some offset => doComplete ls (uri doc) (positionAt doc (offset + String.length searchText))
  | None => []
  end.

Definition componentCompletion (ls : LanguageService) (doc : TextDocument)
    (tag : CompletionItem) : ComponentCompletion :=
  let tagName := data_name tag in
  {| cc_item := Some tag;
     cc_bind := completeAfter ls doc ("__VLS_componentPropsBase['" +:+ tagName +:+ "']['");
     cc_on := completeAfter ls doc ("__VLS_componentEmits['" +:+ tagName +:+ "']('");
     cc_slot := completeAfter ls doc ("__VLS_components['" +:+ tagName +:+ "'].__VLS_slots['") |}.

(** The computed [result].  [positionAt] takes the -1 of a failed
    [indexOf] for the offset 0. *)
Definition componentCompletionData (hyphenate : string -> string) (T : SearchTexts)
    (w : World) : gmap string ComponentCompletion :=
  let data : gmap string ComponentCompletion := ∅ in
  match textDocument (virtualTemplateGen (sourceFile w)),
        tr_textDocument (virtualTemplateRaw w) with
  | Some doc, Some _ =>
      let d := templateScriptData (sourceFile w) in
      let data :=
        fold_left (fun data tag =>
          let entry := componentCompletion (tsLanguageService w) doc tag in
          <[hyphenate (data_name tag) := entry]> (<[data_name tag := entry]> data))
          (componentItems d ++ htmlElementItems d) data in
      let globalBind :=
        doComplete (tsLanguageService w) (uri doc)
          (positionAt doc (orDefault (indexOf (text doc) (st_GlobalAttrs T)) 0)) in
      <["*" := {| cc_item := None; cc_bind := globalBind; cc_on := []; cc_slot := [] |}]> data
  | _, _ => data
  end.

(** The function [useComponentCompletionData] returns. *)
Definition getComponentCompletionData (hyphenate : string -> string) (T : SearchTexts)
    (st : DiagState) : DiagState * gmap string ComponentCompletion :=
  let st :=
    {| world := world st;
       tsProjectVersion := getProjectVersion (tsLanguageService (world st));
       records := records st;
       templateTs := templateTs st;
       scriptTs := scriptTs st |} in
  (st, componentCompletionData hyphenate T (world st)).

(** ** The commands [HTML_TO_PUG] and [PUG_TO_HTML]

    [htmlToPug] and [pugToHtml] are the converters of [@volar/pug].  A
    handler ends without an edit, with the edit it hands to
    [connection.workspace.applyEdit], or by throwing. *)

Inductive Outcome (A : Type) :=
  | Done (a : A)
  | Throws (what : string).
Arguments Done {A} a.
Arguments Throws {A} what.

(** [document.positionAt(offset)] for an offset that may be negative: the
    document takes a negative offset for 0. *)
Definition positionAtZ (document : TextDocument) (offset : Z) : Position :=
  positionAt document (Z.to_nat offset).

(** [s.startsWith(p)] *)
Definition startsWith (s p : string) : bool := String.prefix p s.

Definition startMatch : string := "<template".

(** The loop [while (!document.getText(...).startsWith(startMatch))
    { start--; if (start < 0) throw ... }], which is the same in the two
    handlers; [None] is the throw.  [start] decreases down to 0, and
    [fuel] bounds the number of rounds. *)
Fixpoint findStart (document : TextDocument) (fuel : nat) (start : Z) : option Z :=
  if startsWith
       (getTextIn document
          {| r_start := positionAtZ document start;
             r_end := positionAtZ document (start + Z.of_nat (String.length startMatch)) |})
       startMatch
  then Some start
  else
    match fuel with
    | O => None
    | S fuel' =>
        let start := (start - 1)%Z in
        if (start <? 0)%Z then None else findStart document fuel' start
    end.

(** What the two handlers do once the new text of the template is known. *)
Definition replaceTemplate (document : TextDocument) (template : Section_)
    (newTemplate : string) : Outcome (option TextEdit) :=
  let start := (Z.of_nat (start (loc template)) - Z.of_nat (String.length "<template>"))%Z in
  let end_ := end_ (loc template) in
  match findStart document (Z.to_nat start) start with
  | None => Throws "Can't find start of tag <template>"
  | Some start =>
      Done (Some {| te_range := {| r_start := positionAtZ document start;
                                   r_end := positionAt document end_ |};
                    newText := newTemplate |})
  end.

Definition doubleQuote : string := String (ascii_of_nat 34) "".

Definition htmlToPugCommand (htmlToPug : string -> string) (ctx : CommandContext)
    (document : TextDocument) : Outcome (option TextEdit) :=
  match template (getDescriptor ctx) with
  | None => Done None
  | Some template =>
      if negb (String.eqb (lang template) "html") then Done None
      else
        let pug := htmlToPug (content template) +:+ String LF "" in
        let newTemplate :=
          "<template lang=" +:+ doubleQuote +:+ "pug" +:+ doubleQuote +:+ ">" +:+ pug in
        replaceTemplate document template newTemplate
  end.

Definition pugToHtmlCommand (pugToHtml : string -> string) (ctx : CommandContext)
    (document : TextDocument) : Outcome (option TextEdit) :=
  match template (getDescriptor ctx) with
  | None => Done None
  | Some template =>
      if negb (String.eqb (lang template) "pug") then Done None
      else
        let html := pugToHtml (content template) in
        let newTemplate := "<template>" +:+ String LF "" +:+ html in
        replaceTemplate document template newTemplate
  end.

(** ** Selection ranges

    The second [register]: the selection ranges at some positions of a
    component, from the script engine, the template services and the style
    services, each through the source maps of its kind. *)

Module SelectionRanges.

(** [SelectionRange]: a range and, optionally, the selection range that
    encloses it. *)
#[warnings="-register-all"]
Inductive SelectionRange :=
  | mkSelectionRange (range : Range) (parent : option SelectionRange).

Definition sr_range (s : SelectionRange) : Range :=
  match s with mkSelectionRange r _ => r end.

Definition sr_parent (s : SelectionRange) : option SelectionRange :=
  match s with mkSelectionRange _ p => p end.

(** What the function asks of a source map: its mapped document,
    [getMappedRanges(position)] and [getSourceRange(start, end)]. *)
Record RangeMap (D : Type) := mkRangeMap {
  mappedDocument : TextDocument;
  getMappedRanges1 : Position -> list (MappedRange D);
  getSourceRange2 : Position -> Position -> option (MappedRange D);
}.
Arguments mappedDocument {D} _.
Arguments getMappedRanges1 {D} _ _.
Arguments getSourceRange2 {D} _ _ _.

(** A source map of the template: of the html or of the pug document. *)
Record TemplateRangeMap := mkTemplateRangeMap {
  tm_map : RangeMap unit;
  tm_language : string;
  (** [sourceMap.pugDocument], an object of the pug service *)
  tm_pugDocument : nat;
}.

Record CssRangeMap := mkCssRangeMap {
  cm_map : RangeMap unit;
  cm_stylesheet : option nat;
}.

Record SourceFile := mkSourceFile {
  getTsSourceMaps : list (RangeMap TsMappingData);
  getHtmlSourceMaps : list TemplateRangeMap;
  getPugSourceMaps : list TemplateRangeMap;
  getCssSourceMaps : list CssRangeMap;
}.

Record Services := mkServices {
  (** [tsLanguageService.getSelectionRange(uri, position)] *)
  ts_getSelectionRange : string -> Position -> option SelectionRange;
  (** [languageServices.html.getSelectionRanges(document, positions)] *)
  html_getSelectionRanges : TextDocument -> list Position -> list SelectionRange;
  (** [languageServices.pug.getSelectionRanges(pugDocument, positions)] *)
  pug_getSelectionRanges : nat -> list Position -> list SelectionRange;
  (** [languageServices.getCssLanguageService(languageId)] and its
      [getSelectionRanges(document, positions, stylesheet)] *)
  css_getLanguageService :
    string -> option (TextDocument -> list Position -> nat -> list SelectionRange);
}.

(** [const vueRange = sourceMap.getSourceRange(selectRange.range.start,
    selectRange.range.end); if (vueRange) result.push({ range: vueRange })] *)
Definition pushSourceRange {D} (sourceMap : RangeMap D) (result : list SelectionRange)
    (selectRange : SelectionRange) : list SelectionRange :=
  match getSourceRange2 sourceMap (r_start (sr_range selectRange))
          (r_end (sr_range selectRange)) with
  | Some vueRange => result ++ [mkSelectionRange (asRange vueRange) None]
  | None => result
  end.

Definition getTsResult (S : Services) (positions : list Position) (sourceFile : SourceFile)
    : list SelectionRange :=
  fold_left (fun result position =>
    fold_left (fun result sourceMap =>
      fold_left (fun result tsRange =>
        if negb (basic (capabilities (data tsRange))) then result
        else
          match ts_getSelectionRange S (uri (mappedDocument sourceMap)) (m_start tsRange) with
          | Some selectRange => pushSourceRange sourceMap result selectRange
          | None => result
          end)
        (getMappedRanges1 sourceMap position) result)
      (getTsSourceMaps sourceFile) result)
    positions [].

Definition getHtmlResult (S : Services) (positions : list Position) (sourceFile : SourceFile)
    : list SelectionRange :=
  fold_left (fun result position =>
    fold_left (fun result sourceMap =>
      fold_left (fun result htmlRange =>
        let selectRanges :=
          if String.eqb (tm_language sourceMap) "html"
          then html_getSelectionRanges S (mappedDocument (tm_map sourceMap))
                 [m_start htmlRange]
          else pug_getSelectionRanges S (tm_pugDocument sourceMap) [m_start htmlRange] in
        fold_left (pushSourceRange (tm_map sourceMap)) selectRanges result)
        (getMappedRanges1 (tm_map sourceMap) position) result)
      (getHtmlSourceMaps sourceFile ++ getPugSourceMaps sourceFile) result)
    positions [].

Definition getCssResult (S : Services) (positions : list Position) (sourceFile : SourceFile)
    : list SelectionRange :=
  fold_left (fun result position =>
    fold_left (fun result sourceMap =>
      match css_getLanguageService S (languageId (mappedDocument (cm_map sourceMap))),
            cm_stylesheet sourceMap with
      | Some getSelectionRanges, Some stylesheet =>
          fold_left (fun result cssRange =>
            let selectRanges :=
              getSelectionRanges (mappedDocument (cm_map sourceMap)) [m_start cssRange]
                stylesheet in
            fold_left (pushSourceRange (cm_map sourceMap)) selectRanges result)
            (getMappedRanges1 (cm_map sourceMap) position) result
      | _, _ => result
      end)
      (getCssSourceMaps sourceFile) result)
    positions [].

(** The function [register] returns; [None] is [undefined]. *)
Definition register (sourceFiles : gmap string SourceFile) (S : Services)
    (document : TextDocument) (positions : list Position) : option (list SelectionRange) :=
  match sourceFiles !! uri document with
  | None => None
  | Some sourceFile =>
      let tsResult := getTsResult S positions sourceFile in
      let htmlResult := getHtmlResult S positions sourceFile in
      let cssResult := getCssResult S positions sourceFile in
      Some (cssResult ++ htmlResult ++ tsResult)
  end.

End SelectionRanges.

(** * Statements

    ** Remapping, as the specification describes it *)

(** A lookup counts when it found a segment with the [diagnostic]
    capability. *)
Definition capable (o : option (MappedRange TsMappingData))
    : option (MappedRange TsMappingData) :=
  match o with
  | Some m => if diagnostic (capabilities (data m)) then Some m else None
  | None => None
  end.

Definition rangeLookup (sm : TsSourceMap) (error : Diagnostic) :=
  capable (getSourceRange sm (r_start (range error)) (Some (r_end (range error)))).

Definition startLookup (sm : TsSourceMap) (error : Diagnostic) :=
  capable (getSourceRange sm (r_start (range error)) None).

Definition endLookup (sm : TsSourceMap) (error : Diagnostic) :=
  capable (getSourceRange sm (r_end (range error)) None).

(** [d] is [error] seen through a diagnostic-capable segment of [sm] that
    covers its whole range. *)
Definition remappedWhole (sm : TsSourceMap) (error d : Diagnostic) : Prop :=
  exists vueRange, rangeLookup sm error = Some vueRange
                   /\ d = withRange error (asRange vueRange).

(** [d] is [error] stitched from the point lookups of its start and end. *)
Definition remappedStitched (sm : TsSourceMap) (error d : Diagnostic) : Prop :=
  exists vueStartRange vueEndRange,
    startLookup sm error = Some vueStartRange
    /\ endLookup sm error = Some vueEndRange
    /\ d = withRange error {| r_start := m_start vueStartRange; r_end := m_start vueEndRange |}.

(** No source map of the document covers the whole range of [error] with
    a diagnostic-capable segment. *)
Definition noWholeRange (virtualScriptUri : string) (sourceMaps : list TsSourceMap)
    (error : Diagnostic) : Prop :=
  forall sm, In sm sourceMaps -> mappedDocument_uri sm = virtualScriptUri ->
             rangeLookup sm error = None.

(** The remapping of the specification, as a property of a remapping
    function [R]: the diagnostics delivered are those seen through a
    capable segment over the whole range and, for an error without one,
    those stitched from two capable point lookups; an error with neither
    is dropped. *)
Definition remapsAsSpecified
    (R : list Diagnostic -> string -> list TsSourceMap -> list Diagnostic) : Prop :=
  forall errors virtualScriptUri sourceMaps d,
    In d (R errors virtualScriptUri sourceMaps) <->
    exists error sm,
      In error errors /\ In sm sourceMaps /\ mappedDocument_uri sm = virtualScriptUri
      /\ (remappedWhole sm error d
          \/ (noWholeRange virtualScriptUri sourceMaps error /\ remappedStitched sm error d)).

(** What [toSourceDiags] does instead: any segment over the whole range,
    whatever its data, and nothing else. *)
Definition remapsWholeRangeOnly {D}
    (R : list Diagnostic -> string -> list (SourceMap D) -> list Diagnostic) : Prop :=
  forall errors virtualScriptUri sourceMaps d,
    In d (R errors virtualScriptUri sourceMaps) <->
    exists error sm vueRange,
      In error errors /\ In sm sourceMaps /\ mappedDocument_uri sm = virtualScriptUri
      /\ getSourceRange sm (r_start (range error)) (Some (r_end (range error))) = Some vueRange
      /\ d = withRange error (asRange vueRange).

(** What one source map contributes in each of the two loops. *)
Definition rangeHit (virtualScriptUri : string) (error : Diagnostic) (sm : TsSourceMap)
    : list Diagnostic :=
  if String.eqb (mappedDocument_uri sm) virtualScriptUri then
    match rangeLookup sm error with
    | Some vueRange => [withRange error (asRange vueRange)]
    | None => []
    end
  else [].

Definition pointHit (virtualScriptUri : string) (error : Diagnostic) (sm : TsSourceMap)
    : list Diagnostic :=
  if String.eqb (mappedDocument_uri sm) virtualScriptUri then
    match startLookup sm error, endLookup sm error with
    | Some s, Some e => [withRange error {| r_start := m_start s; r_end := m_start e |}]
    | _, _ => []
    end
  else [].

Definition remapOne (virtualScriptUri : string) (sourceMaps : list TsSourceMap)
    (error : Diagnostic) : list Diagnostic :=
  match flat_map (rangeHit virtualScriptUri error) sourceMaps with
  | [] => flat_map (pointHit virtualScriptUri error) sourceMaps
  | hits => hits
  end.


(** The producers that report what the script engine finds in a generated
    script: the script family and the template-script family. *)
Definition typeProducer (p : ProducerId) : bool :=
  match p with
  | StylesValidation | TemplateValidation | ScriptExistValidation => false
  | _ => true
  end.

(** ** The ignore marker *)

(** The start index of [node] when it is a comment, with both indices,
    whose text contains the marker. *)
Definition markerAt (docText : string) (node : Node) : option nat :=
  match n_type node, startIndex node, endIndex node with
  | Comment, Some startIndex, Some endIndex =>
      if includesText (js_substring startIndex (endIndex + 1) docText) "@vue-ignore"
      then Some startIndex else None
  | _, _, _ => None
  end.

(** The block that follows offset [i]: the first of [afterBlocks]. *)
Definition nextBlock (d : SFCDescriptor) (i : nat) : option BlockRef :=
  head (afterBlocks d i).

Definition nextBlockOf (docText : string) (d : SFCDescriptor) (node : Node)
    : option BlockRef :=
  match markerAt docText node with
  | Some i => nextBlock d i
  | None => None
  end.

(** Some node is a marker comment whose next block is [r]. *)
Definition taggedBy (docText : string) (d : SFCDescriptor) (nodes : list Node)
    (r : BlockRef) : bool :=
  existsb (fun node => bool_decide (nextBlockOf docText d node = Some r)) nodes.

Definition tagged (b : bool) : SFCBlock -> SFCBlock :=
  if b then setAttr "__VLS_ignore" AttrTrue else id.

(** The [ignore] field of the live section that belongs to a block. *)
Definition sectionIgnore (desc : IDescriptor) (r : BlockRef) : option bool :=
  match r with
  | RefTemplate => ignore <$> template desc
  | RefScript => sc_ignore <$> script desc
  | RefScriptSetup => ignore <$> scriptSetup desc
  | RefStyle i => st_ignore <$> styles desc !! i
  | RefCustomBlock i => cb_ignore <$> customBlocks desc !! i
  end.

(** The parsed descriptor with the markers of the top-level comments written. *)
Definition taggedDescriptor (P : Parsers) (newVueDocument : TextDocument) : SFCDescriptor :=
  tagIgnores (text newVueDocument)
    (htmlparser2_parseDocument P (text newVueDocument))
    (vueSfc_parse P (text newVueDocument)).

(** ** The cross-reference data *)

(** The five name sets of the snapshot. *)
Definition nameSets (d : ITemplateScriptData)
    : list string * list string * list string * list string * list string :=
  (context d, components d, props d, setupReturns d, htmlElements d).

(** The name sets [updateTemplateScript] recomputes from the completions
    at the five markers of the main script. *)
Definition recomputedNames (ls : LanguageService) (G : Generators) (T : SearchTexts)
    (s : SourceFile)
    : list string * list string * list string * list string * list string :=
  let doc := scriptMain_generate G (vueDoc s) (descriptor s) in
  (map data_name (completeAt ls doc (st_Context T)),
   map data_name (completeAt ls doc (st_Components T)),
   map data_name (completeAt ls doc (st_Props T)),
   map data_name (completeAt ls doc (st_SetupReturns T)),
   map data_name (completeAt ls doc (st_HtmlElements T))).

(** Two arrays of names hold the same set of names. *)
Definition sameNames (a b : list string) : Prop := forall x, In x a <-> In x b.

Definition allSameNames
    (n m : list string * list string * list string * list string * list string) : Prop :=
  let '(a1, a2, a3, a4, a5) := n in
  let '(b1, b2, b3, b4, b5) := m in
  sameNames a1 b1 /\ sameNames a2 b2 /\ sameNames a3 b3
  /\ sameNames a4 b4 /\ sameNames a5 b5.

(** ** The relocation of template-script diagnostics *)

(** [d] is the diagnostic [diag] of the generated template script, on a
    setup-returned name, moved to a definition in the generated script that
    a teleport entry which is not an additional reference leads to. *)
Definition relocated (mode : nat) (w : World) (d : Diagnostic) : Prop :=
  exists templateDoc teleport scriptDoc diag propRight definition,
    textDocument (virtualTemplateGen (sourceFile w)) = Some templateDoc
    /\ teleportSourceMap w = Some teleport
    /\ textDocument (virtualScriptGen (sourceFile w)) = Some scriptDoc
    /\ In diag (errors_1 mode w)
    /\ In (getTextIn templateDoc (range diag))
          (setupReturns (templateScriptData (sourceFile w)))
    /\ In propRight
          (getMappedRanges teleport (r_start (range diag)) (r_end (range diag)))
    /\ isAdditionalReference (data propRight) = false
    /\ In definition
          (findDefinition (tsLanguageService w) (uri templateDoc) (m_start propRight))
    /\ targetUri definition = uri scriptDoc
    /\ d = withRange diag (targetSelectionRange definition).

(** ** The diagnostics run *)

(** [all] and [keep] of a run. *)
Definition allOf (withSideEffect : bool) (st : DiagState) : list ProducerId :=
  fst (snd (schedule withSideEffect st)).

Definition keepOf (withSideEffect : bool) (st : DiagState) : list ProducerId :=
  snd (snd (schedule withSideEffect st)).

(** The two families by cost, as the run sorts them. *)
Definition sortedTemplateTs (st : DiagState) : list ProducerId :=
  sortBy (fun p => snd (records st p)) (templateTs st).

Definition sortedScriptTs (st : DiagState) : list ProducerId :=
  sortBy (fun p => snd (records st p)) (scriptTs st).

(** The arrays [templateTs] and [scriptTs] hold the records they were
    created with, in some order. *)
Definition wellFormed (st : DiagState) : Prop :=
  Permutation (templateTs st) initialTemplateTs
  /\ Permutation (scriptTs st) initialScriptTs.

Definition allProducers : list ProducerId :=
  nonTs ++ initialScriptTs ++ initialTemplateTs.

(** The producers a run evaluated, in order. *)
Definition computedOf (log : list (Event * DiagState)) : list ProducerId :=
  flat_map (fun e => match fst e with Computed p => [p] | _ => [] end) log.

(** The events of a run with a cancellation callback: a poll before every
    producer, a response after it, and nothing after a poll that resolved
    true. *)
Inductive runShape : list Event -> Prop :=
  | shape_done : runShape []
  | shape_cancelled : runShape [Polled true]
  | shape_step p diags rest :
      runShape rest ->
      runShape (Polled false :: Computed p :: Response diags :: rest).

(** The log of a run: a response happens only right after a producer was
    evaluated, in the same state, and carries the deduplicated results of
    all records of [all] and [keep] in that state, where the record of the
    producer holds what it just computed. *)
Inductive logShape (all keep : list ProducerId) : list (Event * DiagState) -> Prop :=
  | log_done : logShape all keep []
  | log_polled b st rest :
      logShape all keep rest -> logShape all keep ((Polled b, st) :: rest)
  | log_computed p st rest :
      fst (records st p) = producer p (world st) ->
      logShape all keep rest ->
      logShape all keep
        ((Computed p, st)
           :: (Response (withDiagnostics (results all keep st)), st) :: rest).

(** ** The ref-sugar round trip

    A source with the declaration [ref: x = ref(1)] in its script-setup,
    followed by usages of the variable: [x], which stands for the value, or
    [$x], which stands for the ref itself.  [pre] is the text before the
    declaration, each usage comes with the text [mid] between it and what
    precedes it, and [post] is the text after the last usage.  Without the
    sugar the declaration reads [const x = ref(ref(1))], and the usages
    [x.value] and [x]. *)

Definition declSugar : string := "ref: x = ref(1)".
Definition declPlain : string := "const x = ref(ref(1))".

Definition usageSugar (raw : bool) : string := if raw then "$x" else "x".
Definition usagePlain (raw : bool) : string := if raw then "x" else "x.value".

Fixpoint body (usage : bool -> string) (us : list (string * bool)) : string :=
  match us with
  | [] => ""
  | (mid, raw) :: us' => mid +:+ usage raw +:+ body usage us'
  end.

Definition sourceSugar (pre : string) (us : list (string * bool)) (post : string) : string :=
  pre +:+ declSugar +:+ body usageSugar us +:+ post.

Definition sourcePlain (pre : string) (us : list (string * bool)) (post : string) : string :=
  pre +:+ declPlain +:+ body usagePlain us +:+ post.

(** Where the references to the variable are: the start and end offset of
    every usage, [refLength raw] being the length of the reference. *)
Fixpoint sites (usage : bool -> string) (refLength : bool -> nat) (base : nat)
    (us : list (string * bool)) : list (nat * nat) :=
  match us with
  | [] => []
  | (mid, raw) :: us' =>
      (base + String.length mid, base + String.length mid + refLength raw)
        :: sites usage refLength (base + String.length mid + String.length (usage raw)) us'
  end.

(** What does not depend on the text of the source. *)
Record ToggleSetting := mkToggleSetting {
  ts_uri : string;
  ts_languageId : string;
  ts_version : nat;
  (** the sections of the descriptor other than script-setup *)
  ts_descriptor : IDescriptor;
  ts_lang : string;
  (** the offset at which the script-setup content starts *)
  ts_start : nat;
  (** how much of [post] belongs to the script-setup content *)
  ts_tail : nat;
  (** the generated script and the completion of [ref] in it *)
  ts_scriptDocument : TextDocument;
  ts_targetToSource : Range -> option Range;
  ts_doComplete : TextDocument -> Position -> list CompletionItem;
  ts_doCompletionResolve : CompletionItem -> CompletionItem;
  ts_Ref : string;
}.

Definition toggleDocument (S : ToggleSetting) (version : nat) (docText : string)
    : TextDocument :=
  {| uri := ts_uri S; languageId := ts_languageId S; version := version; text := docText |}.

(** The edits of the usages, by offsets: each usage [from raw] at its place
    is replaced by [to raw]. *)
Fixpoint offsetEdits (from to : bool -> string) (base : nat) (us : list (string * bool))
    : list (nat * nat * string) :=
  match us with
  | [] => []
  | (mid, raw) :: us' =>
      (base + String.length mid, base + String.length mid + String.length (from raw), to raw)
        :: offsetEdits from to (base + String.length mid + String.length (from raw)) us'
  end.

(** A reference and an edit of [document], given by offsets. *)
Definition locationAt (document : TextDocument) (r : nat * nat) : Location :=
  {| l_uri := uri document;
     l_range := {| r_start := positionAt document (fst r);
                   r_end := positionAt document (snd r) |} |}.

Definition editAt (document : TextDocument) (e : nat * nat * string) : TextEdit :=
  replaceAt document (fst (fst e)) (snd (fst e)) (snd e).

(** An edit of [document] by its offsets, as [applyEdits] reads it. *)
Definition editOffsets (document : TextDocument) (e : TextEdit) : nat * nat * string :=
  (offsetAt document (r_start (te_range e)), offsetAt document (r_end (te_range e)),
   newText e).

(** The references of the variable: its declaration and its usages. *)
Definition toggleReferences (document : TextDocument) (declStart declEnd : nat)
    (usages : list (nat * nat)) : list Location :=
  map (locationAt document) ((declStart, declEnd) :: usages).

Definition toggleContext (S : ToggleSetting) (document : TextDocument)
    (scriptSetupEnd : nat) (genData : ScriptSetupData) (refs : list Location)
    : CommandContext :=
  {| getDescriptor :=
       {| template := template (ts_descriptor S);
          script := script (ts_descriptor S);
          scriptSetup :=
            Some {| lang := ts_lang S;
                    content := js_substring (ts_start S) scriptSetupEnd (text document);
                    loc := {| start := ts_start S; end_ := scriptSetupEnd |};
                    ignore := false |};
          styles := styles (ts_descriptor S);
          customBlocks := customBlocks (ts_descriptor S) |};
     getScriptSetupData := Some genData;
     getVirtualScript_document := Some (ts_scriptDocument S);
     getVirtualScript_targetToSource := Some (ts_targetToSource S);
     findReferences := fun _ _ => Some refs;
     cmd_doComplete := ts_doComplete S;
     doCompletionResolve := ts_doCompletionResolve S;
     SearchTexts_Ref := ts_Ref S |}.

(** Modelled from the spec: the script-setup generator, which collects
    [labels] and [refCalls], and the find-references feature are not part
    of the sources at hand.  The specification says that the generator
    "records, per desugared binding, the set of usage sites needing a
    trailing accessor suffix versus a raw-sigil usage".  For the source
    with the sugar the handler is given the label [ref], its right-hand
    side [ref(1)] and the variable [x], at offsets relative to the start of
    the script-setup content, and as references of [x] its declaration and
    the usages [x] and [$x]. *)
Definition sugarDocument (S : ToggleSetting) pre us post : TextDocument :=
  toggleDocument S (ts_version S) (sourceSugar pre us post).

Definition sugarContext (S : ToggleSetting) pre us post : CommandContext :=
  let a := String.length pre - ts_start S in
  toggleContext S (sugarDocument S pre us post)
    (String.length pre + String.length declSugar
       + String.length (body usageSugar us) + ts_tail S)
    {| labels :=
         [ {| lb_label := {| start := a; end_ := a + 3 |};
              lb_right := {| lr_start := a + 9; lr_end := a + 15; isComputedCall := false |};
              lb_vars := [ {| start := a + 5; end_ := a + 6 |} ] |} ];
       refCalls := [] |}
    (toggleReferences (sugarDocument S pre us post)
       (String.length pre + 5) (String.length pre + 6)
       (sites usageSugar (fun raw => String.length (usageSugar raw))
          (String.length pre + String.length declSugar) us)).

(** Modelled from the spec: as above, for the source without the sugar.
    The declaration [const x = ref(ref(1))] is a call of [ref] with
    left-hand side [x] and argument [ref(1)], and every reference of [x] is
    the identifier alone. *)
Definition plainDocument (S : ToggleSetting) pre us post : TextDocument :=
  toggleDocument S (Datatypes.S (ts_version S)) (sourcePlain pre us post).

Definition plainContext (S : ToggleSetting) pre us post : CommandContext :=
  let a := String.length pre - ts_start S in
  toggleContext S (plainDocument S pre us post)
    (String.length pre + String.length declPlain
       + String.length (body usagePlain us) + ts_tail S)
    {| labels := [];
       refCalls :=
         [ {| rc_start := a; rc_end := a + 21;
              rc_vars := [ {| start := a + 6; end_ := a + 7 |} ];
              rc_left := {| start := a + 6; end_ := a + 7 |};
              rc_rightExpression := {| start := a + 14; end_ := a + 20 |} |} ] |}
    (toggleReferences (plainDocument S pre us post)
       (String.length pre + 6) (String.length pre + 7)
       (sites usagePlain (fun _ => 1)
          (String.length pre + String.length declPlain) us)).

(** No usage [$x] of the source is directly followed by [.value]. *)
Fixpoint noValueAfterRaw (us : list (string * bool)) (post : string) : Prop :=
  match us with
  | [] => True
  | (mid, raw) :: us' =>
      (raw = true -> substring 0 6 (body usageSugar us' +:+ post) <> ".value")
      /\ noValueAfterRaw us' post
  end.

(** The completion of [ref] offers nothing to import. *)
Definition nothingToImport (S : ToggleSetting) : Prop :=
  forall item,
    In item (ts_doComplete S (ts_scriptDocument S)
               (positionAt (ts_scriptDocument S)
                  (orDefault (indexOf (text (ts_scriptDocument S)) (ts_Ref S)) 0))) ->
    label item = "ref" ->
    data_importModule (ts_doCompletionResolve S item) = None.

(** The script-setup content starts before the declaration and ends in
    [post]. *)
Definition wellPlaced (S : ToggleSetting) (pre post : string) : Prop :=
  ts_start S <= String.length pre /\ ts_tail S <= String.length post.

(** Toggling once from the source with the sugar, and once more from the
    result. *)
Definition toggleOnce (S : ToggleSetting) pre us post : option string :=
  match switchRefSugar (sugarContext S pre us post) (sugarDocument S pre us post) with
  | Some edits => applyEdits (sugarDocument S pre us post) edits
  | None => None
  end.

Definition toggleBack (S : ToggleSetting) pre us post : option string :=
  match switchRefSugar (plainContext S pre us post) (plainDocument S pre us post) with
  | Some edits => applyEdits (plainDocument S pre us post) edits
  | None => None
  end.

(** The same, read on the source without the sugar, where the handler
    looks for [.value] after a reference. *)
Fixpoint noValueAfterPlain (us : list (string * bool)) (post : string) : Prop :=
  match us with
  | [] => True
  | (mid, raw) :: us' =>
      (raw = true -> substring 0 6 (body usagePlain us' +:+ post) <> ".value")
      /\ noValueAfterPlain us' post
  end.

(** ** Further statements

    *** Remapping *)

(** The source maps that belong to a generated document. *)
Definition mapsOf {D} (virtualScriptUri : string) (sourceMaps : list (SourceMap D))
    : list (SourceMap D) :=
  List.filter (fun sm => String.eqb (mappedDocument_uri sm) virtualScriptUri) sourceMaps.

(** Two diagnostics that differ in their range at most. *)
Definition sameButRange (d error : Diagnostic) : Prop :=
  message d = message error /\ severity d = severity error /\ code d = code error
  /\ source d = source error /\ tags d = tags error.

(** Every segment that a lookup over a whole range finds has the
    [diagnostic] capability. *)
Definition wholeRangesCapable (sourceMaps : list TsSourceMap) : Prop :=
  forall sm s e vueRange,
    In sm sourceMaps -> getSourceRange sm s (Some e) = Some vueRange ->
    diagnostic (capabilities (data vueRange)) = true.

(** *** Producers *)

(** What the style check finds in one style document: nothing when the
    document is ignored, has no language service or no stylesheet, or when
    the service gives no answer. *)
Definition validated (w : World) (d : StyleDocument) : option (list Diagnostic) :=
  if orDefault (sd_ignore d) false then None
  else
    match getCssLanguageService w (languageId (sd_textDocument d)), sd_stylesheet d with
    | Some cssLanguageService, Some stylesheet =>
        css_doValidation cssLanguageService (sd_textDocument d) stylesheet
    | _, _ => None
    end.

(** The findings of the last of [documents] with the uri [u] that has some. *)
Definition lastValidated (w : World) (u : string) (documents : list StyleDocument)
    : option (list Diagnostic) :=
  last (omap (fun d => if String.eqb (uri (sd_textDocument d)) u then validated w d else None)
          documents).

(** The world [w] with other source maps of the generated scripts. *)
Definition withTsSourceMaps (sourceMaps : list TsSourceMap) (w : World) : World :=
  {| sourceFile := sourceFile w;
     tsLanguageService := tsLanguageService w;
     tsSourceMaps := sourceMaps;
     textDocumentForSuggestion := textDocumentForSuggestion w;
     teleportSourceMap := teleportSourceMap w;
     virtualTemplateRaw := virtualTemplateRaw w;
     virtualStyles_textDocuments := virtualStyles_textDocuments w;
     virtualStyles_sourceMaps := virtualStyles_sourceMaps w;
     getCssLanguageService := getCssLanguageService w;
     getVueCompileErrors := getVueCompileErrors w;
     pugErrors := pugErrors w;
     elapsed := elapsed w |}.

(** *** The run *)

(** A list of producers in ascending order of [cost]. *)
Definition ascending (cost : ProducerId -> Z) (l : list ProducerId) : Prop :=
  StronglySorted (fun p q => (cost p <= cost q)%Z) l.

(** The producers of [l] that cost [c], in their order. *)
Definition costing (cost : ProducerId -> Z) (c : Z) (l : list ProducerId)
    : list ProducerId :=
  List.filter (fun p => (cost p =? c)%Z) l.

(** The state in which a run ends. *)
Definition finalState {K} (isCancel : option (IsCancel K)) (withSideEffect : bool)
    (k : K) (st : DiagState) : DiagState :=
  snd (snd (getDiagnostics isCancel withSideEffect k st)).

(** *** Computed values and commands *)

(** The documents [tsDocuments] may hold outside dts mode. *)
Definition generatedDocuments (v : VirtualScripts) : list (option TextDocument) :=
  [Some (virtualScriptMain_textDocument v);
   virtualScriptGen_textDocument v;
   virtualScriptGen_textDocumentForSuggestion v;
   virtualScriptGen_textDocumentForTemplate v;
   virtualTemplateGen_textDocument v].

(** The errors that have a location, each with it. *)
Definition located (errors : list CompilerError) : list (CompilerError * Loc) :=
  omap (fun err => pair err <$> err_loc err) errors.

(** The objects among the errors of a result. *)
Definition objects (errors : list (string + CompilerError)) : list CompilerError :=
  omap (fun err => match err with inl _ => None | inr e => Some e end) errors.

(** The text of a document has the opening of a template tag at [offset]. *)
Definition tagAt (docText : string) (offset : nat) : bool :=
  String.eqb (substring offset (String.length startMatch) docText) startMatch.

(** An opening tag of a template: it starts with [<template], is at least
    as long as [<template>], and no [<template] starts inside it where the
    search of the handlers looks. *)
Definition openingTag (tag : string) : bool :=
  tagAt tag 0
  && (String.length "<template>" <=? String.length tag)%nat
  && forallb (fun k => negb (tagAt tag k))
       (seq 1 (String.length tag - String.length "<template>")).

(** The tags the two handlers write. *)
Definition pugTag : string :=
  "<template lang=" +:+ doubleQuote +:+ "pug" +:+ doubleQuote +:+ ">".
Definition htmlTag : string := "<template>".

(** *** Selection ranges *)

Module SelectionSpec.
Import SelectionRanges.

(** A selection range of a service, seen through a source map. *)
Definition mappedBack {D} (sourceMap : RangeMap D) (selectRange : SelectionRange)
    : list SelectionRange :=
  match getSourceRange2 sourceMap (r_start (sr_range selectRange))
          (r_end (sr_range selectRange)) with
  | Some vueRange => [mkSelectionRange (asRange vueRange) None]
  | None => []
  end.

(** What the services say at the start of a mapped range. *)
Definition tsSelect (S : Services) (sourceMap : RangeMap TsMappingData)
    (tsRange : MappedRange TsMappingData) : list SelectionRange :=
  if basic (capabilities (data tsRange))
  then optList (ts_getSelectionRange S (uri (mappedDocument sourceMap)) (m_start tsRange))
  else [].

Definition htmlSelect (S : Services) (sourceMap : TemplateRangeMap)
    (htmlRange : MappedRange unit) : list SelectionRange :=
  if String.eqb (tm_language sourceMap) "html"
  then html_getSelectionRanges S (mappedDocument (tm_map sourceMap)) [m_start htmlRange]
  else pug_getSelectionRanges S (tm_pugDocument sourceMap) [m_start htmlRange].

Definition cssSelect (S : Services) (sourceMap : CssRangeMap)
    (cssRange : MappedRange unit) : list SelectionRange :=
  match css_getLanguageService S (languageId (mappedDocument (cm_map sourceMap))),
        cm_stylesheet sourceMap with
  | Some getSelectionRanges, Some stylesheet =>
      getSelectionRanges (mappedDocument (cm_map sourceMap)) [m_start cssRange] stylesheet
  | _, _ => []
  end.

(** The selection ranges of one kind at one position: for every source
    map and every range the position is mapped to, what the service says
    there, mapped back. *)
Definition selectionsAt {M D} (rangeMap : M -> RangeMap D)
    (select : M -> MappedRange D -> list SelectionRange) (sourceMaps : list M)
    (position : Position) : list SelectionRange :=
  flat_map (fun sourceMap =>
    flat_map (fun mapped => flat_map (mappedBack (rangeMap sourceMap)) (select sourceMap mapped))
      (getMappedRanges1 (rangeMap sourceMap) position)) sourceMaps.

Definition tsAt (S : Services) (sourceFile : SourceFile) : Position -> list SelectionRange :=
  selectionsAt id (tsSelect S) (getTsSourceMaps sourceFile).

Definition htmlAt (S : Services) (sourceFile : SourceFile) : Position -> list SelectionRange :=
  selectionsAt tm_map (htmlSelect S)
    (getHtmlSourceMaps sourceFile ++ getPugSourceMaps sourceFile).

Definition cssAt (S : Services) (sourceFile : SourceFile) : Position -> list SelectionRange :=
  selectionsAt cm_map (cssSelect S) (getCssSourceMaps sourceFile).

(** [r] is a selection range that [select] gives at the start of a range
    that one of [positions] is mapped to by one of [sourceMaps], mapped
    back through the same source map. *)
Definition selected {M D} (rangeMap : M -> RangeMap D)
    (select : M -> MappedRange D -> list SelectionRange) (sourceMaps : list M)
    (positions : list Position) (r : SelectionRange) : Prop :=
  exists position sourceMap mapped selectRange vueRange,
    In position positions /\ In sourceMap sourceMaps
    /\ In mapped (getMappedRanges1 (rangeMap sourceMap) position)
    /\ In selectRange (select sourceMap mapped)
    /\ getSourceRange2 (rangeMap sourceMap) (r_start (sr_range selectRange))
         (r_end (sr_range selectRange)) = Some vueRange
    /\ r = mkSelectionRange (asRange vueRange) None.

End SelectionSpec.

(** *** References of a ref-sugar variable *)

(** [edit] rewrites [reference], a reference in [document] that lies in
    the script-setup block and is not the declaration [_var] itself. *)
Definition rewrites (document : TextDocument) (scriptSetup : Section_) (_var : Loc)
    (reference : Location) (edit : TextEdit) : Prop :=
  let from := offsetAt document (r_start (l_range reference)) in
  let to := offsetAt document (r_end (l_range reference)) in
  l_uri reference = uri document
  /\ r_start (te_range edit) = r_start (l_range reference)
  /\ start (loc scriptSetup) <= from /\ to <= end_ (loc scriptSetup)
  /\ ~ (from = start (loc scriptSetup) + start _var
        /\ to = start (loc scriptSetup) + end_ _var).

(** The references the handler asks for: those of the variable at [_var]. *)
Definition referencesOf (ctx : CommandContext) (document : TextDocument)
    (scriptSetup : Section_) (_var : Loc) : list Location :=
  orDefault
    (findReferences ctx document
       (positionAt document (start (loc scriptSetup) + start _var))) [].

(** *** [pugErrors] *)

(** [d] reports the compile error [error] of a pug template: at its place
    in the pug source when it has one, and otherwise over the whole
    template, with more text after its message. *)
Definition reportsPugError (tools : Template.TextTools) (sourceMap : Template.PugSourceMap)
    (textDocument : TextDocument) (d error : Diagnostic) : Prop :=
  severity d = severity error /\ code d = code error
  /\ source d = source error /\ tags d = tags error
  /\ match Template.pugRangeOf tools sourceMap error with
     | Some pugRange => range d = pugRange /\ message d = message error
     | None =>
         range d = {| r_start := positionAt textDocument 0;
                      r_end := positionAt textDocument (String.length (text textDocument)) |}
         /\ String.prefix (message error) (message d) = true
     end.

(** [edit] imports [ref]: it is an additional edit of a completion
    labelled [ref] at the marker of the generated script, resolved, with a
    module to import from, seen through the source map of the script. *)
Definition importsRef (ctx : CommandContext) (scriptDocument : TextDocument)
    (targetToSource : Range -> option Range) (edit : TextEdit) : Prop :=
  let refOffset := orDefault (indexOf (text scriptDocument) (SearchTexts_Ref ctx)) 0 in
  exists item importModule additional scriptEdit,
    In item (cmd_doComplete ctx scriptDocument (positionAt scriptDocument refOffset))
    /\ label item = "ref"
    /\ data_importModule (doCompletionResolve ctx item) = Some importModule
    /\ importModule <> ""
    /\ additionalTextEdits (doCompletionResolve ctx item) = Some additional
    /\ In scriptEdit additional
    /\ targetToSource (te_range scriptEdit) = Some (te_range edit)
    /\ newText edit = newText scriptEdit.

(** *** Runs and updates together *)

(** A cancellation callback that leaves the state of the source file and
    of the records alone while it is awaited. *)
Definition passive {K} (isCancel : IsCancel K) : Prop :=
  forall k st, snd (fst (isCancel k st)) = st.

(** The log of a run without the polls. *)
Definition unpolled (log : list (Event * DiagState)) : list (Event * DiagState) :=
  List.filter (fun e => match fst e with Polled _ => false | _ => true end) log.

(** * Sample inputs *)

Module Samples.

Definition allCapabilities : TsMappingData :=
  {| capabilities :=
       {| basic := true; diagnostic := true; completion := true;
          rename := true; references := true; definitions := true |} |}.

Definition pos (l c : nat) : Position := {| line := l; character := c |}.

(** A source map that has a segment at every point, and none that
    covers a range. *)
Definition pointsOnly : TsSourceMap :=
  {| mappedDocument_uri := "file:///App.vue.css";
     getSourceRange := fun s e =>
       match e with
       | Some _ => None
       | None => Some {| m_start := s; m_end := s; data := allCapabilities |}
       end;
     getMappedRanges := fun _ _ => [] |}.

Definition cssError : Diagnostic :=
  {| range := {| r_start := pos 0 2; r_end := pos 0 7 |};
     message := "unknown property";
     severity := Some SevWarning;
     code := None;
     source := Some "css";
     tags := None |}.

End Samples.

(** A component whose script-setup declares [x] with the sugar and uses it
    as [x] and as [$x]. *)

Definition newline : string := String LF "".

Definition refCompletion (importModule : option string)
    (edits : option (list TextEdit)) : CompletionItem :=
  {| label := "ref"; data_name := "ref"; data_importModule := importModule;
     additionalTextEdits := edits |}.

Definition toggleSetting (items : list CompletionItem) : ToggleSetting :=
  {| ts_uri := "file:///App.vue";
     ts_languageId := "vue";
     ts_version := 1;
     ts_descriptor :=
       {| template := None; script := None; scriptSetup := None;
          styles := []; customBlocks := [] |};
     ts_lang := "ts";
     ts_start := 14;
     ts_tail := 2;
     ts_scriptDocument :=
       {| uri := "file:///App.vue.__VLS_script.ts"; languageId := "typescript";
          version := 1; text := "__VLS_ref" |};
     ts_targetToSource := fun _ =>
       Some {| r_start := Samples.pos 1 0; r_end := Samples.pos 1 0 |};
     ts_doComplete := fun _ _ => items;
     ts_doCompletionResolve := fun item => item;
     ts_Ref := "__VLS_ref" |}.

(** [ref] is in scope. *)
Definition refInScope : ToggleSetting := toggleSetting [refCompletion None None].

(** [ref] has to be imported. *)
Definition importLine : string := "import { ref } from 'vue'" +:+ newline.

Definition refToImport : ToggleSetting :=
  toggleSetting
    [refCompletion (Some "vue")
       (Some [ {| te_range := {| r_start := Samples.pos 0 0; r_end := Samples.pos 0 0 |};
                  newText := importLine |} ])].

Definition scriptOpen : string := "<script setup>" +:+ newline.

Definition twoUsages : list (string * bool) :=
  [ (newline +:+ "console.log(", false);
    (")" +:+ newline +:+ "console.log(", true) ].

Definition scriptClose : string := ")" +:+ newline +:+ "</script>" +:+ newline.

(** The same, with [$x.value] for the second usage. *)
Definition scriptCloseValue : string := ".value" +:+ scriptClose.

(** A component with a template, a script and a style, the marker comment
    in front of the template, and the answers of the engines for it. *)

Definition appText : string :=
  "<!-- @vue-ignore -->" +:+ newline
  +:+ "<template>{{ foo }}</template>" +:+ newline
  +:+ "<script>export default { setup() { return { foo: 1 } } }</script>" +:+ newline
  +:+ "<style>a { colr: red }</style>" +:+ newline.

Definition appDocument : TextDocument :=
  {| uri := "file:///App.vue"; languageId := "vue"; version := 1; text := appText |}.

Definition block (type content : string) (from to : nat) : SFCBlock :=
  {| b_type := type; b_content := content; b_attrs := ∅;
     b_loc_start_offset := from; b_loc_end_offset := to;
     b_lang := None; b_src := None; b_module := None; b_scoped := None |}.

Definition appParsed : SFCDescriptor :=
  {| sfc_template := Some (block "template" "{{ foo }}" 31 40);
     sfc_script :=
       Some (block "script" "export default { setup() { return { foo: 1 } } }" 60 108);
     sfc_scriptSetup := None;
     sfc_styles := [block "style" "a { colr: red }" 125 140];
     sfc_customBlocks := [] |}.

Definition appNodes : list Node :=
  [ {| n_type := Comment; startIndex := Some 0; endIndex := Some 19 |};
    {| n_type := Text; startIndex := Some 20; endIndex := Some 20 |};
    {| n_type := Tag; startIndex := Some 21; endIndex := Some 50 |};
    {| n_type := Text; startIndex := Some 51; endIndex := Some 51 |};
    {| n_type := Script; startIndex := Some 52; endIndex := Some 116 |};
    {| n_type := Text; startIndex := Some 117; endIndex := Some 117 |};
    {| n_type := Style; startIndex := Some 118; endIndex := Some 147 |};
    {| n_type := Text; startIndex := Some 148; endIndex := Some 148 |} ].

Definition appParsers : Parsers :=
  {| vueSfc_parse := fun _ => appParsed;
     htmlparser2_parseDocument := fun _ => appNodes |}.

Definition scriptUri : string := "file:///App.vue.__VLS_script.js".
Definition templateScriptUri : string := "file:///App.vue.__VLS_template.ts".
Definition mainUri : string := "file:///App.vue.ts".

(** Generators that copy the content of their section. *)
Definition appGenerators : Generators :=
  {| scriptGen_uri := scriptUri;
     scriptGen_languageId := "javascript";
     scriptGen_generate := fun _ d => sc_content <$> script d;
     templateGen_uri := templateScriptUri;
     templateGen_languageId := "typescript";
     templateGen_generate := fun _ d _ => content <$> template d;
     scriptMain_generate := fun _ _ =>
       {| uri := mainUri; languageId := "typescript"; version := 1;
          text := "__VLS_options.context; __VLS_options.setupReturns" |} |}.

Definition emptyDescriptor : IDescriptor :=
  {| template := None; script := None; scriptSetup := None;
     styles := []; customBlocks := [] |}.

Definition emptyData : ITemplateScriptData :=
  {| projectVersion := None; context := []; components := []; props := [];
     setupReturns := []; htmlElements := []; componentItems := [];
     htmlElementItems := [] |}.

(** The source file before its first [update]. *)
Definition freshSourceFile : SourceFile :=
  {| vueDoc := {| uri := "file:///App.vue"; languageId := "vue"; version := 0; text := "" |};
     descriptor := emptyDescriptor;
     lastUpdateChanged :=
       {| luc_template := false; luc_script := false; luc_scriptSetup := false |};
     templateScriptData := emptyData;
     virtualScriptGen := {| versionCounter := 0; textDocument := None |};
     virtualTemplateGen := {| versionCounter := 0; textDocument := None |} |}.

(** The source file after [update] with the component. *)
Definition appSourceFile : SourceFile :=
  fst (update appParsers appGenerators appDocument freshSourceFile).

Definition appSearchTexts : SearchTexts :=
  {| st_Context := "__VLS_options.context";
     st_Components := "__VLS_options.components";
     st_Props := "__VLS_options.props";
     st_SetupReturns := "__VLS_options.setupReturns";
     st_HtmlElements := "__VLS_options.htmlElements";
     st_GlobalAttrs := "__VLS_options.globalAttrs";
     st_Ref := "__VLS_ref" |}.

Definition named (name : string) : CompletionItem :=
  {| label := name; data_name := name; data_importModule := None;
     additionalTextEdits := None |}.

Definition diagnosticAt (l c1 c2 : nat) (msg : string)
    (t : option (list DiagnosticTag)) : Diagnostic :=
  {| range := {| r_start := Samples.pos l c1; r_end := Samples.pos l c2 |};
     message := msg; severity := Some SevError; code := None;
     source := Some "ts"; tags := t |}.

(** The script engine: [foo] is returned by [setup] and unused in the
    generated template script, where the diagnostic is at [foo] in the
    first line; its definition is in the generated script. *)
Definition appLanguageService (version : option string) : LanguageService :=
  {| getProjectVersion := version;
     noUnusedLocals := true;
     noUnusedParameters := false;
     doComplete := fun _ p =>
       if bool_decide (p = Samples.pos 0 0) then [named "foo"; named "foo"]
       else if bool_decide (p = Samples.pos 0 23) then [named "foo"]
       else [];
     doValidation := fun u kind =>
       match kind with
       | Semantic =>
           if String.eqb u templateScriptUri
           then [diagnosticAt 0 3 6 "'foo' is declared but never used" (Some [Unnecessary])]
           else [diagnosticAt 0 0 6 "cannot find name" None]
       | _ => []
       end;
     findDefinition := fun _ _ =>
       [ {| targetUri := scriptUri;
            targetRange := {| r_start := Samples.pos 0 36; r_end := Samples.pos 0 42 |};
            targetSelectionRange :=
              {| r_start := Samples.pos 0 36; r_end := Samples.pos 0 39 |} |};
         {| targetUri := mainUri;
            targetRange := {| r_start := Samples.pos 0 0; r_end := Samples.pos 0 1 |};
            targetSelectionRange :=
              {| r_start := Samples.pos 0 0; r_end := Samples.pos 0 1 |} |} ];
     getTextDocument2 := fun _ => None |}.

(** A source map of a generated script that maps a range of the first line
    to the line [l] of the component. *)
Definition lineMap (u : string) (l : nat) : TsSourceMap :=
  {| mappedDocument_uri := u;
     getSourceRange := fun s e =>
       Some {| m_start := Samples.pos l (character s);
               m_end := Samples.pos l (character (orDefault e s));
               data := Samples.allCapabilities |};
     getMappedRanges := fun _ _ => [] |}.

Definition appTeleport : TeleportSourceMap :=
  {| mappedDocument_uri := templateScriptUri;
     getSourceRange := fun _ _ => None;
     getMappedRanges := fun s e =>
       [ {| m_start := Samples.pos 9 0; m_end := Samples.pos 9 3;
            data := {| isAdditionalReference := true |} |};
         {| m_start := Samples.pos 5 0; m_end := Samples.pos 5 3;
            data := {| isAdditionalReference := false |} |} ] |}.

Definition appStyleMap : SourceMap unit :=
  {| mappedDocument_uri := "file:///App.vue.0.css";
     getSourceRange := fun s e =>
       Some {| m_start := Samples.pos 3 (7 + character s);
               m_end := Samples.pos 3 (7 + character (orDefault e s));
               data := tt |};
     getMappedRanges := fun _ _ => [] |}.

Definition appStyleDocument (ignored : option bool) : StyleDocument :=
  {| sd_textDocument :=
       {| uri := "file:///App.vue.0.css"; languageId := "css"; version := 1;
          text := "a { colr: red }" |};
     sd_stylesheet := Some 0;
     sd_ignore := ignored |}.

Definition appWorld (sf : SourceFile) : World :=
  {| sourceFile := sf;
     tsLanguageService := appLanguageService (Some "1");
     tsSourceMaps := [lineMap scriptUri 2; lineMap templateScriptUri 1];
     textDocumentForSuggestion := None;
     teleportSourceMap := Some appTeleport;
     virtualTemplateRaw :=
       {| tr_textDocument := None; tr_htmlDocument := false; tr_pugDocument := false;
          tr_htmlSourceMap := None; tr_pugSourceMap := None |};
     virtualStyles_textDocuments := [appStyleDocument None];
     virtualStyles_sourceMaps := [appStyleMap];
     getCssLanguageService := fun _ =>
       Some {| css_doValidation := fun _ _ =>
                 Some [ {| range := {| r_start := Samples.pos 0 4; r_end := Samples.pos 0 8 |};
                           message := "unknown property"; severity := Some SevWarning;
                           code := None; source := Some "css"; tags := None |} ] |};
     getVueCompileErrors := fun _ => [];
     pugErrors := [];
     elapsed := fun p => match p with ScriptValidation1 => 9%Z | _ => 1%Z end |}.

Definition appState (sf : SourceFile) : DiagState :=
  {| world := appWorld sf;
     tsProjectVersion := None;
     records := initialRecords;
     templateTs := initialTemplateTs;
     scriptTs := initialScriptTs |}.

(** The same component, its template without the marker comment. *)
Definition plainParsers : Parsers :=
  {| vueSfc_parse := fun _ => appParsed;
     htmlparser2_parseDocument := fun _ => tail appNodes |}.

Definition plainSourceFile : SourceFile :=
  fst (updateTemplateScript (appLanguageService (Some "1")) appGenerators appSearchTexts
         (fst (update plainParsers appGenerators appDocument freshSourceFile))).

(** A callback that answers true at its third call. *)
Definition cancelAtThird : IsCancel nat :=
  fun n st => (Datatypes.S n, st, (2 <=? n)%nat).

(** A component with a pug template, and the command context of a
    component that has nothing but the template [t]. *)
Definition pugComponent : TextDocument :=
  {| uri := "file:///App.vue"; languageId := "vue"; version := 1;
     text := "<!-- App -->" +:+ pugTag +:+ "div hello" +:+ "</template>" |}.

Definition templateContext (t : Section_) : CommandContext :=
  {| getDescriptor :=
       {| template := Some t; script := None; scriptSetup := None;
          styles := []; customBlocks := [] |};
     getScriptSetupData := None;
     getVirtualScript_document := None;
     getVirtualScript_targetToSource := None;
     findReferences := fun _ _ => None;
     cmd_doComplete := fun _ _ => [];
     doCompletionResolve := fun item => item;
     SearchTexts_Ref := "__VLS_ref" |}.

Definition pugTemplate : Section_ :=
  {| lang := "pug"; content := "div hello";
     loc := {| start := 33; end_ := 42 |}; ignore := false |}.

(** A component with one source map of its script, which maps every
    position to the range of the same line in the generated script, and a
    script engine that selects the word at a position. *)
Definition scriptRangeMap : SelectionRanges.RangeMap TsMappingData :=
  {| SelectionRanges.mappedDocument :=
       {| uri := "file:///App.vue.__VLS_script.ts"; languageId := "typescript";
          version := 1; text := "export default {}" |};
     SelectionRanges.getMappedRanges1 := fun position =>
       [ {| m_start := position; m_end := position; data := Samples.allCapabilities |} ];
     SelectionRanges.getSourceRange2 := fun s e =>
       Some {| m_start := Samples.pos (2 + line s) (character s);
               m_end := Samples.pos (2 + line e) (character e);
               data := Samples.allCapabilities |} |}.

Definition selectionSourceFile : SelectionRanges.SourceFile :=
  {| SelectionRanges.getTsSourceMaps := [scriptRangeMap];
     SelectionRanges.getHtmlSourceMaps := [];
     SelectionRanges.getPugSourceMaps := [];
     SelectionRanges.getCssSourceMaps := [] |}.

Definition selectionServices : SelectionRanges.Services :=
  {| SelectionRanges.ts_getSelectionRange := fun _ position =>
       Some (SelectionRanges.mkSelectionRange
               {| r_start := Samples.pos (line position) 0;
                  r_end := Samples.pos (line position) 6 |}
               (Some (SelectionRanges.mkSelectionRange
                        {| r_start := Samples.pos 0 0; r_end := Samples.pos 0 17 |} None)));
     SelectionRanges.html_getSelectionRanges := fun _ _ => [];
     SelectionRanges.pug_getSelectionRanges := fun _ _ => [];
     SelectionRanges.css_getLanguageService := fun _ => None |}.

Definition selectionSourceFiles : gmap string SelectionRanges.SourceFile :=
  {[ "file:///App.vue" := selectionSourceFile ]}.

(** The state of the sample component after its document was saved again
    unchanged. *)
Definition savedAgain : DiagState :=
  appState (fst (update appParsers appGenerators appDocument appSourceFile)).

(** * Proofs

    ** Loops that push onto an array *)

Lemma fold_left_push {A B} (step : list B -> A -> list B) (f : A -> list B) :
  (forall acc x, step acc x = acc ++ f x) ->
  forall l init, fold_left step l init = init ++ flat_map f l.
Proof.
  intros Hstep l. induction l as [|x l IH]; intros init; simpl.
  - now rewrite app_nil_r.
  - rewrite IH, Hstep. now rewrite <- app_assoc.
Qed.

(** ** Remapping *)

Lemma tsRangePass_from error virtualScriptUri sourceMaps :
  forall result found,
    fold_left (fun '(result, found) sourceMap =>
      if negb (String.eqb (mappedDocument_uri sourceMap) virtualScriptUri) then (result, found)
      else
        match getSourceRange sourceMap (r_start (range error)) (Some (r_end (range error))) with
        | None => (result, found)
        | Some vueRange =>
            if negb (diagnostic (capabilities (data vueRange))) then (result, found)
            else (result ++ [withRange error (asRange vueRange)], true)
        end) sourceMaps (result, found)
    = (result ++ flat_map (rangeHit virtualScriptUri error) sourceMaps,
       found || match flat_map (rangeHit virtualScriptUri error) sourceMaps with
                | [] => false | _ => true end).
Proof.
  induction sourceMaps as [|sm sms IH]; intros result found; simpl.
  - now rewrite app_nil_r, orb_false_r.
  - unfold rangeHit at 1 3, rangeLookup, capable.
    destruct (String.eqb (mappedDocument_uri sm) virtualScriptUri); simpl; [|apply IH].
    destruct (getSourceRange sm _ _) as [vr|]; simpl; [|apply IH].
    destruct (diagnostic (capabilities (data vr))); simpl; [|apply IH].
    rewrite IH, <- app_assoc. simpl. now rewrite orb_true_r.
Qed.

Lemma tsRangePass_spec error virtualScriptUri sourceMaps result :
  tsRangePass error virtualScriptUri sourceMaps result
  = (result ++ flat_map (rangeHit virtualScriptUri error) sourceMaps,
     match flat_map (rangeHit virtualScriptUri error) sourceMaps with
     | [] => false | _ => true end).
Proof. unfold tsRangePass. now rewrite tsRangePass_from. Qed.

Lemma tsPointPass_spec error virtualScriptUri sourceMaps result :
  tsPointPass error virtualScriptUri sourceMaps result
  = result ++ flat_map (pointHit virtualScriptUri error) sourceMaps.
Proof.
  unfold tsPointPass. apply fold_left_push. intros acc sm.
  unfold pointHit, startLookup, endLookup, capable.
  destruct (String.eqb (mappedDocument_uri sm) virtualScriptUri); simpl;
    [|now rewrite app_nil_r].
  destruct (getSourceRange sm (r_start (range error)) None) as [s|]; simpl;
    [|now rewrite app_nil_r].
  destruct (diagnostic (capabilities (data s))); simpl; [|now rewrite app_nil_r].
  destruct (getSourceRange sm (r_end (range error)) None) as [e|]; simpl;
    [|now rewrite app_nil_r].
  destruct (diagnostic (capabilities (data e))); simpl; [reflexivity|now rewrite app_nil_r].
Qed.

Lemma toTsSourceDiags_flat_map errors virtualScriptUri sourceMaps :
  toTsSourceDiags errors virtualScriptUri sourceMaps
  = flat_map (remapOne virtualScriptUri sourceMaps) errors.
Proof.
  unfold toTsSourceDiags.
  rewrite (fold_left_push _ (remapOne virtualScriptUri sourceMaps)); [reflexivity|].
  intros acc error. rewrite tsRangePass_spec. unfold remapOne.
  destruct (flat_map (rangeHit virtualScriptUri error) sourceMaps) as [|h hs] eqn:E; simpl.
  - rewrite tsPointPass_spec. now rewrite app_nil_r.
  - reflexivity.
Qed.

Lemma toSourceDiags_flat_map {D} errors virtualScriptUri (sourceMaps : list (SourceMap D)) :
  toSourceDiags errors virtualScriptUri sourceMaps
  = flat_map (fun error =>
      flat_map (fun sm =>
        if String.eqb (mappedDocument_uri sm) virtualScriptUri then
          match getSourceRange sm (r_start (range error)) (Some (r_end (range error))) with
          | Some vueRange => [withRange error (asRange vueRange)]
          | None => []
          end
        else []) sourceMaps) errors.
Proof.
  unfold toSourceDiags.
  match goal with |- _ = flat_map ?f _ => rewrite (fold_left_push _ f) end;
    [reflexivity|].
  intros acc error.
  match goal with |- _ = _ ++ flat_map ?f _ => apply (fold_left_push _ f) end.
  intros acc' sm.
  destruct (String.eqb (mappedDocument_uri sm) virtualScriptUri); simpl;
    [|now rewrite app_nil_r].
  destruct (getSourceRange sm _ _); [reflexivity|now rewrite app_nil_r].
Qed.

Lemma in_rangeHit virtualScriptUri error sm d :
  In d (rangeHit virtualScriptUri error sm)
  <-> mappedDocument_uri sm = virtualScriptUri /\ remappedWhole sm error d.
Proof.
  unfold rangeHit, remappedWhole.
  destruct (String.eqb_spec (mappedDocument_uri sm) virtualScriptUri) as [E|E].
  - destruct (rangeLookup sm error) as [vr|]; simpl.
    + split.
      * intros [<-|[]]. eauto.
      * intros [_ (vr' & [= <-] & ->)]. now left.
    + split; [intros []|]. now intros [_ (vr' & [=] & _)].
  - simpl. split; [intros []|]. now intros [? _].
Qed.

Lemma in_pointHit virtualScriptUri error sm d :
  In d (pointHit virtualScriptUri error sm)
  <-> mappedDocument_uri sm = virtualScriptUri /\ remappedStitched sm error d.
Proof.
  unfold pointHit, remappedStitched.
  destruct (String.eqb_spec (mappedDocument_uri sm) virtualScriptUri) as [E|E].
  - destruct (startLookup sm error) as [s|]; [destruct (endLookup sm error) as [e|]|]; simpl.
    + split.
      * intros [<-|[]]. eauto 6.
      * intros [_ (s' & e' & [= <-] & [= <-] & ->)]. now left.
    + split; [intros []|]. now intros [_ (s' & e' & _ & [=] & _)].
    + split; [intros []|]. now intros [_ (s' & e' & [=] & _)].
  - simpl. split; [intros []|]. now intros [? _].
Qed.

Lemma no_rangeHit virtualScriptUri sourceMaps error :
  flat_map (rangeHit virtualScriptUri error) sourceMaps = []
  <-> noWholeRange virtualScriptUri sourceMaps error.
Proof.
  unfold noWholeRange. split.
  - intros Hnil sm Hin Huri.
    destruct (rangeLookup sm error) as [vr|] eqn:E; [|reflexivity].
    assert (Hd : In (withRange error (asRange vr))
                    (flat_map (rangeHit virtualScriptUri error) sourceMaps)).
    { apply in_flat_map. exists sm. split; [assumption|].
      apply in_rangeHit. split; [assumption|]. exists vr. auto. }
    rewrite Hnil in Hd. destruct Hd.
  - intros Hno. destruct (flat_map _ _) as [|d ds] eqn:E; [reflexivity|].
    assert (Hd : In d (flat_map (rangeHit virtualScriptUri error) sourceMaps))
      by (rewrite E; now left).
    apply in_flat_map in Hd as (sm & Hin & Hd).
    apply in_rangeHit in Hd as (Huri & vr & Hvr & _).
    rewrite (Hno sm Hin Huri) in Hvr. discriminate.
Qed.

Lemma in_remapOne virtualScriptUri sourceMaps error d :
  In d (remapOne virtualScriptUri sourceMaps error) <->
  exists sm, In sm sourceMaps /\ mappedDocument_uri sm = virtualScriptUri
    /\ (remappedWhole sm error d
        \/ (noWholeRange virtualScriptUri sourceMaps error /\ remappedStitched sm error d)).
Proof.
  unfold remapOne.
  destruct (flat_map (rangeHit virtualScriptUri error) sourceMaps) as [|h hs] eqn:E.
  - pose proof (proj1 (no_rangeHit _ _ _) E) as Hno. split.
    + intros Hd. apply in_flat_map in Hd as (sm & Hin & Hd).
      apply in_pointHit in Hd as [Huri Hst]. exists sm. auto.
    + intros (sm & Hin & Huri & [(vr & Hvr & _)|[_ Hst]]).
      * rewrite (Hno sm Hin Huri) in Hvr. discriminate.
      * apply in_flat_map. exists sm. split; [assumption|]. apply in_pointHit. auto.
  - rewrite <- E. split.
    + intros Hd. apply in_flat_map in Hd as (sm & Hin & Hd).
      apply in_rangeHit in Hd as [Huri Hw]. exists sm. auto.
    + intros (sm & Hin & Huri & [Hw|[Hno _]]).
      * apply in_flat_map. exists sm. split; [assumption|]. apply in_rangeHit. auto.
      * apply no_rangeHit in Hno. rewrite Hno in E. discriminate.
Qed.

(** The type producers remap as the specification says. *)
Lemma toTsSourceDiags_remapsAsSpecified : remapsAsSpecified toTsSourceDiags.
Proof.
  intros errors virtualScriptUri sourceMaps d. rewrite toTsSourceDiags_flat_map.
  rewrite in_flat_map. split.
  - intros (error & Hin & Hd). apply in_remapOne in Hd as (sm & ? & ? & ?).
    exists error, sm. auto.
  - intros (error & sm & Hin & ? & ? & ?). exists error. split; [assumption|].
    apply in_remapOne. exists sm. auto.
Qed.

Lemma toSourceDiags_remapsWholeRangeOnly {D} : remapsWholeRangeOnly (@toSourceDiags D).
Proof.
  intros errors virtualScriptUri sourceMaps d. rewrite toSourceDiags_flat_map.
  rewrite in_flat_map. split.
  - intros (error & Hin & Hd). apply in_flat_map in Hd as (sm & Hsm & Hd).
    destruct (String.eqb_spec (mappedDocument_uri sm) virtualScriptUri) as [E|E];
      [|destruct Hd].
    destruct (getSourceRange sm _ _) as [vr|] eqn:Hvr; [|destruct Hd].
    destruct Hd as [<-|[]]. exists error, sm, vr. auto.
  - intros (error & sm & vr & Hin & Hsm & Huri & Hvr & ->).
    exists error. split; [assumption|]. apply in_flat_map. exists sm.
    split; [assumption|].
    destruct (String.eqb_spec (mappedDocument_uri sm) virtualScriptUri); [|contradiction].
    rewrite Hvr. now left.
Qed.

Lemma in_useStylesValidation documents w d :
  In d (useStylesValidation documents w) ->
  exists uri errs, In (uri, errs) (stylesErrors w (documents w))
                   /\ In d (toSourceDiags errs uri (virtualStyles_sourceMaps w)).
Proof.
  unfold useStylesValidation.
  rewrite (fold_left_push _
    (fun e : string * list Diagnostic =>
       toSourceDiags (snd e) (fst e) (virtualStyles_sourceMaps w))).
  - simpl. rewrite in_flat_map. intros ([u errs] & Hin & Hd). eauto.
  - now intros acc [u errs].
Qed.

Lemma in_typeProducer w p d :
  typeProducer p = true -> In d (producer p w) ->
  exists errors virtualScriptUri,
    In d (toTsSourceDiags errors virtualScriptUri (tsSourceMaps w)).
Proof.
  intros Hp Hd.
  destruct p; try discriminate Hp; simpl in Hd;
    unfold useTemplateScriptValidation, useScriptValidation in Hd;
    repeat match type of Hd with
      | In _ (if ?c then _ else _) => destruct c; [try destruct Hd|]
      | In _ (match ?o with Some _ => _ | None => _ end) => destruct o; [|try destruct Hd]
      | In _ (_ ++ _) => apply in_app_or in Hd as [Hd|Hd]
      | In _ (List.filter _ _) => apply filter_In in Hd as [Hd _]
      | In _ [] => destruct Hd
      end;
    eauto.
Qed.

(** C2, amended.  The diagnostics of the type producers (script family and
    template-script family) are remapped by [toTsSourceDiags], which does
    what the specification says: only diagnostic-capable segments are
    used; an error that no source map of the document covers as a whole is
    stitched from the point lookups of its start and of its end; it is
    dropped when one of the two finds no capable segment in every source
    map.  The diagnostics of style and template validation are remapped by
    [toSourceDiags]: through any segment that covers the whole range, and
    not at all otherwise. *)
Theorem remapping_of_diagnostics :
  remapsAsSpecified toTsSourceDiags
  /\ (forall w p d, typeProducer p = true -> In d (producer p w) ->
        exists error sm,
          In sm (tsSourceMaps w)
          /\ (remappedWhole sm error d \/ remappedStitched sm error d))
  /\ (forall error virtualScriptUri sourceMaps,
        (forall sm, In sm sourceMaps -> mappedDocument_uri sm = virtualScriptUri ->
           rangeLookup sm error = None
           /\ (startLookup sm error = None \/ endLookup sm error = None)) ->
        toTsSourceDiags [error] virtualScriptUri sourceMaps = [])
  /\ (forall D, remapsWholeRangeOnly (@toSourceDiags D))
  /\ (forall w d,
        In d (producer StylesValidation w) \/ In d (producer TemplateValidation w) ->
        exists error (sm : SourceMap unit) vueRange,
          getSourceRange sm (r_start (range error)) (Some (r_end (range error)))
            = Some vueRange
          /\ d = withRange error (asRange vueRange)).
Proof.
  split; [exact toTsSourceDiags_remapsAsSpecified|].
  split.
  { intros w p d Hp Hd.
    destruct (in_typeProducer w p d Hp Hd) as (errors & u & Hin).
    apply toTsSourceDiags_remapsAsSpecified in Hin
      as (error & sm & _ & Hsm & _ & [Hw|[_ Hs]]); exists error, sm; auto. }
  split.
  { intros error u sms Hnone.
    destruct (toTsSourceDiags [error] u sms) as [|d ds] eqn:E; [reflexivity|].
    assert (Hd : In d (toTsSourceDiags [error] u sms)) by (rewrite E; now left).
    apply toTsSourceDiags_remapsAsSpecified in Hd
      as (error' & sm & [<-|[]] & Hsm & Huri & Hcase).
    destruct (Hnone sm Hsm Huri) as [Hr Hp].
    destruct Hcase as [(vr & Hvr & _)|[_ (s & e & Hs & He & _)]].
    - rewrite Hr in Hvr. discriminate.
    - destruct Hp as [Hp|Hp]; [rewrite Hp in Hs|rewrite Hp in He]; discriminate. }
  split; [intros D; exact toSourceDiags_remapsWholeRangeOnly|].
  intros w d [Hd|Hd].
  - simpl in Hd. apply in_useStylesValidation in Hd as (u & errs & _ & Hd).
    apply toSourceDiags_remapsWholeRangeOnly in Hd
      as (error & sm & vr & _ & _ & _ & Hvr & ->). eauto.
  - simpl in Hd. unfold useTemplateValidation in Hd.
    destruct (ignoreTemplateCheck w); [destruct Hd|].
    destruct (tr_textDocument (virtualTemplateRaw w)); [|destruct Hd].
    apply in_app_or in Hd as [Hd|Hd];
      apply toSourceDiags_remapsWholeRangeOnly in Hd
        as (error & sm & vr & _ & _ & _ & Hvr & ->); eauto.
Qed.

(** C2 as stated fails for the remapping of style and template
    diagnostics: where the start and the end of an error are each covered
    by a capable segment and the whole range by none, [toSourceDiags]
    delivers nothing, and no stitched diagnostic. *)
Lemma toSourceDiags_not_as_specified :
  ~ remapsAsSpecified (@toSourceDiags TsMappingData).
Proof.
  intros H.
  specialize (H [Samples.cssError] "file:///App.vue.css" [Samples.pointsOnly]
                (withRange Samples.cssError
                   {| r_start := Samples.pos 0 2; r_end := Samples.pos 0 7 |})).
  destruct H as [_ H].
  assert (Hin : In (withRange Samples.cssError
                      {| r_start := Samples.pos 0 2; r_end := Samples.pos 0 7 |})
                   (toSourceDiags [Samples.cssError] "file:///App.vue.css"
                      [Samples.pointsOnly])).
  { apply H. exists Samples.cssError, Samples.pointsOnly.
    split; [now left|]. split; [now left|]. split; [reflexivity|].
    right. split.
    - intros sm [<-|[]] _. reflexivity.
    - eexists _, _. split; [reflexivity|]. split; reflexivity. }
  vm_compute in Hin. exact Hin.
Qed.

(** ** Sorting *)

Lemma sortBy_head {A} (key : A -> Z) (l : list A) :
  match sortBy key l with
  | [] => l = []
  | m :: _ => In m l /\ forall y, In y l -> (key m <= key y)%Z
  end.
Proof.
  induction l as [|x l IH]; simpl; [reflexivity|].
  destruct (sortBy key l) as [|m t]; simpl.
  - subst l. split; [now left|]. intros y [<-|[]]. lia.
  - destruct IH as [Hm Hmin].
    destruct (Z.leb_spec (key x) (key m)).
    + split; [now left|]. intros y [<-|Hy]; [lia|]. specialize (Hmin y Hy). lia.
    + split; [now right|]. intros y [<-|Hy]; [lia|]. now apply Hmin.
Qed.

(** ** The ignore marker *)

Lemma in_blocks d r : In r (blocks d) <-> is_Some (getBlock d r).
Proof.
  unfold blocks. rewrite <- list_elem_of_In, list_elem_of_filter. split; [tauto|].
  intros Hs. split; [assumption|].
  rewrite !elem_of_app, !list_elem_of_fmap.
  destruct r as [| | |i|i]; simpl in *.
  - left. apply list_elem_of_In. simpl. tauto.
  - left. apply list_elem_of_In. simpl. tauto.
  - left. apply list_elem_of_In. simpl. tauto.
  - right. left. exists i. split; [reflexivity|]. apply elem_of_seq.
    apply lookup_lt_is_Some in Hs. lia.
  - right. right. exists i. split; [reflexivity|]. apply elem_of_seq.
    apply lookup_lt_is_Some in Hs. lia.
Qed.

Lemma nextBlock_spec d i :
  match nextBlock d i with
  | Some r =>
      In r (blocks d) /\ i < startOffset d r
      /\ forall r', In r' (blocks d) -> i < startOffset d r' ->
                    startOffset d r <= startOffset d r'
  | None => forall r', In r' (blocks d) -> ~ i < startOffset d r'
  end.
Proof.
  unfold nextBlock, afterBlocks.
  pose proof (sortBy_head (fun r => Z.of_nat (startOffset d r))
                (filter (fun r => i < startOffset d r) (blocks d))) as H.
  destruct (sortBy _ _) as [|m t]; simpl.
  - intros r' Hin Hlt.
    assert (Hr : r' ∈ filter (fun r => i < startOffset d r) (blocks d)).
    { apply list_elem_of_filter. split; [assumption|now apply list_elem_of_In]. }
    rewrite H in Hr. inversion Hr.
  - destruct H as [Hm Hmin].
    apply list_elem_of_In, list_elem_of_filter in Hm as [Hlt Hm].
    apply list_elem_of_In in Hm. split; [assumption|]. split; [assumption|].
    intros r' Hin' Hlt'.
    assert (Hr : In r' (filter (fun r => i < startOffset d r) (blocks d))).
    { apply list_elem_of_In, list_elem_of_filter. split; [assumption|].
      now apply list_elem_of_In. }
    specialize (Hmin r' Hr). lia.
Qed.

Lemma getBlock_alterBlock f r d r' :
  getBlock (alterBlock f r d) r'
  = (if bool_decide (r = r') then f else id) <$> getBlock d r'.
Proof.
  case_bool_decide as E.
  - subst r'. destruct r; simpl; try reflexivity; apply list_lookup_alter_eq.
  - rewrite option_fmap_id.
    destruct r, r'; simpl; try reflexivity; try congruence;
      apply list_lookup_alter_ne; congruence.
Qed.

(** Writing the marker moves no block. *)
Lemma startOffset_alterBlock k v r d r' :
  startOffset (alterBlock (setAttr k v) r d) r' = startOffset d r'.
Proof.
  unfold startOffset. rewrite getBlock_alterBlock.
  destruct (getBlock d r'); simpl; [|reflexivity]. now case_bool_decide.
Qed.

Lemma blocks_alterBlock f r d : blocks (alterBlock f r d) = blocks d.
Proof.
  unfold blocks.
  assert (Hlen : length (sfc_styles (alterBlock f r d)) = length (sfc_styles d)
                 /\ length (sfc_customBlocks (alterBlock f r d))
                    = length (sfc_customBlocks d)).
  { destruct r; simpl; rewrite ?length_alter; auto. }
  destruct Hlen as [-> ->].
  apply list_filter_iff. intros r'. rewrite getBlock_alterBlock.
  rewrite fmap_is_Some. tauto.
Qed.

Lemma afterBlocks_alterBlock k v r d i :
  afterBlocks (alterBlock (setAttr k v) r d) i = afterBlocks d i.
Proof.
  unfold afterBlocks. rewrite blocks_alterBlock.
  rewrite (list_filter_iff _ (fun r0 => i < startOffset d r0)).
  - generalize (filter (fun r0 => i < startOffset d r0) (blocks d)). intros l.
    unfold sortBy. induction l as [|x l IH]; simpl; [reflexivity|]. rewrite IH.
    generalize (fold_right (insertBy (fun r0 => Z.of_nat (startOffset d r0))) [] l).
    intros s. induction s as [|y s IHs]; simpl; [reflexivity|].
    rewrite !startOffset_alterBlock, IHs. reflexivity.
  - intros r0. now rewrite startOffset_alterBlock.
Qed.

Lemma tagIgnore_alterBlock docText d node :
  tagIgnore docText d node
  = match nextBlockOf docText d node with
    | Some r => alterBlock (setAttr "__VLS_ignore" AttrTrue) r d
    | None => d
    end.
Proof.
  unfold tagIgnore, nextBlockOf, markerAt, nextBlock.
  destruct (n_type node); try reflexivity.
  destruct (startIndex node) as [s|]; [|reflexivity].
  destruct (endIndex node) as [e|]; [|reflexivity].
  destruct (includesText _ _); [|reflexivity].
  now destruct (afterBlocks d s).
Qed.

Lemma getBlock_tagIgnore docText d node r :
  getBlock (tagIgnore docText d node) r
  = tagged (bool_decide (nextBlockOf docText d node = Some r)) <$> getBlock d r.
Proof.
  rewrite tagIgnore_alterBlock. unfold tagged.
  destruct (nextBlockOf docText d node) as [r0|].
  - rewrite getBlock_alterBlock.
    destruct (decide (r0 = r)) as [->|Hne].
    + now rewrite !bool_decide_eq_true_2.
    + rewrite !bool_decide_eq_false_2; [reflexivity|congruence|assumption].
  - rewrite bool_decide_eq_false_2 by discriminate. now rewrite option_fmap_id.
Qed.

Lemma nextBlockOf_tagIgnore docText d node node' :
  nextBlockOf docText (tagIgnore docText d node) node' = nextBlockOf docText d node'.
Proof.
  rewrite tagIgnore_alterBlock. destruct (nextBlockOf docText d node); [|reflexivity].
  unfold nextBlockOf, nextBlock. destruct (markerAt docText node'); [|reflexivity].
  now rewrite afterBlocks_alterBlock.
Qed.

Lemma taggedBy_tagIgnore docText d node nodes r :
  taggedBy docText (tagIgnore docText d node) nodes r = taggedBy docText d nodes r.
Proof.
  unfold taggedBy. induction nodes as [|n ns IH]; simpl; [reflexivity|].
  now rewrite IH, nextBlockOf_tagIgnore.
Qed.

Lemma tagged_tagged b1 b2 blk : tagged b2 (tagged b1 blk) = tagged (b1 || b2) blk.
Proof.
  destruct b1, b2; simpl; try reflexivity.
  unfold setAttr; simpl. now rewrite insert_insert_eq.
Qed.

Lemma getBlock_tagIgnores docText nodes d r :
  getBlock (tagIgnores docText nodes d) r
  = tagged (taggedBy docText d nodes r) <$> getBlock d r.
Proof.
  unfold tagIgnores. revert d. induction nodes as [|n ns IH]; intros d; simpl.
  - now rewrite option_fmap_id.
  - rewrite IH, taggedBy_tagIgnore, getBlock_tagIgnore.
    destruct (getBlock d r) as [blk|]; simpl; [|reflexivity].
    now rewrite tagged_tagged.
Qed.

Lemma ignoreAttr_tagged b blk : ignoreAttr (tagged b blk) = ignoreAttr blk || b.
Proof.
  destruct b; simpl; [|now rewrite orb_false_r].
  unfold ignoreAttr, setAttr; simpl. rewrite lookup_insert_eq. simpl.
  now rewrite orb_true_r.
Qed.

(** ** The slot-wise merge of the style and custom blocks *)

Lemma mergeSlots_fold {A B} (newData : A -> B) (news : list A) :
  forall (done rest : list B) (j : nat),
    j = length done ->
    fold_left (fun olds '(i, x) =>
      if (i <? length olds)%nat then <[i := newData x]> olds
      else olds ++ [newData x]) (imap (fun i x => (j + i, x)) news) (done ++ rest)
    = done ++ map newData news ++ drop (length news) rest.
Proof.
  induction news as [|x news IH]; intros done rest j Hj; simpl.
  - now rewrite drop_0.
  - rewrite Nat.add_0_r.
    assert (Hstep :
      (if (j <? length (done ++ rest))%nat then <[j := newData x]> (done ++ rest)
       else (done ++ rest) ++ [newData x])
      = (done ++ [newData x]) ++ drop 1 rest).
    { rewrite length_app. destruct rest as [|y rest]; simpl.
      - rewrite Nat.add_0_r, <- Hj, Nat.ltb_irrefl. now rewrite !app_nil_r.
      - destruct (Nat.ltb_spec j (length done + S (length rest))); [|lia].
        rewrite insert_app_r_alt by lia. rewrite Hj, Nat.sub_diag. simpl.
        rewrite drop_0. now rewrite <- app_assoc. }
    rewrite Hstep.
    rewrite (imap_ext _ (fun i y => (S j + i, y))) by (intros; unfold compose; f_equal; lia).
    rewrite IH by (rewrite length_app; simpl; lia).
    rewrite <- app_assoc. simpl. now rewrite drop_drop.
Qed.

Lemma mergeSlots_map {A B} (newData : A -> B) (news : list A) (olds : list B) :
  mergeSlots newData news olds = map newData news.
Proof.
  unfold mergeSlots.
  rewrite (imap_ext pair (fun i x => (0 + i, x)) news) by reflexivity.
  pose proof (mergeSlots_fold newData news [] olds 0 eq_refl) as H.
  rewrite app_nil_l in H. rewrite H. simpl.
  rewrite <- (length_map newData news) at 1. apply take_app_length.
Qed.

(** ** The sections after [update] *)

Lemma update_descriptor P G newVueDocument s :
  let nd := taggedDescriptor P newVueDocument in
  descriptor (fst (update P G newVueDocument s))
  = {| template := fst (updateTemplate nd (template (descriptor s)));
       script := fst (updateScript nd (script (descriptor s)));
       scriptSetup := fst (updateScriptSetup nd (scriptSetup (descriptor s)));
       styles := updateStyles nd (styles (descriptor s));
       customBlocks := updateCustomBlocks nd (customBlocks (descriptor s)) |}.
Proof.
  unfold update, taggedDescriptor. simpl.
  destruct (updateTemplate _ _) as [t tc].
  destruct (updateScript _ _) as [sc scc].
  destruct (updateScriptSetup _ _) as [ss ssc]. simpl.
  now destruct (negb _).
Qed.

Lemma update_lastUpdateChanged P G newVueDocument s :
  let nd := taggedDescriptor P newVueDocument in
  lastUpdateChanged (fst (update P G newVueDocument s))
  = {| luc_template := snd (updateTemplate nd (template (descriptor s)));
       luc_script := snd (updateScript nd (script (descriptor s)));
       luc_scriptSetup := snd (updateScriptSetup nd (scriptSetup (descriptor s))) |}.
Proof.
  unfold update, taggedDescriptor. simpl.
  destruct (updateTemplate _ _) as [t tc].
  destruct (updateScript _ _) as [sc scc].
  destruct (updateScriptSetup _ _) as [ss ssc]. simpl.
  now destruct (negb _).
Qed.

Lemma sectionIgnore_update P G newVueDocument s r :
  sectionIgnore (descriptor (fst (update P G newVueDocument s))) r
  = ignoreAttr <$> getBlock (taggedDescriptor P newVueDocument) r.
Proof.
  rewrite update_descriptor. cbv zeta.
  generalize (taggedDescriptor P newVueDocument). intros nd.
  destruct r as [| | |i|i]; simpl.
  - unfold updateTemplate. destruct (sfc_template nd), (template (descriptor s)); reflexivity.
  - unfold updateScript. destruct (sfc_script nd), (script (descriptor s)); reflexivity.
  - unfold updateScriptSetup.
    destruct (sfc_scriptSetup nd), (scriptSetup (descriptor s)); reflexivity.
  - unfold updateStyles. rewrite mergeSlots_map.
    change (map styleData (sfc_styles nd)) with (styleData <$> sfc_styles nd).
    rewrite list_lookup_fmap. now destruct (sfc_styles nd !! i).
  - unfold updateCustomBlocks. rewrite mergeSlots_map.
    change (map customBlockData (sfc_customBlocks nd))
      with (customBlockData <$> sfc_customBlocks nd).
    rewrite list_lookup_fmap. now destruct (sfc_customBlocks nd !! i).
Qed.

(** C9.  A top-level comment that contains the marker tags the block that
    follows it, the one with the least start offset among the blocks that
    start after the comment, and no other block; it tags nothing when no
    block follows.  After [update], a section is ignored exactly when its
    block carried the attribute already or is the next block of some
    marker comment. *)
Theorem ignore_marker_tags_next_block :
  (forall d i,
     match nextBlock d i with
     | Some r =>
         In r (blocks d) /\ i < startOffset d r
         /\ forall r', In r' (blocks d) -> i < startOffset d r' ->
                       startOffset d r <= startOffset d r'
     | None => forall r', In r' (blocks d) -> ~ i < startOffset d r'
     end)
  /\ (forall docText d node r,
        getBlock (tagIgnore docText d node) r
        = (if bool_decide (nextBlockOf docText d node = Some r)
           then setAttr "__VLS_ignore" AttrTrue else id) <$> getBlock d r)
  /\ (forall docText nodes d r,
        getBlock (tagIgnores docText nodes d) r
        = (if taggedBy docText d nodes r
           then setAttr "__VLS_ignore" AttrTrue else id) <$> getBlock d r)
  /\ (forall P G newVueDocument s r,
        sectionIgnore (descriptor (fst (update P G newVueDocument s))) r
        = (fun b =>
             ignoreAttr b
             || taggedBy (text newVueDocument) (vueSfc_parse P (text newVueDocument))
                  (htmlparser2_parseDocument P (text newVueDocument)) r)
          <$> getBlock (vueSfc_parse P (text newVueDocument)) r).
Proof.
  split; [exact nextBlock_spec|].
  split; [exact getBlock_tagIgnore|].
  split; [exact getBlock_tagIgnores|].
  intros P G newVueDocument s r.
  rewrite sectionIgnore_update. unfold taggedDescriptor.
  rewrite getBlock_tagIgnores.
  destruct (getBlock (vueSfc_parse P (text newVueDocument)) r) as [b|]; simpl;
    [|reflexivity].
  now rewrite ignoreAttr_tagged.
Qed.

(** ** Versions of the generated documents *)

Lemma differs_true {A} `{EqDecision A} (a b : option A) : differs a b = true <-> a <> b.
Proof.
  unfold differs. rewrite negb_true_iff. apply bool_decide_eq_false.
Qed.

Lemma differs_same {A} `{EqDecision A} (a : option A) : differs a a = false.
Proof. unfold differs. now rewrite bool_decide_eq_true_2. Qed.

Lemma regenerate_same docUri docLanguageId generated g :
  generated = text <$> textDocument g ->
  regenerate docUri docLanguageId generated g = g.
Proof. intros H. unfold regenerate. now rewrite bool_decide_eq_true_2. Qed.

Lemma regenerate_text docUri docLanguageId generated g :
  text <$> textDocument (regenerate docUri docLanguageId generated g) = generated.
Proof.
  unfold regenerate. case_bool_decide as E; [now rewrite E|].
  simpl. now destruct generated.
Qed.

(** [update], with its steps named. *)
Lemma update_steps P G newVueDocument s :
  let nd := taggedDescriptor P newVueDocument in
  let s0 := readScriptGen G s in
  let s1 :=
    {| vueDoc := vueDoc s;
       descriptor :=
         {| template := fst (updateTemplate nd (template (descriptor s)));
            script := fst (updateScript nd (script (descriptor s)));
            scriptSetup := fst (updateScriptSetup nd (scriptSetup (descriptor s)));
            styles := updateStyles nd (styles (descriptor s));
            customBlocks := updateCustomBlocks nd (customBlocks (descriptor s)) |};
       lastUpdateChanged :=
         {| luc_template := snd (updateTemplate nd (template (descriptor s)));
            luc_script := snd (updateScript nd (script (descriptor s)));
            luc_scriptSetup := snd (updateScriptSetup nd (scriptSetup (descriptor s))) |};
       templateScriptData := templateScriptData s;
       virtualScriptGen := virtualScriptGen s0;
       virtualTemplateGen := virtualTemplateGen s |} in
  let s2 := virtualTemplateGen_update G s1 in
  let s3 :=
    {| vueDoc := if negb (String.eqb (text newVueDocument) (text (vueDoc s)))
                 then newVueDocument else vueDoc s;
       descriptor := descriptor s2;
       lastUpdateChanged := lastUpdateChanged s2;
       templateScriptData := templateScriptData s2;
       virtualScriptGen := virtualScriptGen s2;
       virtualTemplateGen := virtualTemplateGen s2 |} in
  let s4 := readScriptGen G s3 in
  update P G newVueDocument s
  = (s4, {| scriptUpdated := differs (fst (versions s0)) (fst (versions s4));
            templateScriptUpdated := differs (snd (versions s0)) (snd (versions s4)) |}).
Proof.
  unfold update, taggedDescriptor. simpl.
  destruct (updateTemplate _ _) as [t tc].
  destruct (updateScript _ _) as [sc scc].
  destruct (updateScriptSetup _ _) as [ss ssc]. simpl.
  now destruct (negb _).
Qed.

(** C7.  The two flags of [update] say whether the version of the
    generated script document, and of the generated template script
    document, is another after the update than before it; a generation
    that reproduces the text the document had leaves the version as it
    was, and the flag is false. *)
Theorem update_reports_version_changes :
  forall P G newVueDocument s,
    (scriptUpdated (snd (update P G newVueDocument s)) = true
     <-> fst (versions (readScriptGen G s))
         <> fst (versions (fst (update P G newVueDocument s))))
    /\ (templateScriptUpdated (snd (update P G newVueDocument s)) = true
        <-> snd (versions (readScriptGen G s))
            <> snd (versions (fst (update P G newVueDocument s))))
    /\ (scriptGen_generate G (vueDoc (fst (update P G newVueDocument s)))
          (descriptor (fst (update P G newVueDocument s)))
        = scriptGen_generate G (vueDoc s) (descriptor s) ->
        fst (versions (fst (update P G newVueDocument s)))
          = fst (versions (readScriptGen G s))
        /\ scriptUpdated (snd (update P G newVueDocument s)) = false)
    /\ (templateGen_generate G (vueDoc s)
          (descriptor (fst (update P G newVueDocument s))) (templateScriptData s)
        = text <$> textDocument (virtualTemplateGen s) ->
        snd (versions (fst (update P G newVueDocument s)))
          = snd (versions (readScriptGen G s))
        /\ templateScriptUpdated (snd (update P G newVueDocument s)) = false).
Proof.
  intros P G newVueDocument s. rewrite update_steps. cbv zeta.
  set (nd := taggedDescriptor P newVueDocument).
  cbn [fst snd scriptUpdated templateScriptUpdated].
  split; [apply differs_true|]. split; [apply differs_true|]. split.
  - cbn -[regenerate]. intros Hgen.
    rewrite Hgen.
    rewrite (regenerate_same _ _ (scriptGen_generate G (vueDoc s) (descriptor s))
               (regenerate _ _ _ (virtualScriptGen s)))
      by (now rewrite regenerate_text).
    split; [reflexivity|apply differs_same].
  - cbn -[regenerate]. intros Hgen.
    rewrite Hgen.
    rewrite (regenerate_same _ _ (text <$> textDocument (virtualTemplateGen s)))
      by reflexivity.
    split; [reflexivity|apply differs_same].
Qed.

(** ** The cross-reference data *)

Lemma eqSet_true (X Y : gset string) : eqSet X Y = true <-> X = Y.
Proof.
  unfold eqSet. split.
  - destruct (Nat.eqb_spec (size X) (size Y)) as [Hsize|]; simpl; [|discriminate].
    intros Hall. apply set_subseteq_size_eq; [|lia].
    intros x Hx. rewrite forallb_forall in Hall.
    specialize (Hall x). rewrite bool_decide_eq_true in Hall.
    apply Hall, list_elem_of_In, elem_of_elements, Hx.
  - intros ->. rewrite Nat.eqb_refl. simpl. apply forallb_forall.
    intros x Hx. apply bool_decide_eq_true.
    now apply list_elem_of_In, elem_of_elements in Hx.
Qed.

Lemma eqSet_newSet (a b : list string) :
  eqSet (newSet a) (newSet b) = true <-> sameNames a b.
Proof.
  rewrite eqSet_true. unfold newSet, sameNames. split.
  - intros H x. rewrite <- !list_elem_of_In.
    rewrite <- (elem_of_list_to_set (C := gset string) x a).
    rewrite <- (elem_of_list_to_set (C := gset string) x b). now rewrite H.
  - intros H. apply set_eq. intros x. rewrite !elem_of_list_to_set.
    rewrite !list_elem_of_In. apply H.
Qed.

(** C6.  [updateTemplateScript] returns false and leaves the name sets and
    the generated template script as they are when the project version of
    the script engine is the stored one, and also when each of the five
    recomputed name sets holds the same names as the stored one; otherwise
    it stores the recomputed name sets, regenerates the template script
    from them and returns true. *)
Theorem updateTemplateScript_changed_or_not :
  forall ls G T s,
    (projectVersion (templateScriptData s) = getProjectVersion ls ->
     updateTemplateScript ls G T s = (s, false))
    /\ (projectVersion (templateScriptData s) <> getProjectVersion ls ->
        allSameNames (recomputedNames ls G T s) (nameSets (templateScriptData s)) ->
        snd (updateTemplateScript ls G T s) = false
        /\ nameSets (templateScriptData (fst (updateTemplateScript ls G T s)))
           = nameSets (templateScriptData s)
        /\ virtualTemplateGen (fst (updateTemplateScript ls G T s))
           = virtualTemplateGen s)
    /\ (projectVersion (templateScriptData s) <> getProjectVersion ls ->
        ~ allSameNames (recomputedNames ls G T s) (nameSets (templateScriptData s)) ->
        snd (updateTemplateScript ls G T s) = true
        /\ nameSets (templateScriptData (fst (updateTemplateScript ls G T s)))
           = recomputedNames ls G T s
        /\ virtualTemplateGen (fst (updateTemplateScript ls G T s))
           = regenerate (templateGen_uri G) (templateGen_languageId G)
               (templateGen_generate G (vueDoc s) (descriptor s)
                  (templateScriptData (fst (updateTemplateScript ls G T s))))
               (virtualTemplateGen s)).
Proof.
  intros ls G T s. unfold updateTemplateScript, recomputedNames, nameSets, allSameNames.
  set (doc := scriptMain_generate G (vueDoc s) (descriptor s)).
  split; [|split].
  - intros Hv. now rewrite bool_decide_eq_true_2.
  - intros Hv (H1 & H2 & H3 & H4 & H5).
    rewrite bool_decide_eq_false_2 by assumption.
    apply eqSet_newSet in H1, H2, H3, H4, H5.
    rewrite H1, H2, H3, H4, H5. simpl. auto.
  - intros Hv Hdiff.
    rewrite bool_decide_eq_false_2 by assumption.
    match goal with
    | |- context [if ?c then _ else _] => destruct c eqn:E
    end.
    + exfalso. apply Hdiff.
      rewrite !andb_true_iff in E. destruct E as ((((E1 & E2) & E3) & E4) & E5).
      apply eqSet_newSet in E1, E2, E3, E4, E5. auto.
    + simpl. auto.
Qed.

(** ** Ignored sections *)

Lemma stylesErrors_skip w before d after :
  sd_ignore d = Some true ->
  stylesErrors w (before ++ d :: after) = stylesErrors w (before ++ after).
Proof.
  intros Hd. unfold stylesErrors. rewrite !fold_left_app. simpl.
  now rewrite Hd.
Qed.

(** ** Relocation through the teleport map *)

Lemma errors_2_flat_map mode w templateDoc teleport scriptDoc :
  textDocument (virtualTemplateGen (sourceFile w)) = Some templateDoc ->
  teleportSourceMap w = Some teleport ->
  textDocument (virtualScriptGen (sourceFile w)) = Some scriptDoc ->
  errors_2 mode w
  = flat_map (fun diag =>
      if bool_decide (getTextIn templateDoc (range diag)
                        ∈ setupReturns (templateScriptData (sourceFile w)))
      then
        flat_map (fun propRight =>
          if isAdditionalReference (data propRight) then []
          else
            flat_map (fun definition =>
              if String.eqb (targetUri definition) (uri scriptDoc)
              then [withRange diag (targetSelectionRange definition)]
              else [])
              (findDefinition (tsLanguageService w) (uri templateDoc) (m_start propRight)))
          (getMappedRanges teleport (r_start (range diag)) (r_end (range diag)))
      else []) (errors_1 mode w).
Proof.
  intros Ht Hp Hs. unfold errors_2. rewrite Ht, Hp, Hs.
  match goal with |- _ = flat_map ?f _ => rewrite (fold_left_push _ f) end;
    [reflexivity|].
  intros acc diag. case_bool_decide; simpl; [|now rewrite app_nil_r].
  match goal with |- _ = _ ++ flat_map ?f _ => apply (fold_left_push _ f) end.
  intros acc' propRight.
  destruct (isAdditionalReference (data propRight)); [now rewrite app_nil_r|].
  match goal with |- _ = _ ++ flat_map ?f _ => apply (fold_left_push _ f) end.
  intros acc'' definition.
  destruct (String.eqb _ _); simpl; [reflexivity|now rewrite app_nil_r].
Qed.

Lemma in_errors_2 mode w d : In d (errors_2 mode w) <-> relocated mode w d.
Proof.
  unfold relocated. split.
  - intros Hd.
    destruct (textDocument (virtualTemplateGen (sourceFile w))) as [templateDoc|] eqn:Ht;
      [|unfold errors_2 in Hd; rewrite Ht in Hd; destruct Hd].
    destruct (teleportSourceMap w) as [teleport|] eqn:Hp;
      [|unfold errors_2 in Hd; rewrite Ht, Hp in Hd; destruct Hd].
    destruct (textDocument (virtualScriptGen (sourceFile w))) as [scriptDoc|] eqn:Hs;
      [|unfold errors_2 in Hd; rewrite Ht, Hp, Hs in Hd; destruct Hd].
    rewrite (errors_2_flat_map mode w _ _ _ Ht Hp Hs) in Hd.
    apply in_flat_map in Hd as (diag & Hdiag & Hd).
    case_bool_decide as Hspan; [|destruct Hd].
    apply in_flat_map in Hd as (propRight & Hprop & Hd).
    destruct (isAdditionalReference (data propRight)) eqn:Hadd; [destruct Hd|].
    apply in_flat_map in Hd as (definition & Hdef & Hd).
    destruct (String.eqb_spec (targetUri definition) (uri scriptDoc)) as [Huri|];
      [|destruct Hd].
    destruct Hd as [<-|[]].
    exists templateDoc, teleport, scriptDoc, diag, propRight, definition.
    apply list_elem_of_In in Hspan. auto 12.
  - intros (templateDoc & teleport & scriptDoc & diag & propRight & definition
            & Ht & Hp & Hs & Hdiag & Hspan & Hprop & Hadd & Hdef & Huri & ->).
    rewrite (errors_2_flat_map mode w _ _ _ Ht Hp Hs).
    apply in_flat_map. exists diag. split; [assumption|].
    rewrite bool_decide_eq_true_2 by (now apply list_elem_of_In).
    apply in_flat_map. exists propRight. split; [assumption|]. rewrite Hadd.
    apply in_flat_map. exists definition. split; [assumption|].
    rewrite Huri, String.eqb_refl. now left.
Qed.


(** ** The diagnostics run *)

Lemma insertBy_perm {A} (key : A -> Z) x (l : list A) :
  Permutation (insertBy key x l) (x :: l).
Proof.
  induction l as [|y l IH]; simpl; [reflexivity|].
  destruct (key x <=? key y)%Z; [reflexivity|].
  rewrite IH. apply perm_swap.
Qed.

Lemma sortBy_perm {A} (key : A -> Z) (l : list A) : Permutation (sortBy key l) l.
Proof.
  induction l as [|x l IH]; simpl; [reflexivity|].
  now rewrite insertBy_perm, IH.
Qed.

Lemma runLoop_runShape {K} (f : IsCancel K) all keep rest :
  forall k st, runShape (map fst (fst (runLoop (Some f) all keep rest k st))).
Proof.
  induction rest as [|p rest IH]; intros k st; simpl; [constructor|].
  destruct (f k st) as [[k' st'] b]. destruct b; simpl; [constructor|].
  specialize (IH k' (setRecord p (producer p (world st'), elapsed (world st') p) st')).
  destruct (runLoop _ _ _ _ _ _) as [events final]. simpl in *.
  now constructor.
Qed.

Lemma runLoop_logShape {K} (isCancel : option (IsCancel K)) all keep rest :
  forall k st, logShape all keep (fst (runLoop isCancel all keep rest k st)).
Proof.
  induction rest as [|p rest IH]; intros k st; simpl; [constructor|].
  destruct isCancel as [f|].
  - destruct (f k st) as [[k' st'] b]. destruct b; simpl; [repeat constructor|].
    specialize (IH k' (setRecord p (producer p (world st'), elapsed (world st') p) st')).
    destruct (runLoop _ _ _ _ _ _) as [events final]. simpl in *.
    constructor. constructor; [|assumption].
    simpl. now rewrite bool_decide_eq_true_2.
  - simpl.
    specialize (IH k (setRecord p (producer p (world st), elapsed (world st) p) st)).
    destruct (runLoop _ _ _ _ _ _) as [events final]. simpl in *.
    constructor; [|assumption].
    simpl. now rewrite bool_decide_eq_true_2.
Qed.

Lemma runLoop_computed_prefix {K} (isCancel : option (IsCancel K)) all keep rest :
  forall k st, computedOf (fst (runLoop isCancel all keep rest k st)) `prefix_of` rest.
Proof.
  induction rest as [|p rest IH]; intros k st; simpl; [reflexivity|].
  destruct isCancel as [f|].
  - destruct (f k st) as [[k' st'] b]. destruct b; simpl; [apply prefix_nil|].
    specialize (IH k' (setRecord p (producer p (world st'), elapsed (world st') p) st')).
    destruct (runLoop _ _ _ _ _ _) as [events final]. simpl in *.
    now apply prefix_cons.
  - simpl.
    specialize (IH k (setRecord p (producer p (world st), elapsed (world st) p) st)).
    destruct (runLoop _ _ _ _ _ _) as [events final]. simpl in *.
    now apply prefix_cons.
Qed.

Lemma runLoop_computed_all {K} all keep rest :
  forall (k : K) st, computedOf (fst (runLoop None all keep rest k st)) = rest.
Proof.
  induction rest as [|p rest IH]; intros k st; simpl; [reflexivity|].
  specialize (IH k (setRecord p (producer p (world st), elapsed (world st) p) st)).
  destruct (runLoop _ _ _ _ _ _) as [events final]. simpl in *. now rewrite IH.
Qed.

(** Without a callback, the run writes the records of the producers it
    evaluates, and no other. *)
Lemma runLoop_untouched {K} all keep rest :
  forall (k : K) st e st_i p,
    In (e, st_i) (fst (runLoop None all keep rest k st)) ->
    ~ In p rest -> records st_i p = records st p.
Proof.
  induction rest as [|q rest IH]; intros k st e st_i p Hin Hp; simpl in Hin;
    [destruct Hin|].
  pose proof (IH k (setRecord q (producer q (world st), elapsed (world st) q) st))
    as IH'.
  destruct (runLoop _ _ _ _ _ _) as [events final]. simpl in *.
  assert (Hq : q <> p) by tauto.
  assert (Hset : records (setRecord q (producer q (world st), elapsed (world st) q) st) p
                 = records st p).
  { simpl. rewrite bool_decide_eq_false_2; [reflexivity|congruence]. }
  destruct Hin as [[= <- <-]|[[= <- <-]|Hin]]; try exact Hset.
  rewrite (IH' e st_i p Hin) by tauto. exact Hset.
Qed.

Lemma getDiagnostics_runLoop {K} (isCancel : option (IsCancel K)) withSideEffect k st :
  getDiagnostics isCancel withSideEffect k st
  = runLoop isCancel (allOf withSideEffect st) (keepOf withSideEffect st)
      (allOf withSideEffect st) k (fst (schedule withSideEffect st)).
Proof.
  unfold getDiagnostics, allOf, keepOf.
  now destruct (schedule withSideEffect st) as [st' [all keep]].
Qed.

(** C1.  With a cancellation callback, whatever it answers and whatever
    happens to the state while the run awaits it, the events of a run are
    a poll before every producer and a response after it, and the run ends
    with the first poll that resolves true: no producer is evaluated and no
    response is given after it. *)
Theorem cancellation_polled_before_each_producer :
  forall (K : Type) (isCancel : IsCancel K) withSideEffect k st,
    runShape (trace (Some isCancel) withSideEffect k st)
    /\ (forall before p after,
          trace (Some isCancel) withSideEffect k st = before ++ Computed p :: after ->
          exists before', before = before' ++ [Polled false])
    /\ (forall before after,
          trace (Some isCancel) withSideEffect k st = before ++ Polled true :: after ->
          after = []).
Proof.
  intros K isCancel withSideEffect k st. unfold trace.
  rewrite getDiagnostics_runLoop.
  pose proof (runLoop_runShape isCancel (allOf withSideEffect st)
                (keepOf withSideEffect st) (allOf withSideEffect st) k
                (fst (schedule withSideEffect st))) as Hshape.
  revert Hshape. generalize (map fst (fst (runLoop (Some isCancel) (allOf withSideEffect st)
    (keepOf withSideEffect st) (allOf withSideEffect st) k
    (fst (schedule withSideEffect st))))).
  intros t Hshape. split; [assumption|]. split.
  - induction Hshape as [| |q diags rest Hrest IH]; intros before p after Heq.
    + now destruct before.
    + destruct before as [|? [|? ?]]; discriminate.
    + destruct before as [|e1 [|e2 [|e3 before]]]; try discriminate.
      * injection Heq as -> _ _. exists []. reflexivity.
      * injection Heq as <- <- <- Heq.
        destruct (IH _ _ _ Heq) as (before' & ->).
        exists (Polled false :: Computed q :: Response diags :: before'). reflexivity.
  - induction Hshape as [| |q diags rest Hrest IH]; intros before after Heq.
    + now destruct before.
    + destruct before as [|? [|? ?]]; [now injection Heq|discriminate|discriminate].
    + destruct before as [|e1 [|e2 [|e3 before]]]; try discriminate.
      injection Heq as _ _ _ Heq. exact (IH _ _ Heq).
Qed.

(** *** Deduplication *)

Lemma withDiagnosticsFrom_in seen items d :
  In d (withDiagnosticsFrom seen items) -> In d items /\ ~ In (dedupeKey d) seen.
Proof.
  revert seen. induction items as [|x items IH]; intros seen; simpl; [tauto|].
  case_bool_decide as Hseen.
  - intros Hd. destruct (IH _ Hd). auto.
  - intros [<-|Hd].
    + split; [now left|]. now rewrite <- list_elem_of_In.
    + destruct (IH _ Hd) as [Hin Hns]. split; [now right|].
      intros Hs. apply Hns. now right.
Qed.

Lemma withDiagnosticsFrom_NoDup seen items :
  List.NoDup (map dedupeKey (withDiagnosticsFrom seen items)).
Proof.
  revert seen. induction items as [|x items IH]; intros seen; simpl; [constructor|].
  case_bool_decide as Hseen; [apply IH|].
  simpl. constructor; [|apply IH].
  intros Hin. apply in_map_iff in Hin as (d & Hkey & Hd).
  apply withDiagnosticsFrom_in in Hd as [_ Hns]. apply Hns. rewrite Hkey. now left.
Qed.

Lemma withDiagnosticsFrom_covers seen items d :
  In d items ->
  In (dedupeKey d) seen
  \/ exists d', In d' (withDiagnosticsFrom seen items) /\ dedupeKey d' = dedupeKey d.
Proof.
  revert seen. induction items as [|x items IH]; intros seen; simpl; [tauto|].
  intros [->|Hd].
  - case_bool_decide as Hseen.
    + left. now apply list_elem_of_In.
    + right. exists d. split; [now left|reflexivity].
  - case_bool_decide as Hseen; [now apply IH|].
    destruct (IH (dedupeKey x :: seen) Hd) as [[Heq|Hs]|(d' & Hd' & Hk)].
    + right. exists x. split; [now left|assumption].
    + now left.
    + right. exists d'. split; [now right|assumption].
Qed.

(** What [withDiagnostics] delivers: diagnostics of its input, one for
    every triple of range, message and severity that occurs in it. *)
Lemma withDiagnostics_spec items :
  List.NoDup (map dedupeKey (withDiagnostics items))
  /\ (forall d, In d (withDiagnostics items) -> In d items)
  /\ (forall d, In d items ->
        exists d', In d' (withDiagnostics items) /\ dedupeKey d' = dedupeKey d).
Proof.
  unfold withDiagnostics. split; [apply withDiagnosticsFrom_NoDup|]. split.
  - intros d Hd. now apply withDiagnosticsFrom_in in Hd.
  - intros d Hd. destruct (withDiagnosticsFrom_covers [] items d Hd) as [[]|H].
    exact H.
Qed.

Lemma logShape_response all keep log b st_i :
  logShape all keep log -> In (Response b, st_i) log ->
  b = withDiagnostics (results all keep st_i).
Proof.
  induction 1 as [|c st rest Hrest IH|p st rest Hp Hrest IH]; simpl.
  - tauto.
  - intros [[=]|Hin]. auto.
  - intros [[=]|[[= <- <-]|Hin]]; auto.
Qed.

(** *** The schedule *)

Lemma schedule_cases withSideEffect st :
  let changed := lastUpdateChanged (sourceFile (world st)) in
  (luc_script changed || luc_scriptSetup changed = true ->
   allOf withSideEffect st
   = nonTs ++ sortedScriptTs st ++ (if withSideEffect then sortedTemplateTs st else [])
   /\ keepOf withSideEffect st = (if withSideEffect then [] else sortedTemplateTs st))
  /\ (luc_script changed || luc_scriptSetup changed = false ->
      luc_template changed = true ->
      allOf withSideEffect st
      = nonTs ++ sortedTemplateTs st ++ (if withSideEffect then sortedScriptTs st else [])
      /\ keepOf withSideEffect st = (if withSideEffect then [] else sortedScriptTs st))
  /\ (luc_script changed || luc_scriptSetup changed = false ->
      luc_template changed = false ->
      allOf withSideEffect st
      = nonTs ++ (if withSideEffect then sortedScriptTs st ++ sortedTemplateTs st else [])
      /\ keepOf withSideEffect st
         = (if withSideEffect then [] else sortedScriptTs st ++ sortedTemplateTs st)).
Proof.
  unfold allOf, keepOf, schedule, sortedScriptTs, sortedTemplateTs. cbv zeta.
  destruct (luc_script (lastUpdateChanged (sourceFile (world st)))),
    (luc_scriptSetup (lastUpdateChanged (sourceFile (world st)))),
    (luc_template (lastUpdateChanged (sourceFile (world st)))), withSideEffect;
    simpl; rewrite ?app_nil_r; repeat split; intros; try discriminate; reflexivity.
Qed.

Lemma schedule_records withSideEffect st :
  records (fst (schedule withSideEffect st)) = records st.
Proof.
  unfold schedule. cbv zeta.
  destruct (luc_script (lastUpdateChanged (sourceFile (world st)))),
    (luc_scriptSetup (lastUpdateChanged (sourceFile (world st)))),
    (luc_template (lastUpdateChanged (sourceFile (world st)))), withSideEffect;
    reflexivity.
Qed.

Lemma in_family st p :
  wellFormed st ->
  (In p (sortedTemplateTs st) <-> In p initialTemplateTs)
  /\ (In p (sortedScriptTs st) <-> In p initialScriptTs).
Proof.
  intros [Ht Hs]. unfold sortedTemplateTs, sortedScriptTs. split.
  - split; intros H.
    + eapply Permutation_in; [exact Ht|]. eapply Permutation_in; [apply sortBy_perm|exact H].
    + eapply Permutation_in; [symmetry; apply sortBy_perm|].
      eapply Permutation_in; [symmetry; exact Ht|exact H].
  - split; intros H.
    + eapply Permutation_in; [exact Hs|]. eapply Permutation_in; [apply sortBy_perm|exact H].
    + eapply Permutation_in; [symmetry; apply sortBy_perm|].
      eapply Permutation_in; [symmetry; exact Hs|exact H].
Qed.

Lemma keep_not_in_all withSideEffect st p :
  wellFormed st -> In p (keepOf withSideEffect st) -> ~ In p (allOf withSideEffect st).
Proof.
  intros Hwf.
  destruct (in_family st p Hwf) as [Ht Hs].
  destruct (schedule_cases withSideEffect st) as (H1 & H2 & H3).
  destruct (luc_script (lastUpdateChanged (sourceFile (world st))) || luc_scriptSetup (lastUpdateChanged (sourceFile (world st)))) eqn:E1.
  - destruct (H1 eq_refl) as [-> ->]. destruct withSideEffect; [intros []|].
    rewrite app_nil_r, in_app_iff, Ht, Hs.
    destruct p; simpl; intuition discriminate.
  - destruct (luc_template (lastUpdateChanged (sourceFile (world st)))) eqn:E2.
    + destruct (H2 eq_refl eq_refl) as [-> ->]. destruct withSideEffect; [intros []|].
      rewrite app_nil_r, in_app_iff, Ht, Hs.
      destruct p; simpl; intuition discriminate.
    + destruct (H3 eq_refl eq_refl) as [-> ->]. destruct withSideEffect; [intros []|].
      rewrite app_nil_r, in_app_iff, Ht, Hs.
      destruct p; simpl; intuition discriminate.
Qed.

Lemma all_keep_allProducers withSideEffect st :
  wellFormed st ->
  Permutation (allOf withSideEffect st ++ keepOf withSideEffect st) allProducers.
Proof.
  intros Hwf.
  assert (HT : Permutation (sortedTemplateTs st) initialTemplateTs).
  { unfold sortedTemplateTs. rewrite sortBy_perm. apply Hwf. }
  assert (HS : Permutation (sortedScriptTs st) initialScriptTs).
  { unfold sortedScriptTs. rewrite sortBy_perm. apply Hwf. }
  destruct (schedule_cases withSideEffect st) as (H1 & H2 & H3).
  unfold allProducers.
  destruct (luc_script (lastUpdateChanged (sourceFile (world st))) || luc_scriptSetup (lastUpdateChanged (sourceFile (world st)))) eqn:E1.
  - destruct (H1 eq_refl) as [-> ->].
    destruct withSideEffect; rewrite ?app_nil_r, <- ?app_assoc, HT, HS; reflexivity.
  - destruct (luc_template (lastUpdateChanged (sourceFile (world st)))) eqn:E2.
    + destruct (H2 eq_refl eq_refl) as [-> ->].
      destruct withSideEffect; rewrite ?app_nil_r, <- ?app_assoc, HT, HS;
        apply Permutation_app_head, Permutation_app_comm.
    + destruct (H3 eq_refl eq_refl) as [-> ->].
      destruct withSideEffect; rewrite ?app_nil_r, <- ?app_assoc, HT, HS; reflexivity.
Qed.

(** C3.  A run starts with the three always-run producers, in the order
    style validation, template validation, script-block-missing validation.
    When the last update changed the script or the script-setup the script
    family comes next and the template-script family after it; when it
    changed the template only, the template-script family comes first; when
    it changed none of the three, the script family comes first.  Without
    side-effect producers the family that was not triggered is held: a held
    producer is not evaluated in the run, its record stays what it was, and
    what the record holds is part of every response. *)
Theorem scheduling_of_producers :
  forall withSideEffect st,
    let changed := lastUpdateChanged (sourceFile (world st)) in
    (luc_script changed || luc_scriptSetup changed = true ->
     allOf withSideEffect st
     = [StylesValidation; TemplateValidation; ScriptExistValidation]
         ++ sortedScriptTs st ++ (if withSideEffect then sortedTemplateTs st else [])
     /\ keepOf withSideEffect st = (if withSideEffect then [] else sortedTemplateTs st))
    /\ (luc_script changed || luc_scriptSetup changed = false ->
        luc_template changed = true ->
        allOf withSideEffect st
        = [StylesValidation; TemplateValidation; ScriptExistValidation]
            ++ sortedTemplateTs st ++ (if withSideEffect then sortedScriptTs st else [])
        /\ keepOf withSideEffect st = (if withSideEffect then [] else sortedScriptTs st))
    /\ (luc_script changed || luc_scriptSetup changed = false ->
        luc_template changed = false ->
        allOf withSideEffect st
        = [StylesValidation; TemplateValidation; ScriptExistValidation]
            ++ (if withSideEffect then sortedScriptTs st ++ sortedTemplateTs st else [])
        /\ keepOf withSideEffect st
           = (if withSideEffect then [] else sortedScriptTs st ++ sortedTemplateTs st))
    /\ (wellFormed st ->
        forall p,
          (In p (sortedScriptTs st) <->
           In p [ScriptValidation1; ScriptValidation2; ScriptValidation3;
                 ScriptUnusedValidation])
          /\ (In p (sortedTemplateTs st) <->
              In p [TemplateScriptValidation1; TemplateScriptValidation2;
                    TemplateScriptValidation3]))
    /\ (forall K (isCancel : option (IsCancel K)) k,
          computedOf (fst (getDiagnostics isCancel withSideEffect k st))
            `prefix_of` allOf withSideEffect st)
    /\ (forall K (k : K),
          computedOf (fst (getDiagnostics None withSideEffect k st))
          = allOf withSideEffect st)
    /\ (wellFormed st ->
        forall p, In p (keepOf withSideEffect st) ->
          ~ In p (allOf withSideEffect st)
          /\ (forall K (isCancel : option (IsCancel K)) k,
                ~ In p (computedOf (fst (getDiagnostics isCancel withSideEffect k st))))
          /\ (forall K (k : K) e st_i,
                In (e, st_i) (fst (getDiagnostics None withSideEffect k st)) ->
                records st_i p = records st p))
    /\ (forall K (isCancel : option (IsCancel K)) k diags st_i p d,
          In (Response diags, st_i) (fst (getDiagnostics isCancel withSideEffect k st)) ->
          In p (keepOf withSideEffect st) ->
          In d (fst (records st_i p)) ->
          exists d', In d' diags /\ dedupeKey d' = dedupeKey d).
Proof.
  intros withSideEffect st changed.
  destruct (schedule_cases withSideEffect st) as (H1 & H2 & H3).
  split; [exact H1|]. split; [exact H2|]. split; [exact H3|]. split.
  { intros Hwf p. destruct (in_family st p Hwf). tauto. }
  split.
  { intros K isCancel k. rewrite getDiagnostics_runLoop. apply runLoop_computed_prefix. }
  split.
  { intros K k. rewrite getDiagnostics_runLoop. apply runLoop_computed_all. }
  split.
  { intros Hwf p Hkeep.
    pose proof (keep_not_in_all withSideEffect st p Hwf Hkeep) as Hnot.
    split; [assumption|]. split.
    - intros K isCancel k Hc. apply Hnot.
      rewrite getDiagnostics_runLoop in Hc.
      destruct (runLoop_computed_prefix isCancel (allOf withSideEffect st)
                  (keepOf withSideEffect st) (allOf withSideEffect st) k
                  (fst (schedule withSideEffect st))) as [more Hmore].
      rewrite Hmore. apply in_app_iff. now left.
    - intros K k e st_i Hin. rewrite getDiagnostics_runLoop in Hin.
      rewrite (runLoop_untouched _ _ _ _ _ _ _ _ Hin Hnot).
      now rewrite schedule_records. }
  intros K isCancel k diags st_i p d Hin Hkeep Hd.
  rewrite getDiagnostics_runLoop in Hin.
  rewrite (logShape_response _ _ _ _ _ (runLoop_logShape _ _ _ _ _ _) Hin).
  apply withDiagnostics_spec. unfold results.
  apply in_concat. exists (fst (records st_i p)). split; [|assumption].
  apply in_map_iff. exists p. split; [reflexivity|]. apply in_app_iff. now right.
Qed.


(** ** Ignored sections in a run *)

Lemma logShape_computed all keep log p st_i :
  logShape all keep log -> In (Computed p, st_i) log ->
  fst (records st_i p) = producer p (world st_i).
Proof.
  induction 1 as [|c st rest Hrest IH|q st rest Hq Hrest IH]; simpl.
  - tauto.
  - intros [[=]|Hin]. auto.
  - intros [[= <- <-]|[[=]|Hin]]; auto.
Qed.


(** ** Strings and positions *)

Lemma append_cons (ch : ascii) (a b : string) :
  String ch a +:+ b = String ch (a +:+ b).
Proof. reflexivity. Qed.

Lemma append_nil_l (b : string) : "" +:+ b = b.
Proof. reflexivity. Qed.

Lemma append_assoc (a b c : string) : (a +:+ b) +:+ c = a +:+ (b +:+ c).
Proof.
  induction a as [|ch a IH]; [reflexivity|]. rewrite !append_cons. now rewrite IH.
Qed.

Lemma append_nil_r (a : string) : a +:+ "" = a.
Proof.
  induction a as [|ch a IH]; [reflexivity|]. rewrite append_cons. now rewrite IH.
Qed.

Lemma length_append (a b : string) :
  String.length (a +:+ b) = String.length a + String.length b.
Proof.
  induction a as [|ch a IH]; [reflexivity|]. rewrite append_cons. simpl. now rewrite IH.
Qed.

Lemma substring_app_skip (a b : string) (n m : nat) :
  substring (String.length a + n) m (a +:+ b) = substring n m b.
Proof.
  induction a as [|ch a IH]; [reflexivity|]. rewrite append_cons. simpl. exact IH.
Qed.

Lemma substring_app_take (a b : string) (m : nat) :
  substring 0 (String.length a + m) (a +:+ b) = a +:+ substring 0 m b.
Proof.
  induction a as [|ch a IH]; [reflexivity|]. rewrite !append_cons. simpl.
  now rewrite IH.
Qed.

Lemma substring_none (n : nat) (s : string) : substring n 0 s = "".
Proof.
  revert s. induction n as [|n IH]; intros [|ch s]; simpl; try reflexivity. apply IH.
Qed.

Lemma substring_whole (s : string) : substring 0 (String.length s) s = s.
Proof. induction s as [|ch s IH]; simpl; [reflexivity|]. now rewrite IH. Qed.

Lemma substring_app_exact (a b : string) : substring 0 (String.length a) (a +:+ b) = a.
Proof.
  rewrite <- (Nat.add_0_r (String.length a)), substring_app_take, substring_none.
  apply append_nil_r.
Qed.

(** [offsetAt] undoes [positionAt] on the offsets of the document. *)
Lemma lineAt_spec (rest : list nat) :
  forall lineOffset offset l lo,
    lineOffset <= offset ->
    lineAt lineOffset rest offset = (l, lo) ->
    (lineOffset :: rest) !! l = Some lo
    /\ lo <= offset
    /\ (forall next, (lineOffset :: rest) !! Datatypes.S l = Some next -> offset < next).
Proof.
  induction rest as [|next rest IH]; intros lineOffset offset l lo Hle; simpl.
  - intros [= <- <-]. split; [reflexivity|]. split; [assumption|]. intros n [=].
  - destruct (Nat.leb_spec next offset) as [Hn|Hn].
    + destruct (lineAt next rest offset) as [l' lo'] eqn:E. intros [= <- <-].
      destruct (IH next offset l' lo' Hn E) as (H1 & H2 & H3). auto.
    + intros [= <- <-]. split; [reflexivity|]. split; [assumption|].
      intros n [= <-]. assumption.
Qed.

Lemma offsetAt_positionAt (doc : TextDocument) (offset : nat) :
  offset <= String.length (text doc) ->
  offsetAt doc (positionAt doc offset) = offset.
Proof.
  intros Hle. unfold positionAt, offsetAt, getLineOffsets.
  rewrite Nat.min_l by assumption.
  destruct (lineAt 0 (computeLineOffsets 0 (text doc)) offset) as [l lo] eqn:E.
  destruct (lineAt_spec _ 0 offset l lo (Nat.le_0_l _) E) as (H1 & H2 & H3).
  simpl line. simpl character. rewrite H1.
  destruct ((0 :: computeLineOffsets 0 (text doc)) !! Datatypes.S l) as [next|] eqn:En.
  - specialize (H3 next eq_refl). lia.
  - lia.
Qed.

(** Sorting what is in order already. *)
Lemma insertBy_least {A} (key : A -> Z) (x : A) (l : list A) :
  (forall y, In y l -> (key x <= key y)%Z) -> insertBy key x l = x :: l.
Proof.
  destruct l as [|y l]; simpl; [reflexivity|]. intros H.
  destruct (Z.leb_spec (key x) (key y)); [reflexivity|].
  specialize (H y (or_introl eq_refl)). lia.
Qed.

Lemma sortBy_cons_least {A} (key : A -> Z) (x : A) (l : list A) :
  (forall y, In y l -> (key x <= key y)%Z) ->
  sortBy key (x :: l) = x :: sortBy key l.
Proof.
  intros H. simpl. apply insertBy_least. intros y Hy. apply H.
  eapply Permutation_in; [apply sortBy_perm|exact Hy].
Qed.

(** ** The ref-sugar round trip *)

Lemma body_cons usage mid raw us :
  body usage ((mid, raw) :: us) = mid +:+ usage raw +:+ body usage us.
Proof. reflexivity. Qed.

Lemma offsetEdits_bounds from to us :
  forall base e, In e (offsetEdits from to base us) ->
    base <= fst (fst e) /\ fst (fst e) <= snd (fst e)
    /\ snd (fst e) <= base + String.length (body from us).
Proof.
  induction us as [|[mid raw] us IH]; intros base e; simpl; [tauto|].
  rewrite !length_append. intros [<-|Hin]; simpl; [lia|].
  specialize (IH _ _ Hin). lia.
Qed.

Lemma sortBy_offsetEdits from to us :
  forall base,
    sortBy (fun e : nat * nat * string => Z.of_nat (fst (fst e))) (offsetEdits from to base us)
    = offsetEdits from to base us.
Proof.
  induction us as [|[mid raw] us IH]; intros base; [reflexivity|].
  cbn [offsetEdits]. rewrite sortBy_cons_least.
  - now rewrite IH.
  - intros y Hy. apply offsetEdits_bounds in Hy. simpl. lia.
Qed.

(** Applying the edits of the usages to the rest of a text. *)
Lemma applySorted_usages from to us :
  forall docText done rest,
    docText = done +:+ body from us +:+ rest ->
    applySorted docText (String.length done) (offsetEdits from to (String.length done) us)
    = Some (body to us +:+ rest).
Proof.
  induction us as [|[mid raw] us IH]; intros docText done rest Htext.
  - simpl. subst docText. rewrite append_nil_l, length_append.
    replace (String.length done + String.length rest - String.length done)
      with (String.length rest) by lia.
    rewrite <- (Nat.add_0_r (String.length done)) at 1.
    rewrite substring_app_skip. now rewrite substring_whole.
  - cbn [offsetEdits applySorted].
    destruct (Nat.ltb_spec (String.length done + String.length mid) (String.length done));
      [lia|].
    specialize (IH docText (done +:+ mid +:+ from raw) rest).
    rewrite !length_append, Nat.add_assoc in IH.
    rewrite IH.
    + f_equal. rewrite body_cons, !append_assoc. f_equal.
      subst docText. rewrite body_cons.
      replace (String.length done + String.length mid - String.length done)
        with (String.length mid) by lia.
      rewrite <- (Nat.add_0_r (String.length done)).
      rewrite substring_app_skip, !append_assoc. apply substring_app_exact.
    + subst docText. now rewrite body_cons, !append_assoc.
Qed.

Lemma editOffsets_editAt document e :
  snd (fst e) <= String.length (text document) ->
  fst (fst e) <= snd (fst e) ->
  editOffsets document (editAt document e) = e.
Proof.
  destruct e as [[u v] new]. simpl. intros Hv Hu.
  unfold editOffsets, editAt, replaceAt. simpl.
  rewrite !offsetAt_positionAt by lia. reflexivity.
Qed.

Lemma editOffsets_usages document from to us :
  forall base,
    base + String.length (body from us) <= String.length (text document) ->
    map (editOffsets document) (map (editAt document) (offsetEdits from to base us))
    = offsetEdits from to base us.
Proof.
  intros base Hlen. rewrite map_map. rewrite <- (map_id (offsetEdits from to base us)) at 2.
  apply map_ext_in. intros e He. apply offsetEdits_bounds in He.
  apply editOffsets_editAt; lia.
Qed.

Lemma usageSugar_length raw : 1 <= String.length (usageSugar raw).
Proof. destruct raw; simpl; lia. Qed.

Lemma usagePlain_length raw : 1 <= String.length (usagePlain raw).
Proof. destruct raw; simpl; lia. Qed.

(** The text at a usage. *)
Lemma text_at_usage docText done mid (used tail : string) n :
  docText = done +:+ mid +:+ used +:+ tail ->
  substring (String.length done + String.length mid + n) (String.length used - n) docText
  = substring n (String.length used - n) used.
Proof.
  intros ->. rewrite <- Nat.add_assoc, substring_app_skip, substring_app_skip.
  revert n. induction used as [|ch used IH]; intros n.
  - rewrite Nat.sub_0_l. now rewrite !substring_none.
  - destruct n as [|n].
    + rewrite Nat.sub_0_r.
      rewrite substring_app_exact. now rewrite substring_whole.
    + rewrite append_cons. simpl. apply IH.
Qed.

Lemma text_after_usage docText done mid (used tail : string) m :
  docText = done +:+ mid +:+ used +:+ tail ->
  substring (String.length done + String.length mid + String.length used) m docText
  = substring 0 m tail.
Proof.
  intros ->. rewrite <- !Nat.add_assoc, !substring_app_skip.
  rewrite <- (Nat.add_0_r (String.length used)). apply substring_app_skip.
Qed.

(** The loop of the branch that removes the sugar, over the references at
    the usages. *)
Lemma unuse_usages document ss _var us :
  forall base edits done rest,
    text document = done +:+ body usageSugar us +:+ rest ->
    String.length done = base ->
    start (loc ss) + start _var < base ->
    base + String.length (body usageSugar us) <= end_ (loc ss) ->
    fold_left (unuseReference document ss _var "x")
      (map (locationAt document)
         (sites usageSugar (fun raw => String.length (usageSugar raw)) base us)) edits
    = edits ++ map (editAt document) (offsetEdits usageSugar usagePlain base us).
Proof.
  induction us as [|[mid raw] us IH]; intros base edits done rest Htext Hdone Hdecl Hend.
  - simpl. now rewrite app_nil_r.
  - cbn [sites offsetEdits map fold_left].
    rewrite body_cons, !length_append in Hend.
    rewrite body_cons, !append_assoc in Htext.
    assert (Hlen : base + String.length mid + String.length (usageSugar raw)
                   <= String.length (text document)).
    { rewrite Htext, !length_append. lia. }
    pose proof (usageSugar_length raw) as Hu.
    assert (Hstep :
      unuseReference document ss _var "x" edits
        (locationAt document
           (base + String.length mid,
            base + String.length mid + String.length (usageSugar raw)))
      = edits ++ [editAt document
                    (base + String.length mid,
                     base + String.length mid + String.length (usageSugar raw),
                     usagePlain raw)]).
    { unfold unuseReference, locationAt. cbn [l_uri l_range r_start r_end fst snd].
      rewrite String.eqb_refl. cbn [negb].
      rewrite !offsetAt_positionAt by lia.
      destruct (Nat.eqb_spec (base + String.length mid) (start (loc ss) + start _var));
        [lia|]. cbn [andb].
      destruct (Nat.leb_spec (start (loc ss)) (base + String.length mid)); [|lia].
      destruct (Nat.leb_spec (base + String.length mid + String.length (usageSugar raw))
                  (end_ (loc ss))); [|lia]. cbn [andb].
      unfold js_substring. rewrite Nat.min_l, Nat.max_r by lia.
      replace (base + String.length mid + String.length (usageSugar raw)
               - (base + String.length mid))
        with (String.length (usageSugar raw) - 0) by lia.
      rewrite <- (Nat.add_0_r (base + String.length mid)) at 1. rewrite <- Hdone.
      rewrite (text_at_usage _ _ _ _ _ _ Htext), Nat.sub_0_r, substring_whole.
      unfold editAt, replaceAt. cbn [fst snd].
      now destruct raw. }
    rewrite Hstep.
    rewrite (IH (base + String.length mid + String.length (usageSugar raw))
               _ (done +:+ mid +:+ usageSugar raw) rest).
    + now rewrite <- app_assoc.
    + now rewrite Htext, !append_assoc.
    + rewrite !length_append. lia.
    + lia.
    + lia.
Qed.

(** The loop of the branch that introduces the sugar, over the references
    at the usages. *)
Lemma use_usages document ss _var us :
  forall base edits done rest,
    text document = done +:+ body usagePlain us +:+ rest ->
    String.length done = base ->
    start (loc ss) + start _var < base ->
    base + String.length (body usagePlain us) <= end_ (loc ss) ->
    noValueAfterPlain us rest ->
    fold_left (useReference document ss _var "x")
      (map (locationAt document) (sites usagePlain (fun _ => 1) base us)) edits
    = edits ++ map (editAt document) (offsetEdits usagePlain usageSugar base us).
Proof.
  induction us as [|[mid raw] us IH];
    intros base edits done rest Htext Hdone Hdecl Hend Hno.
  - simpl. now rewrite app_nil_r.
  - cbn [sites offsetEdits map fold_left].
    destruct Hno as [Hraw Hno].
    rewrite body_cons, !length_append in Hend.
    rewrite body_cons, !append_assoc in Htext.
    assert (Hlen : base + String.length mid + String.length (usagePlain raw)
                   <= String.length (text document)).
    { rewrite Htext, !length_append. lia. }
    pose proof (usagePlain_length raw) as Hu.
    assert (Hstep :
      useReference document ss _var "x" edits
        (locationAt document (base + String.length mid, base + String.length mid + 1))
      = edits ++ [editAt document
                    (base + String.length mid,
                     base + String.length mid + String.length (usagePlain raw),
                     usageSugar raw)]).
    { unfold useReference, locationAt. cbn [l_uri l_range r_start r_end fst snd].
      rewrite String.eqb_refl. cbn [negb].
      rewrite !offsetAt_positionAt by lia.
      destruct (Nat.eqb_spec (base + String.length mid) (start (loc ss) + start _var));
        [lia|]. cbn [andb].
      destruct (Nat.leb_spec (start (loc ss)) (base + String.length mid)); [|lia].
      destruct (Nat.leb_spec (base + String.length mid + 1) (end_ (loc ss))); [|lia].
      cbn [andb]. unfold js_substr, editAt, replaceAt. cbn [fst snd].
      rewrite <- Hdone.
      destruct raw.
      - (* [x], the ref itself *)
        assert (Hsub : substring (String.length done + String.length mid + 1)
                         (String.length ".value") (text document)
                       = substring 0 6 (body usagePlain us +:+ rest)).
        { replace (String.length done + String.length mid + 1)
            with (String.length done + String.length mid
                  + String.length (usagePlain true)) by reflexivity.
          apply (text_after_usage _ _ _ _ _ _ Htext). }
        rewrite Hsub.
        destruct (String.eqb_spec (substring 0 6 (body usagePlain us +:+ rest)) ".value")
          as [E|E]; [now destruct (Hraw eq_refl)|].
        reflexivity.
      - (* [x.value] *)
        assert (Hsub : substring (String.length done + String.length mid + 1)
                         (String.length ".value") (text document) = ".value").
        { change (String.length ".value") with (String.length (usagePlain false) - 1).
          rewrite (text_at_usage _ _ _ _ _ _ Htext). reflexivity. }
        rewrite Hsub. cbn [String.eqb Ascii.eqb Bool.eqb]. simpl.
        replace (String.length done + String.length mid + 1 + 6)
          with (String.length done + String.length mid + 7) by lia.
        reflexivity. }
    rewrite Hstep.
    rewrite (IH (base + String.length mid + String.length (usagePlain raw))
               _ (done +:+ mid +:+ usagePlain raw) rest).
    + now rewrite <- app_assoc.
    + now rewrite Htext, !append_assoc.
    + rewrite !length_append. lia.
    + lia.
    + lia.
    + assumption.
Qed.

Lemma fold_left_unchanged {A B} (step : A -> B -> A) (l : list B) (init : A) :
  (forall acc x, In x l -> step acc x = acc) -> fold_left step l init = init.
Proof.
  revert init. induction l as [|x l IH]; intros init H; simpl; [reflexivity|].
  rewrite H by (now left). apply IH. intros acc y Hy. apply H. now right.
Qed.

Lemma importRefEdits_nothing S document scriptSetupEnd genData refs edits :
  nothingToImport S ->
  importRefEdits (toggleContext S document scriptSetupEnd genData refs)
    (ts_scriptDocument S) (ts_targetToSource S) edits = edits.
Proof.
  intros Hno. unfold importRefEdits.
  cbn [cmd_doComplete doCompletionResolve SearchTexts_Ref toggleContext].
  apply fold_left_unchanged. intros acc item Hin.
  destruct (String.eqb_spec (label item) "ref") as [E|E]; [|reflexivity].
  cbn [negb]. now rewrite (Hno item Hin E).
Qed.

Lemma applySorted_cons docText last s e new rest r :
  last <= s ->
  applySorted docText e rest = Some r ->
  applySorted docText last ((s, e, new) :: rest)
  = Some (substring last (s - last) docText +:+ new +:+ r).
Proof.
  intros Hle Hrest. cbn [applySorted].
  destruct (Nat.ltb_spec s last); [lia|]. now rewrite Hrest.
Qed.

(** The declaration is skipped in both loops. *)
Lemma unuseReference_declaration document ss _var varText edits declStart declEnd :
  declStart <= declEnd -> declEnd <= String.length (text document) ->
  declStart = start (loc ss) + start _var ->
  declEnd = start (loc ss) + end_ _var ->
  unuseReference document ss _var varText edits (locationAt document (declStart, declEnd))
  = edits.
Proof.
  intros H1 H2 Hs He. unfold unuseReference, locationAt.
  cbn [l_uri l_range r_start r_end fst snd].
  rewrite String.eqb_refl. cbn [negb].
  rewrite !offsetAt_positionAt by lia.
  rewrite <- Hs, <- He, !Nat.eqb_refl. reflexivity.
Qed.

Lemma useReference_declaration document ss _var varText edits declStart declEnd :
  declStart <= declEnd -> declEnd <= String.length (text document) ->
  declStart = start (loc ss) + start _var ->
  declEnd = start (loc ss) + end_ _var ->
  useReference document ss _var varText edits (locationAt document (declStart, declEnd))
  = edits.
Proof.
  intros H1 H2 Hs He. unfold useReference, locationAt.
  cbn [l_uri l_range r_start r_end fst snd].
  rewrite String.eqb_refl. cbn [negb].
  rewrite !offsetAt_positionAt by lia.
  rewrite <- Hs, <- He, !Nat.eqb_refl. reflexivity.
Qed.

Lemma getTextIn_offsets document a b :
  a <= b -> b <= String.length (text document) ->
  getTextIn document
    {| r_start := positionAt document a; r_end := positionAt document b |}
  = substring a (b - a) (text document).
Proof.
  intros Hab Hb. unfold getTextIn, js_substring. cbn [r_start r_end].
  rewrite !offsetAt_positionAt by lia.
  now rewrite Nat.min_l, Nat.max_r by lia.
Qed.

Lemma js_substring_offsets a b s :
  a <= b -> js_substring a b s = substring a (b - a) s.
Proof. intros H. unfold js_substring. now rewrite Nat.min_l, Nat.max_r by lia. Qed.

(** The pieces of the two declarations. *)
Lemma declSugar_between (tail : string) : substring 4 5 (declSugar +:+ tail) = " x = ".
Proof. now vm_compute. Qed.

Lemma declSugar_right (tail : string) : substring 9 6 (declSugar +:+ tail) = "ref(1)".
Proof.
  change (declSugar +:+ tail) with ("ref: x = " +:+ "ref(1)" +:+ tail).
  change 9 with (String.length "ref: x = " + 0). rewrite substring_app_skip.
  apply (substring_app_exact "ref(1)" tail).
Qed.

Lemma declPlain_left (tail : string) : substring 6 1 (declPlain +:+ tail) = "x".
Proof. now vm_compute. Qed.

Lemma declPlain_argument (tail : string) :
  substring 14 6 (declPlain +:+ tail) = "ref(1)".
Proof. now vm_compute. Qed.

(** The edits of the first toggle. *)
Lemma switchRefSugar_sugar S pre us post :
  wellPlaced S pre post -> nothingToImport S ->
  switchRefSugar (sugarContext S pre us post) (sugarDocument S pre us post)
  = Some (map (editAt (sugarDocument S pre us post))
            ((String.length pre, String.length pre + 4, "const")
               :: (String.length pre + 9, String.length pre + 9, "ref(")
               :: (String.length pre + 15, String.length pre + 15, ")")
               :: offsetEdits usageSugar usagePlain (String.length pre + 15) us)).
Proof.
  intros [Hstart Htail] Hno.
  set (doc := sugarDocument S pre us post).
  assert (Htext : text doc = (pre +:+ declSugar) +:+ body usageSugar us +:+ post).
  { unfold doc, sugarDocument, toggleDocument, sourceSugar. cbn [text].
    now rewrite append_assoc. }
  assert (Hlen : String.length (text doc)
                 = String.length pre + 15 + String.length (body usageSugar us)
                   + String.length post).
  { rewrite Htext, !length_append. simpl. lia. }
  unfold switchRefSugar, sugarContext. fold doc.
  cbn [getDescriptor scriptSetup getScriptSetupData labels toggleContext
       getVirtualScript_document getVirtualScript_targetToSource loc start end_
       lb_label lb_right lb_vars lr_start lr_end isComputedCall fold_left negb app].
  rewrite importRefEdits_nothing by assumption.
  f_equal.
  unfold unuseReferences.
  cbn [findReferences toggleContext orDefault loc start end_].
  replace (ts_start S + (String.length pre - ts_start S)) with (String.length pre) by lia.
  replace (ts_start S + (String.length pre - ts_start S + 3) + 1)
    with (String.length pre + 4) by lia.
  replace (ts_start S + (String.length pre - ts_start S + 9))
    with (String.length pre + 9) by lia.
  replace (ts_start S + (String.length pre - ts_start S + 15))
    with (String.length pre + 15) by lia.
  replace (ts_start S + (String.length pre - ts_start S + 5))
    with (String.length pre + 5) by lia.
  replace (ts_start S + (String.length pre - ts_start S + 6))
    with (String.length pre + 6) by lia.
  rewrite getTextIn_offsets by lia.
  replace (String.length pre + 6 - (String.length pre + 5)) with 1 by lia.
  assert (Hvar : substring (String.length pre + 5) 1 (text doc) = "x").
  { unfold doc, sugarDocument, toggleDocument, sourceSugar. cbn [text].
    rewrite substring_app_skip. reflexivity. }
  rewrite Hvar.
  unfold toggleReferences. cbn [map fold_left].
  rewrite unuseReference_declaration;
    [|lia|lia|cbn [loc start end_]; lia|cbn [loc start end_]; lia].
  change (String.length declSugar) with 15.
  rewrite (unuse_usages doc _ _ us (String.length pre + 15) _ (pre +:+ declSugar) post).
  - reflexivity.
  - exact Htext.
  - rewrite length_append. reflexivity.
  - cbn [loc start end_]. lia.
  - cbn [loc start end_]. lia.
Qed.

Lemma toggleOnce_plain S pre us post :
  wellPlaced S pre post -> nothingToImport S ->
  toggleOnce S pre us post = Some (sourcePlain pre us post).
Proof.
  intros Hplaced Hno. unfold toggleOnce.
  rewrite switchRefSugar_sugar by assumption.
  set (doc := sugarDocument S pre us post).
  assert (Htext : text doc = (pre +:+ declSugar) +:+ body usageSugar us +:+ post).
  { unfold doc, sugarDocument, toggleDocument, sourceSugar. cbn [text].
    now rewrite append_assoc. }
  assert (Hlen : String.length (text doc)
                 = String.length pre + 15 + String.length (body usageSugar us)
                   + String.length post).
  { rewrite Htext, !length_append. simpl. lia. }
  unfold applyEdits. rewrite map_map. cbn [map].
  change (fun x : nat * nat * string =>
            (offsetAt doc (r_start (te_range (editAt doc x))),
             offsetAt doc (r_end (te_range (editAt doc x))),
             newText (editAt doc x)))
    with (fun x => editOffsets doc (editAt doc x)).
  change (offsetAt doc (r_start (te_range (editAt doc ?e))),
          offsetAt doc (r_end (te_range (editAt doc ?e))), newText (editAt doc ?e))
    with (editOffsets doc (editAt doc e)).
  rewrite <- (map_map (editAt doc) (editOffsets doc)).
  rewrite editOffsets_usages by lia.
  rewrite !editOffsets_editAt by (cbn [fst snd]; lia).
  rewrite sortBy_cons_least.
  2:{ intros y [<-|[<-|Hy]]; simpl; try lia. apply offsetEdits_bounds in Hy. lia. }
  rewrite sortBy_cons_least.
  2:{ intros y [<-|Hy]; simpl; try lia. apply offsetEdits_bounds in Hy. lia. }
  rewrite sortBy_cons_least.
  2:{ intros y Hy; simpl. apply offsetEdits_bounds in Hy. lia. }
  rewrite sortBy_offsetEdits.
  pose proof (applySorted_usages usageSugar usagePlain us (text doc)
                (pre +:+ declSugar) post Htext) as Hus.
  rewrite length_append in Hus. change (String.length declSugar) with 15 in Hus.
  assert (H3 : String.length pre + 9 <= String.length pre + 15) by lia.
  assert (H2 : String.length pre + 4 <= String.length pre + 9) by lia.
  rewrite (applySorted_cons _ _ _ _ _ _ _ (Nat.le_0_l _)
             (applySorted_cons _ _ _ _ _ _ _ H2
                (applySorted_cons _ _ _ _ _ _ _ H3 Hus))).
  f_equal.
  replace (String.length pre + 9 - (String.length pre + 4)) with 5 by lia.
  replace (String.length pre + 15 - (String.length pre + 9)) with 6 by lia.
  rewrite Nat.sub_0_r.
  unfold doc, sugarDocument, toggleDocument, sourceSugar, sourcePlain. cbn [text].
  rewrite substring_app_exact, !substring_app_skip.
  rewrite declSugar_between, declSugar_right. reflexivity.
Qed.

(** The edits of the second toggle. *)
Lemma switchRefSugar_plain S pre us post :
  wellPlaced S pre post -> noValueAfterPlain us post ->
  switchRefSugar (plainContext S pre us post) (plainDocument S pre us post)
  = Some (map (editAt (plainDocument S pre us post))
            ((String.length pre, String.length pre + 21, declSugar)
               :: offsetEdits usagePlain usageSugar (String.length pre + 21) us)).
Proof.
  intros [Hstart Htail] Hno.
  set (doc := plainDocument S pre us post).
  assert (Htext : text doc = (pre +:+ declPlain) +:+ body usagePlain us +:+ post).
  { unfold doc, plainDocument, toggleDocument, sourcePlain. cbn [text].
    now rewrite append_assoc. }
  assert (Hlen : String.length (text doc)
                 = String.length pre + 21 + String.length (body usagePlain us)
                   + String.length post).
  { rewrite Htext, !length_append. simpl. lia. }
  unfold switchRefSugar, plainContext. fold doc.
  cbn [getDescriptor scriptSetup getScriptSetupData labels refCalls toggleContext
       loc start end_ rc_start rc_end rc_vars rc_left rc_rightExpression
       fold_left app].
  f_equal.
  unfold useReferences.
  cbn [findReferences toggleContext orDefault loc start end_].
  replace (ts_start S + (String.length pre - ts_start S)) with (String.length pre) by lia.
  replace (ts_start S + (String.length pre - ts_start S + 21))
    with (String.length pre + 21) by lia.
  replace (ts_start S + (String.length pre - ts_start S + 6))
    with (String.length pre + 6) by lia.
  replace (ts_start S + (String.length pre - ts_start S + 7))
    with (String.length pre + 7) by lia.
  replace (ts_start S + (String.length pre - ts_start S + 14))
    with (String.length pre + 14) by lia.
  replace (ts_start S + (String.length pre - ts_start S + 20))
    with (String.length pre + 20) by lia.
  rewrite getTextIn_offsets by lia.
  rewrite !js_substring_offsets by lia.
  replace (String.length pre + 7 - (String.length pre + 6)) with 1 by lia.
  replace (String.length pre + 20 - (String.length pre + 14)) with 6 by lia.
  assert (Hvar : substring (String.length pre + 6) 1 (text doc) = "x").
  { unfold doc, plainDocument, toggleDocument, sourcePlain. cbn [text].
    rewrite substring_app_skip. apply declPlain_left. }
  assert (Harg : substring (String.length pre + 14) 6 (text doc) = "ref(1)").
  { unfold doc, plainDocument, toggleDocument, sourcePlain. cbn [text].
    rewrite substring_app_skip. apply declPlain_argument. }
  rewrite Hvar, Harg.
  unfold toggleReferences. cbn [map fold_left].
  rewrite useReference_declaration;
    [|lia|lia|cbn [loc start end_]; lia|cbn [loc start end_]; lia].
  change (String.length declPlain) with 21.
  rewrite (use_usages doc _ _ us (String.length pre + 21) _ (pre +:+ declPlain) post).
  - reflexivity.
  - exact Htext.
  - rewrite length_append. reflexivity.
  - cbn [loc start end_]. lia.
  - cbn [loc start end_]. lia.
  - exact Hno.
Qed.

Lemma toggleBack_sugar S pre us post :
  wellPlaced S pre post -> noValueAfterPlain us post ->
  toggleBack S pre us post = Some (sourceSugar pre us post).
Proof.
  intros Hplaced Hno. unfold toggleBack.
  rewrite switchRefSugar_plain by assumption.
  set (doc := plainDocument S pre us post).
  assert (Htext : text doc = (pre +:+ declPlain) +:+ body usagePlain us +:+ post).
  { unfold doc, plainDocument, toggleDocument, sourcePlain. cbn [text].
    now rewrite append_assoc. }
  assert (Hlen : String.length (text doc)
                 = String.length pre + 21 + String.length (body usagePlain us)
                   + String.length post).
  { rewrite Htext, !length_append. simpl. lia. }
  unfold applyEdits. rewrite map_map. cbn [map].
  change (fun x : nat * nat * string =>
            (offsetAt doc (r_start (te_range (editAt doc x))),
             offsetAt doc (r_end (te_range (editAt doc x))),
             newText (editAt doc x)))
    with (fun x => editOffsets doc (editAt doc x)).
  change (offsetAt doc (r_start (te_range (editAt doc ?e))),
          offsetAt doc (r_end (te_range (editAt doc ?e))), newText (editAt doc ?e))
    with (editOffsets doc (editAt doc e)).
  rewrite <- (map_map (editAt doc) (editOffsets doc)).
  rewrite editOffsets_usages by lia.
  rewrite !editOffsets_editAt by (cbn [fst snd]; lia).
  rewrite sortBy_cons_least.
  2:{ intros y Hy; simpl. apply offsetEdits_bounds in Hy. lia. }
  rewrite sortBy_offsetEdits.
  pose proof (applySorted_usages usagePlain usageSugar us (text doc)
                (pre +:+ declPlain) post Htext) as Hus.
  rewrite length_append in Hus. change (String.length declPlain) with 21 in Hus.
  rewrite (applySorted_cons _ _ _ _ _ _ _ (Nat.le_0_l _) Hus).
  f_equal. rewrite Nat.sub_0_r.
  unfold doc, plainDocument, toggleDocument, sourceSugar, sourcePlain. cbn [text].
  now rewrite substring_app_exact.
Qed.

(** [.value] after a usage [$x]: read on either form of the source. *)
Lemma value_after_mid mid (x y : string) raw :
  substring 0 6 (mid +:+ usagePlain raw +:+ x) = ".value" ->
  substring 0 6 (mid +:+ usageSugar raw +:+ y) = ".value".
Proof.
  destruct mid as [|c0 [|c1 [|c2 [|c3 [|c4 [|c5 mid]]]]]]; destruct raw;
    unfold usagePlain, usageSugar;
    rewrite ?append_cons, ?append_nil_l; simpl; rewrite ?substring_none;
    intros H; try discriminate H; exact H.
Qed.

Lemma noValueAfterPlain_of_source us post :
  noValueAfterRaw us post -> noValueAfterPlain us post.
Proof.
  induction us as [|[mid raw] us IH]; simpl; [tauto|].
  intros [Hraw Hrest]. split; [|now apply IH].
  intros Hr Hvalue. apply (Hraw Hr).
  destruct us as [|[mid' raw'] us']; [exact Hvalue|].
  rewrite body_cons, !append_assoc in *.
  exact (value_after_mid _ _ _ _ Hvalue).
Qed.

(** C8, amended.  For a source whose script-setup declares
    [ref: x = ref(1)] and then uses the variable as [x] and as [$x], where
    no [$x] is directly followed by [.value] and [ref] needs no import, the
    first toggle yields the source without the sugar and the second toggle,
    applied to it, yields the original text again. *)
Theorem ref_sugar_round_trip :
  forall S pre us post,
    wellPlaced S pre post ->
    nothingToImport S ->
    noValueAfterRaw us post ->
    toggleOnce S pre us post = Some (text (plainDocument S pre us post))
    /\ toggleBack S pre us post = Some (text (sugarDocument S pre us post)).
Proof.
  intros S pre us post Hplaced Himport Hvalue. split.
  - now apply toggleOnce_plain.
  - apply toggleBack_sugar; [assumption|]. now apply noValueAfterPlain_of_source.
Qed.

Lemma ref_sugar_round_trip_witness :
  (wellPlaced refInScope (scriptOpen +:+ importLine) scriptClose
   /\ nothingToImport refInScope
   /\ noValueAfterRaw twoUsages scriptClose)
  /\ toggleOnce refInScope (scriptOpen +:+ importLine) twoUsages scriptClose
     = Some (text (plainDocument refInScope (scriptOpen +:+ importLine) twoUsages
                     scriptClose))
  /\ toggleBack refInScope (scriptOpen +:+ importLine) twoUsages scriptClose
     = Some (text (sugarDocument refInScope (scriptOpen +:+ importLine) twoUsages
                     scriptClose)).
Proof.
  assert (H1 : wellPlaced refInScope (scriptOpen +:+ importLine) scriptClose).
  { split; vm_compute; lia. }
  assert (H2 : nothingToImport refInScope).
  { intros item [<-|[]] _. reflexivity. }
  assert (H3 : noValueAfterRaw twoUsages scriptClose).
  { simpl. repeat split; intros _; vm_compute; discriminate. }
  split; [auto|].
  exact (ref_sugar_round_trip refInScope (scriptOpen +:+ importLine) twoUsages
           scriptClose H1 H2 H3).
Defined.

(** C8 as stated fails in two ways.  With [$x.value] in the source, the
    first toggle writes [x.value] for it and the second toggle reads that
    as the sugared [x].  And when [ref] has to be imported, the first
    toggle adds the import, which the second toggle leaves in place. *)
Lemma ref_sugar_round_trip_fails :
  (wellPlaced refInScope (scriptOpen +:+ importLine) scriptCloseValue
   /\ nothingToImport refInScope
   /\ exists once twice,
        toggleOnce refInScope (scriptOpen +:+ importLine) twoUsages scriptCloseValue
          = Some once
        /\ once = text (plainDocument refInScope (scriptOpen +:+ importLine) twoUsages
                          scriptCloseValue)
        /\ toggleBack refInScope (scriptOpen +:+ importLine) twoUsages scriptCloseValue
           = Some twice
        /\ twice <> sourceSugar (scriptOpen +:+ importLine) twoUsages scriptCloseValue)
  /\ (wellPlaced refToImport (scriptOpen +:+ newline) scriptClose
      /\ noValueAfterRaw twoUsages scriptClose
      /\ exists once twice,
           toggleOnce refToImport (scriptOpen +:+ newline) twoUsages scriptClose
             = Some once
           /\ once = text (plainDocument refToImport
                             (scriptOpen +:+ importLine +:+ newline)
                             twoUsages scriptClose)
           /\ toggleBack refToImport (scriptOpen +:+ importLine +:+ newline)
                twoUsages scriptClose
              = Some twice
           /\ twice <> sourceSugar (scriptOpen +:+ newline) twoUsages scriptClose).
Proof.
  split.
  - split; [split; vm_compute; lia|].
    split; [intros item [<-|[]] _; reflexivity|].
    eexists _, _. split; [vm_compute; reflexivity|].
    split; [vm_compute; reflexivity|].
    split; [vm_compute; reflexivity|].
    vm_compute. discriminate.
  - split; [split; vm_compute; lia|].
    split; [simpl; repeat split; intros _; vm_compute; discriminate|].
    eexists _, _. split; [vm_compute; reflexivity|].
    split; [vm_compute; reflexivity|].
    split; [vm_compute; reflexivity|].
    vm_compute. discriminate.
Qed.

(** ** The sample component *)

(** The marker comment tags the template, the next block, and nothing
    else. *)
Example app_ignore_flags :
  map (sectionIgnore (descriptor appSourceFile))
    [RefTemplate; RefScript; RefScriptSetup; RefStyle 0]
  = [Some true; Some false; None; Some false].
Proof. vm_compute. reflexivity. Qed.

Example app_update_result :
  snd (update appParsers appGenerators appDocument freshSourceFile)
  = {| scriptUpdated := true; templateScriptUpdated := true |}
  /\ snd (update appParsers appGenerators appDocument appSourceFile)
     = {| scriptUpdated := false; templateScriptUpdated := false |}.
Proof. split; vm_compute; reflexivity. Qed.

(** With the template ignored its producers deliver nothing; the script
    producers and style validation deliver. *)
Example app_producers_ignored :
  map (fun p => length (producer p (appWorld appSourceFile)))
    [StylesValidation; TemplateValidation; ScriptExistValidation;
     TemplateScriptValidation1; ScriptValidation1; ScriptUnusedValidation]
  = [1; 0; 1; 0; 1; 0].
Proof. vm_compute. reflexivity. Qed.

(** Without the marker, the first template-script pass delivers the unused
    [foo] at its place in the template and, relocated, at its definition in
    the script. *)
Example app_relocated :
  producer TemplateScriptValidation1 (appWorld plainSourceFile)
  = [ diagnosticAt 1 3 6 "'foo' is declared but never used" (Some [Unnecessary]);
      diagnosticAt 2 36 39 "'foo' is declared but never used" (Some [Unnecessary]) ].
Proof. vm_compute. reflexivity. Qed.

(** A run that is cancelled at the third poll. *)
Example app_cancelled_run :
  map (fun e => match e with
                | Polled b => (0, Some b, None)
                | Computed p => (1, None, Some p)
                | Response diags => (2 + length diags, None, None)
                end)
    (trace (Some cancelAtThird) true 0 (appState plainSourceFile))
  = [ (0, Some false, None); (1, None, Some StylesValidation); (3, None, None);
      (0, Some false, None); (1, None, Some TemplateValidation); (3, None, None);
      (0, Some true, None) ].
Proof. vm_compute. reflexivity. Qed.

(** The first update changed the script: the script family runs first, and
    without side-effect producers the template-script family is held. *)
Example app_schedule :
  allOf false (appState plainSourceFile)
  = [StylesValidation; TemplateValidation; ScriptExistValidation;
     ScriptValidation1; ScriptValidation2; ScriptValidation3; ScriptUnusedValidation]
  /\ keepOf false (appState plainSourceFile)
     = [TemplateScriptValidation1; TemplateScriptValidation2; TemplateScriptValidation3]
  /\ computedOf (fst (getDiagnostics (K := unit) None false tt (appState plainSourceFile)))
     = allOf false (appState plainSourceFile)
  /\ scriptTs (snd (snd (getDiagnostics (K := unit) None true tt
                           (appState plainSourceFile))))
     = initialScriptTs
  /\ sortedScriptTs (snd (snd (getDiagnostics (K := unit) None true tt
                                 (appState plainSourceFile))))
     = [ScriptValidation2; ScriptValidation3; ScriptUnusedValidation; ScriptValidation1].
Proof. repeat split; vm_compute; reflexivity. Qed.

(** Two diagnostics with the same range, message and severity are one in a
    response. *)
Example app_deduplicated :
  withDiagnostics
    [ diagnosticAt 1 3 6 "unused" None; diagnosticAt 2 0 1 "other" None;
      diagnosticAt 1 3 6 "unused" (Some [Unnecessary]) ]
  = [ diagnosticAt 1 3 6 "unused" None; diagnosticAt 2 0 1 "other" None ].
Proof. vm_compute. reflexivity. Qed.

(** The cross-reference data: nothing is done for the stored project
    version; with another version and new names the names are stored; with
    another version and the same set of names nothing but the version is
    stored. *)
Example app_updateTemplateScript :
  let ls := appLanguageService (Some "1") in
  let once := updateTemplateScript ls appGenerators appSearchTexts appSourceFile in
  let again := updateTemplateScript ls appGenerators appSearchTexts (fst once) in
  let later :=
    updateTemplateScript (appLanguageService (Some "2")) appGenerators appSearchTexts
      (fst once) in
  snd once = true
  /\ nameSets (templateScriptData (fst once)) = (["foo"; "foo"], [], [], ["foo"], [])
  /\ again = (fst once, false)
  /\ snd later = false
  /\ nameSets (templateScriptData (fst later)) = nameSets (templateScriptData (fst once))
  /\ projectVersion (templateScriptData (fst later)) = Some "2".
Proof. repeat split; vm_compute; reflexivity. Qed.

(** * Further properties

    ** Remapping *)

Lemma flat_map_filter_nil {A B} (f : A -> list B) (keep : A -> bool) (l : list A) :
  (forall x, keep x = false -> f x = []) ->
  flat_map f (List.filter keep l) = flat_map f l.
Proof.
  intros H. induction l as [|x l IH]; simpl; [reflexivity|].
  destruct (keep x) eqn:E; simpl; rewrite IH; [reflexivity|].
  now rewrite (H x E).
Qed.

Lemma rangeHit_other u error sm :
  String.eqb (mappedDocument_uri sm) u = false -> rangeHit u error sm = [].
Proof. intros E. unfold rangeHit. now rewrite E. Qed.

Lemma pointHit_other u error sm :
  String.eqb (mappedDocument_uri sm) u = false -> pointHit u error sm = [].
Proof. intros E. unfold pointHit. now rewrite E. Qed.

Lemma remapOne_mapsOf u sms error : remapOne u (mapsOf u sms) error = remapOne u sms error.
Proof.
  unfold remapOne, mapsOf.
  rewrite !flat_map_filter_nil; [reflexivity| |];
    intros sm E; [apply pointHit_other|apply rangeHit_other]; exact E.
Qed.

(** X1.  Each error is remapped on its own, and the results come in the
    order of the errors: remapping a concatenation is the concatenation of
    the remappings, for both functions. *)
Theorem remapping_is_per_error :
  forall errors1 errors2 virtualScriptUri,
    (forall sourceMaps : list TsSourceMap,
       toTsSourceDiags (errors1 ++ errors2) virtualScriptUri sourceMaps
       = toTsSourceDiags errors1 virtualScriptUri sourceMaps
         ++ toTsSourceDiags errors2 virtualScriptUri sourceMaps)
    /\ (forall D (sourceMaps : list (SourceMap D)),
          toSourceDiags (errors1 ++ errors2) virtualScriptUri sourceMaps
          = toSourceDiags errors1 virtualScriptUri sourceMaps
            ++ toSourceDiags errors2 virtualScriptUri sourceMaps).
Proof.
  intros errors1 errors2 u. split.
  - intros sms. rewrite !toTsSourceDiags_flat_map. apply flat_map_app.
  - intros D sms. rewrite !toSourceDiags_flat_map. apply flat_map_app.
Qed.

(** X2.  Source maps of other generated documents play no part: the result
    is the one for the source maps of the document alone, and it is empty
    when the document has no source map. *)
Theorem remapping_uses_maps_of_document :
  forall errors virtualScriptUri,
    (forall sourceMaps : list TsSourceMap,
       toTsSourceDiags errors virtualScriptUri sourceMaps
       = toTsSourceDiags errors virtualScriptUri (mapsOf virtualScriptUri sourceMaps)
       /\ (mapsOf virtualScriptUri sourceMaps = [] ->
           toTsSourceDiags errors virtualScriptUri sourceMaps = []))
    /\ (forall D (sourceMaps : list (SourceMap D)),
          toSourceDiags errors virtualScriptUri sourceMaps
          = toSourceDiags errors virtualScriptUri (mapsOf virtualScriptUri sourceMaps)
          /\ (mapsOf virtualScriptUri sourceMaps = [] ->
              toSourceDiags errors virtualScriptUri sourceMaps = [])).
Proof.
  intros errors u.
  assert (HT : forall sms : list TsSourceMap,
            toTsSourceDiags errors u sms = toTsSourceDiags errors u (mapsOf u sms)).
  { intros sms. rewrite !toTsSourceDiags_flat_map. apply flat_map_ext.
    intros error. now rewrite remapOne_mapsOf. }
  assert (HS : forall D (sms : list (SourceMap D)),
            toSourceDiags errors u sms = toSourceDiags errors u (mapsOf u sms)).
  { intros D sms. rewrite !toSourceDiags_flat_map. apply flat_map_ext.
    intros error. unfold mapsOf. rewrite flat_map_filter_nil; [reflexivity|].
    intros sm E. now rewrite E. }
  split.
  - intros sms. split; [apply HT|]. intros E. rewrite HT, E.
    rewrite toTsSourceDiags_flat_map. clear. induction errors; [reflexivity|exact IHerrors].
  - intros D sms. split; [apply HS|]. intros E. rewrite HS, E.
    rewrite toSourceDiags_flat_map. clear. induction errors; [reflexivity|exact IHerrors].
Qed.

Lemma rangeHit_length u error sm : length (rangeHit u error sm) <= 1.
Proof.
  unfold rangeHit. destruct (String.eqb _ _); [|simpl; lia].
  destruct (rangeLookup sm error); simpl; lia.
Qed.

Lemma pointHit_length u error sm : length (pointHit u error sm) <= 1.
Proof.
  unfold pointHit. destruct (String.eqb _ _); [|simpl; lia].
  destruct (startLookup sm error); [|simpl; lia].
  destruct (endLookup sm error); simpl; lia.
Qed.

Lemma flat_map_length_le {A B} (f : A -> list B) (k : nat) (l : list A) :
  (forall x, length (f x) <= k) -> length (flat_map f l) <= length l * k.
Proof.
  intros H. induction l as [|x l IH]; simpl; [lia|].
  rewrite length_app. specialize (H x). lia.
Qed.

Lemma flat_map_all_le {A B} (f : A -> list B) (l : list A) :
  (forall x, length (f x) <= 1) -> length (flat_map f l) <= length l.
Proof. intros H. pose proof (flat_map_length_le f 1 l H). lia. Qed.

Lemma remapOne_length u sms error :
  length (remapOne u sms error) <= length (mapsOf u sms).
Proof.
  rewrite <- remapOne_mapsOf. unfold remapOne.
  destruct (flat_map (rangeHit u error) (mapsOf u sms)) as [|h hs] eqn:E.
  - apply flat_map_all_le. intros sm. apply pointHit_length.
  - rewrite <- E. apply flat_map_all_le. intros sm. apply rangeHit_length.
Qed.

Lemma sameButRange_withRange error r : sameButRange (withRange error r) error.
Proof. repeat split. Qed.

(** X3.  Remapping changes the range of a diagnostic and nothing else:
    every diagnostic delivered is one of the errors with another range, and
    an error gives at most one diagnostic for each source map of the
    document. *)
Theorem remapping_changes_range_only :
  forall errors virtualScriptUri,
    (forall sourceMaps : list TsSourceMap,
       (forall d, In d (toTsSourceDiags errors virtualScriptUri sourceMaps) ->
                  exists error, In error errors /\ sameButRange d error)
       /\ length (toTsSourceDiags errors virtualScriptUri sourceMaps)
          <= length errors * length (mapsOf virtualScriptUri sourceMaps))
    /\ (forall D (sourceMaps : list (SourceMap D)),
          (forall d, In d (toSourceDiags errors virtualScriptUri sourceMaps) ->
                     exists error, In error errors /\ sameButRange d error)
          /\ length (toSourceDiags errors virtualScriptUri sourceMaps)
             <= length errors * length (mapsOf virtualScriptUri sourceMaps)).
Proof.
  intros errors u. split.
  - intros sms. split.
    + intros d Hd. apply toTsSourceDiags_remapsAsSpecified in Hd
        as (error & sm & Hin & _ & _ & [(vr & _ & ->)|(_ & s & e & _ & _ & ->)]);
        exists error; (split; [assumption|apply sameButRange_withRange]).
    + rewrite toTsSourceDiags_flat_map. apply flat_map_length_le.
      intros error. apply remapOne_length.
  - intros D sms. split.
    + intros d Hd. apply toSourceDiags_remapsWholeRangeOnly in Hd
        as (error & sm & vr & Hin & _ & _ & _ & ->).
      exists error. split; [assumption|apply sameButRange_withRange].
    + rewrite toSourceDiags_flat_map. apply flat_map_length_le. intros error.
      unfold mapsOf. rewrite <- (flat_map_filter_nil _
        (fun sm => String.eqb (mappedDocument_uri sm) u)).
      * apply flat_map_all_le. intros sm. destruct (String.eqb _ _); [|simpl; lia].
        destruct (getSourceRange sm _ _); simpl; lia.
      * intros sm E. now rewrite E.
Qed.

Lemma flat_map_ext_In {A B} (f g : A -> list B) (l : list A) :
  (forall x, In x l -> f x = g x) -> flat_map f l = flat_map g l.
Proof.
  induction l as [|x l IH]; intros H; simpl; [reflexivity|].
  rewrite (H x (or_introl eq_refl)), IH; [reflexivity|]. intros y Hy. apply H. now right.
Qed.

Lemma rangeHit_capable u sms error :
  wholeRangesCapable sms ->
  flat_map (rangeHit u error) sms = toSourceDiags [error] u sms.
Proof.
  intros Hc. rewrite toSourceDiags_flat_map. simpl. rewrite app_nil_r.
  apply flat_map_ext_In. intros sm Hsm. unfold rangeHit, rangeLookup.
  destruct (String.eqb _ _); [|reflexivity].
  destruct (getSourceRange sm _ _) as [vr|] eqn:E; [|reflexivity].
  simpl. now rewrite (Hc _ _ _ _ Hsm E).
Qed.

(** X4.  Where every segment found for a whole range has the [diagnostic]
    capability, the two remapping functions differ by the fallback alone:
    all that [toSourceDiags] delivers, [toTsSourceDiags] delivers too, and
    for an error that [toSourceDiags] does not drop the two give the same
    diagnostics. *)
Theorem remapping_functions_agree_when_capable :
  forall errors virtualScriptUri (sourceMaps : list TsSourceMap),
    wholeRangesCapable sourceMaps ->
    (forall d, In d (toSourceDiags errors virtualScriptUri sourceMaps) ->
               In d (toTsSourceDiags errors virtualScriptUri sourceMaps))
    /\ (forall error,
          toSourceDiags [error] virtualScriptUri sourceMaps <> [] ->
          toTsSourceDiags [error] virtualScriptUri sourceMaps
          = toSourceDiags [error] virtualScriptUri sourceMaps).
Proof.
  intros errors u sms Hc.
  assert (One : forall error, toSourceDiags [error] u sms <> [] ->
            remapOne u sms error = toSourceDiags [error] u sms).
  { intros error Hne. unfold remapOne. rewrite (rangeHit_capable u sms error Hc).
    destruct (toSourceDiags [error] u sms); [contradiction|reflexivity]. }
  split.
  - intros d Hd. rewrite toTsSourceDiags_flat_map. rewrite toSourceDiags_flat_map in Hd.
    apply in_flat_map in Hd as (error & Hin & Hd). apply in_flat_map. exists error.
    split; [assumption|].
    assert (Hd' : In d (toSourceDiags [error] u sms)).
    { rewrite toSourceDiags_flat_map. simpl. now rewrite app_nil_r. }
    rewrite One; [assumption|]. intros E. now rewrite E in Hd'.
  - intros error Hne. rewrite toTsSourceDiags_flat_map. simpl. rewrite app_nil_r.
    now apply One.
Qed.

Lemma remapping_functions_agree_when_capable_witness :
  wholeRangesCapable [lineMap scriptUri 5]
  /\ toTsSourceDiags [Samples.cssError] scriptUri [lineMap scriptUri 5]
     = toSourceDiags [Samples.cssError] scriptUri [lineMap scriptUri 5].
Proof.
  assert (Hc : wholeRangesCapable [lineMap scriptUri 5]).
  { intros sm s e vr [<-|[]] H. simpl in H. injection H as <-. reflexivity. }
  split; [exact Hc|].
  apply (remapping_functions_agree_when_capable [Samples.cssError] scriptUri
           [lineMap scriptUri 5] Hc).
  vm_compute. discriminate.
Defined.

(** ** [update] and [updateTemplateScript] *)

Lemma updateTemplate_fst nd old : fst (updateTemplate nd old) = fst (updateTemplate nd None).
Proof.
  unfold updateTemplate. destruct old as [o|], (sfc_template nd) as [t|]; reflexivity.
Qed.

Lemma updateScript_fst nd old : fst (updateScript nd old) = fst (updateScript nd None).
Proof.
  unfold updateScript. destruct old as [o|], (sfc_script nd) as [t|]; reflexivity.
Qed.

Lemma updateScriptSetup_fst nd old :
  fst (updateScriptSetup nd old) = fst (updateScriptSetup nd None).
Proof.
  unfold updateScriptSetup. destruct old as [o|], (sfc_scriptSetup nd) as [t|]; reflexivity.
Qed.

Lemma updateTemplate_snd nd old :
  snd (updateTemplate nd old) = differs (content <$> old) (b_content <$> sfc_template nd).
Proof.
  unfold updateTemplate. destruct old as [o|], (sfc_template nd) as [t|]; reflexivity.
Qed.

Lemma updateScript_snd nd old :
  snd (updateScript nd old) = differs (sc_content <$> old) (b_content <$> sfc_script nd).
Proof.
  unfold updateScript. destruct old as [o|], (sfc_script nd) as [t|]; reflexivity.
Qed.

Lemma updateScriptSetup_snd nd old :
  snd (updateScriptSetup nd old)
  = differs (content <$> old) (b_content <$> sfc_scriptSetup nd).
Proof.
  unfold updateScriptSetup. destruct old as [o|], (sfc_scriptSetup nd) as [t|]; reflexivity.
Qed.

Lemma updateTemplate_content nd old :
  content <$> fst (updateTemplate nd old) = b_content <$> sfc_template nd.
Proof.
  unfold updateTemplate. destruct old as [o|], (sfc_template nd) as [t|]; reflexivity.
Qed.

Lemma updateScript_content nd old :
  sc_content <$> fst (updateScript nd old) = b_content <$> sfc_script nd.
Proof.
  unfold updateScript. destruct old as [o|], (sfc_script nd) as [t|]; reflexivity.
Qed.

Lemma updateScriptSetup_content nd old :
  content <$> fst (updateScriptSetup nd old) = b_content <$> sfc_scriptSetup nd.
Proof.
  unfold updateScriptSetup. destruct old as [o|], (sfc_scriptSetup nd) as [t|]; reflexivity.
Qed.

Lemma b_content_tagged b blk : b_content (tagged b blk) = b_content blk.
Proof. now destruct b. Qed.

Lemma content_taggedDescriptor P doc r :
  b_content <$> getBlock (taggedDescriptor P doc) r
  = b_content <$> getBlock (vueSfc_parse P (text doc)) r.
Proof.
  unfold taggedDescriptor. rewrite getBlock_tagIgnores.
  destruct (getBlock (vueSfc_parse P (text doc)) r) as [blk|]; simpl; [|reflexivity].
  now rewrite b_content_tagged.
Qed.

Lemma same_length_of_lookups {A B C} (f : A -> C) (g : B -> C) (l : list A) (k : list B) :
  (forall i, f <$> l !! i = g <$> k !! i) -> length l = length k.
Proof.
  intros H.
  assert (Hs : forall i, is_Some (l !! i) <-> is_Some (k !! i)).
  { intros i. rewrite <- (fmap_is_Some f), <- (fmap_is_Some g). now rewrite H. }
  destruct (Nat.lt_trichotomy (length l) (length k)) as [L|[L|L]]; [|exact L|].
  - exfalso. destruct (Hs (length l)) as [_ H2].
    apply lookup_lt_is_Some in H2; [lia|]. apply lookup_lt_is_Some. exact L.
  - exfalso. destruct (Hs (length k)) as [H1 _].
    apply lookup_lt_is_Some in H1; [lia|]. apply lookup_lt_is_Some. exact L.
Qed.

(** X5.  The sections after [update] are those of the new document, whatever
    the sections were before; and a second [update] with the same document
    reports no section as changed. *)
Theorem update_sections_follow_document :
  forall P G newVueDocument s s',
    descriptor (fst (update P G newVueDocument s))
    = descriptor (fst (update P G newVueDocument s'))
    /\ lastUpdateChanged
         (fst (update P G newVueDocument (fst (update P G newVueDocument s))))
       = {| luc_template := false; luc_script := false; luc_scriptSetup := false |}.
Proof.
  intros P G doc s s'. split.
  - rewrite !update_descriptor. cbv zeta.
    rewrite (updateTemplate_fst _ (template (descriptor s))),
      (updateTemplate_fst _ (template (descriptor s'))),
      (updateScript_fst _ (script (descriptor s))),
      (updateScript_fst _ (script (descriptor s'))),
      (updateScriptSetup_fst _ (scriptSetup (descriptor s))),
      (updateScriptSetup_fst _ (scriptSetup (descriptor s'))).
    unfold updateStyles, updateCustomBlocks. now rewrite !mergeSlots_map.
  - rewrite update_lastUpdateChanged. cbv zeta.
    rewrite updateTemplate_snd, updateScript_snd, updateScriptSetup_snd.
    rewrite update_descriptor. cbv zeta. cbn [template script scriptSetup].
    rewrite updateTemplate_content, updateScript_content, updateScriptSetup_content.
    now rewrite !differs_same.
Qed.

(** X6.  [updateStyles] and [updateCustomBlocks] overwrite, push and pop
    slot by slot; what is left after [update] is one slot for each block of
    the new document, in the order of the blocks, however many slots there
    were before. *)
Theorem update_styles_and_custom_blocks :
  forall P G newVueDocument s,
    let newDescriptor := taggedDescriptor P newVueDocument in
    let after := descriptor (fst (update P G newVueDocument s)) in
    styles after = map styleData (sfc_styles newDescriptor)
    /\ customBlocks after = map customBlockData (sfc_customBlocks newDescriptor)
    /\ length (styles after) = length (sfc_styles (vueSfc_parse P (text newVueDocument)))
    /\ length (customBlocks after)
       = length (sfc_customBlocks (vueSfc_parse P (text newVueDocument))).
Proof.
  intros P G doc s nd after. subst after. rewrite update_descriptor. cbv zeta.
  cbn [styles customBlocks]. unfold updateStyles, updateCustomBlocks.
  rewrite !mergeSlots_map. fold nd. repeat split; rewrite length_map.
  - apply (same_length_of_lookups b_content b_content). intros i.
    apply (content_taggedDescriptor P doc (RefStyle i)).
  - apply (same_length_of_lookups b_content b_content). intros i.
    apply (content_taggedDescriptor P doc (RefCustomBlock i)).
Qed.

(** X7.  A section counts as changed exactly when its content differs from
    the content of the block parsed from the new document, or when one of
    the two is missing: language, position and the ignore marker play no
    part. *)
Theorem update_changed_flags :
  forall P G newVueDocument s,
    let parsed := vueSfc_parse P (text newVueDocument) in
    lastUpdateChanged (fst (update P G newVueDocument s))
    = {| luc_template :=
           differs (content <$> template (descriptor s)) (b_content <$> sfc_template parsed);
         luc_script :=
           differs (sc_content <$> script (descriptor s)) (b_content <$> sfc_script parsed);
         luc_scriptSetup :=
           differs (content <$> scriptSetup (descriptor s))
                   (b_content <$> sfc_scriptSetup parsed) |}.
Proof.
  intros P G doc s parsed. rewrite update_lastUpdateChanged. cbv zeta.
  rewrite updateTemplate_snd, updateScript_snd, updateScriptSetup_snd.
  pose proof (content_taggedDescriptor P doc RefTemplate) as H1.
  pose proof (content_taggedDescriptor P doc RefScript) as H2.
  pose proof (content_taggedDescriptor P doc RefScriptSetup) as H3.
  simpl in H1, H2, H3. now rewrite H1, H2, H3.
Qed.

(** X8.  After [update] the stored document has the text of the new
    document; the stored document itself, with its version, is replaced
    only when the text differs. *)
Theorem update_stored_document :
  forall P G newVueDocument s,
    let after := fst (update P G newVueDocument s) in
    text (vueDoc after) = text newVueDocument
    /\ (text newVueDocument = text (vueDoc s) -> vueDoc after = vueDoc s)
    /\ (text newVueDocument <> text (vueDoc s) -> vueDoc after = newVueDocument).
Proof.
  intros P G doc s after. subst after. unfold update. simpl.
  destruct (updateTemplate _ _) as [t tc].
  destruct (updateScript _ _) as [sc scc].
  destruct (updateScriptSetup _ _) as [ss ssc]. simpl.
  destruct (String.eqb_spec (text doc) (text (vueDoc s))) as [E|E]; simpl.
  - split; [now rewrite E|]. split; [reflexivity|]. intros H. now destruct H.
  - split; [reflexivity|]. split; [|reflexivity]. intros H. now destruct E.
Qed.

(** X9.  [updateTemplateScript] leaves the project version of the engine in
    the snapshot, so that a second call, with the engine unchanged, does
    nothing and reports no change. *)
Theorem updateTemplateScript_twice :
  forall ls G T s,
    let after := fst (updateTemplateScript ls G T s) in
    projectVersion (templateScriptData after) = getProjectVersion ls
    /\ updateTemplateScript ls G T after = (after, false).
Proof.
  intros ls G T s after.
  assert (H : projectVersion (templateScriptData after) = getProjectVersion ls).
  { subst after. unfold updateTemplateScript.
    case_bool_decide as E; [exact E|].
    destruct (_ && _); reflexivity. }
  split; [exact H|].
  unfold updateTemplateScript at 1. now rewrite bool_decide_eq_true_2.
Qed.

(** ** The producers *)

Lemma toTsSourceDiags_sameButRange errors u sms d :
  In d (toTsSourceDiags errors u sms) ->
  exists error, In error errors /\ sameButRange d error.
Proof.
  intros Hd. apply toTsSourceDiags_remapsAsSpecified in Hd
    as (error & sm & Hin & _ & _ & [(vr & _ & ->)|(_ & s & e & _ & _ & ->)]);
    exists error; (split; [assumption|apply sameButRange_withRange]).
Qed.

Lemma toTsSourceDiags_nil u sms : toTsSourceDiags [] u sms = [].
Proof. reflexivity. Qed.

Lemma toTsSourceDiags_no_maps errors u : toTsSourceDiags errors u [] = [].
Proof.
  rewrite toTsSourceDiags_flat_map. induction errors as [|e es IH]; [reflexivity|exact IH].
Qed.

(** X10.  The pass for unused symbols delivers only diagnostics tagged
    [Unnecessary], each of them a semantic error of the document for
    suggestions with another range; it delivers nothing when neither
    [noUnusedLocals] nor [noUnusedParameters] is set, and nothing without
    that document. *)
Theorem unused_pass_delivers_unnecessary_only :
  forall w,
    (forall d, In d (producer ScriptUnusedValidation w) ->
       isUnnecessary d = true
       /\ exists doc error,
            textDocumentForSuggestion w = Some doc
            /\ In error (doValidation (tsLanguageService w) (uri doc) Semantic)
            /\ isUnnecessary error = true
            /\ sameButRange d error)
    /\ (anyNoUnusedEnabled w = false -> producer ScriptUnusedValidation w = [])
    /\ (textDocumentForSuggestion w = None -> producer ScriptUnusedValidation w = []).
Proof.
  intros w. cbn [producer]. unfold useScriptValidation. split; [|split].
  - intros d Hd. destruct (ignoreScriptCheck w); [destruct Hd|].
    destruct (anyNoUnusedEnabled w); [|destruct Hd].
    destruct (textDocumentForSuggestion w) as [doc|]; [|destruct Hd].
    apply filter_In in Hd as [Hd Hu]. split; [exact Hu|].
    apply toTsSourceDiags_sameButRange in Hd as (error & Hin & Hs).
    exists doc, error. repeat split; try assumption; try apply Hs.
    unfold isUnnecessary in *. destruct Hs as (_ & _ & _ & _ & <-). exact Hu.
  - intros ->. now destruct (ignoreScriptCheck w).
  - intros ->. destruct (ignoreScriptCheck w); [reflexivity|].
    now destruct (anyNoUnusedEnabled w).
Qed.

(** X11.  The check for the generated script delivers only warnings of
    [volar] with the fixed message, each over the script or the
    script-setup block of the component; it delivers at most one for each
    of the two, and none when the script engine knows the generated
    script. *)
Theorem script_exist_validation_warns_per_block :
  forall w,
    let desc := descriptor (sourceFile w) in
    let at_ (l : Loc) :=
      {| r_start := positionAt (vueDoc (sourceFile w)) (start l);
         r_end := positionAt (vueDoc (sourceFile w)) (end_ l) |} in
    (forall d, In d (producer ScriptExistValidation w) ->
       severity d = Some SevWarning /\ source d = Some "volar"
       /\ message d = scriptMissingMessage
       /\ (range d ∈ at_ <$> optList (sc_loc <$> script desc)
                      ++ optList (loc <$> scriptSetup desc)))
    /\ length (producer ScriptExistValidation w)
       <= length (optList (script desc)) + length (optList (scriptSetup desc))
    /\ (forall doc known,
          textDocument (virtualScriptGen (sourceFile w)) = Some doc ->
          getTextDocument2 (tsLanguageService w) (uri doc) = Some known ->
          producer ScriptExistValidation w = []).
Proof.
  intros w desc at_. cbn [producer]. unfold useScriptExistValidation. fold desc.
  destruct (ignoreScriptCheck w).
  { split; [intros d []|]. split; [simpl; lia|reflexivity]. }
  destruct (textDocument (virtualScriptGen (sourceFile w))) as [doc|].
  2:{ split; [intros d []|]. split; [simpl; lia|reflexivity]. }
  destruct (getTextDocument2 (tsLanguageService w) (uri doc)) as [known|] eqn:E.
  { split; [intros d []|]. split; [simpl; lia|reflexivity]. }
  split; [|split].
  - intros d Hd. destruct (script desc) as [sc|], (scriptSetup desc) as [ss|];
      simpl in Hd; repeat (destruct Hd as [<-|Hd]); try destruct Hd; simpl;
      repeat split; set_solver.
  - destruct (script desc), (scriptSetup desc); simpl; lia.
  - intros doc' known' [= <-] H. rewrite E in H. discriminate H.
Qed.

Lemma stylesErrors_validated w documents :
  stylesErrors w documents
  = fold_left (fun result d =>
      match validated w d with
      | Some errs => mapSet (uri (sd_textDocument d)) errs result
      | None => result
      end) documents [].
Proof.
  unfold stylesErrors. generalize (@nil (string * list Diagnostic)).
  induction documents as [|d ds IH]; intros acc; [reflexivity|]. simpl. rewrite IH.
  f_equal. unfold validated. destruct (orDefault (sd_ignore d) false); [reflexivity|].
  destruct (getCssLanguageService w _); [|reflexivity].
  now destruct (sd_stylesheet d).
Qed.

Lemma mapSet_keys {V} k (v : V) m :
  map fst (mapSet k v m)
  = if bool_decide (k ∈ map fst m) then map fst m else map fst m ++ [k].
Proof.
  induction m as [|[k' v'] m IH].
  - case_bool_decide as E; [|reflexivity]. now apply elem_of_nil in E.
  - cbn [mapSet]. destruct (String.eqb_spec k' k) as [->|Hne]; cbn [map fst].
    + clear IH. case_bool_decide as E; [reflexivity|]. destruct E. apply elem_of_cons.
      now left.
    + rewrite IH. clear IH. case_bool_decide as E; case_bool_decide as E'; try reflexivity.
      * destruct E'. apply elem_of_cons. now right.
      * apply elem_of_cons in E' as [H|H]; [now symmetry in H|contradiction].
Qed.

Lemma mapSet_NoDup {V} k (v : V) m : NoDup (map fst m) -> NoDup (map fst (mapSet k v m)).
Proof.
  intros H. rewrite mapSet_keys. case_bool_decide as E; [exact H|].
  apply NoDup_app. split; [exact H|]. split; [|apply NoDup_singleton].
  intros x Hx ->%list_elem_of_singleton. contradiction.
Qed.

Lemma mapSet_In {V} k (v : V) m u e :
  NoDup (map fst m) ->
  In (u, e) (mapSet k v m) <-> (u = k /\ e = v) \/ (u <> k /\ In (u, e) m).
Proof.
  induction m as [|[k' v'] m IH]; simpl; intros Hnd.
  - split.
    + intros [[= <- <-]|[]]. now left.
    + intros [[-> ->]|[_ []]]. now left.
  - apply NoDup_cons in Hnd as [Hk' Hnd]. destruct (String.eqb_spec k' k) as [->|Hne]; simpl.
    + split.
      * intros [[= <- <-]|H]; [now left|]. right. split; [|now right].
        intros ->. apply Hk'. apply list_elem_of_In. apply (in_map fst) in H. exact H.
      * intros [[-> ->]|[Hu [[= <- _]|H]]]; [now left|contradiction|now right].
    + rewrite (IH Hnd). split.
      * intros [[= <- <-]|[H|[Hu H]]]; [right; split; [exact Hne|now left]|now left|].
        right. split; [exact Hu|now right].
      * intros [H|[Hu [[= <- <-]|H]]]; [right; now left|now left|].
        right. right. now split.
Qed.

Lemma last_snoc_option {A} (l : list A) (x : option A) :
  last (l ++ optList x) = match x with Some a => Some a | None => last l end.
Proof.
  destruct x as [a|]; simpl; [apply last_snoc|now rewrite app_nil_r].
Qed.

(** X12.  The style check keeps one entry for each uri, that of the last
    style document with this uri that was checked: a document that is
    ignored, has no language service or no stylesheet, or gets no answer,
    neither adds an entry nor removes one. *)
Theorem styles_errors_last_document_wins :
  forall w documents,
    NoDup (map fst (stylesErrors w documents))
    /\ forall u errs,
         In (u, errs) (stylesErrors w documents) <-> lastValidated w u documents = Some errs.
Proof.
  intros w documents. rewrite stylesErrors_validated.
  induction documents as [|d ds IH] using rev_ind.
  - split; [apply NoDup_nil_2|]. intros u errs. split; [intros []|discriminate].
  - rewrite fold_left_app. cbn [fold_left]. destruct IH as [Hnd IH].
    set (r := fold_left _ ds []) in *.
    assert (Hlast : forall u, lastValidated w u (ds ++ [d])
              = match (if String.eqb (uri (sd_textDocument d)) u then validated w d
                       else None) with
                | Some a => Some a
                | None => lastValidated w u ds
                end).
    { intros u. unfold lastValidated. rewrite omap_app. cbn [omap list_omap].
      exact (last_snoc_option _ (if String.eqb _ u then validated w d else None)). }
    destruct (validated w d) as [e|] eqn:Ev.
    + split; [now apply mapSet_NoDup|]. intros u errs. rewrite (mapSet_In _ _ _ _ _ Hnd).
      rewrite Hlast. destruct (String.eqb_spec (uri (sd_textDocument d)) u) as [Hu|Hu].
      * split; [intros [[_ ->]|[H _]]; [reflexivity|now destruct H]|].
        intros [= ->]. left. split; [now symmetry|reflexivity].
      * rewrite <- IH. split; [intros [[H _]|[_ H]]; [now destruct Hu|exact H]|].
        intros H. right. split; [intros H'; now destruct Hu|exact H].
    + split; [exact Hnd|]. intros u errs. rewrite Hlast, IH.
      now destruct (String.eqb _ u).
Qed.

(** X13.  A producer whose generated document is missing delivers nothing:
    the script passes without the generated script, the template-script
    passes without the template script, the template check without the
    template document, and the style check without style documents. *)
Theorem producers_without_documents :
  forall w,
    (textDocument (virtualScriptGen (sourceFile w)) = None ->
       producer ScriptValidation1 w = [] /\ producer ScriptValidation2 w = []
       /\ producer ScriptExistValidation w = []
       /\ (textDocumentForSuggestion w = None -> producer ScriptValidation3 w = []))
    /\ (textDocument (virtualTemplateGen (sourceFile w)) = None ->
          producer TemplateScriptValidation1 w = []
          /\ producer TemplateScriptValidation2 w = []
          /\ producer TemplateScriptValidation3 w = [])
    /\ (tr_textDocument (virtualTemplateRaw w) = None -> producer TemplateValidation w = [])
    /\ (virtualStyles_textDocuments w = [] -> producer StylesValidation w = []).
Proof.
  intros w.
  split; [intros H|split; [intros H|split; intros H]]; repeat split; cbn [producer];
    unfold useScriptValidation, useScriptExistValidation, useTemplateScriptValidation,
      useTemplateValidation, useStylesValidation, errors_2.
  - rewrite H. now destruct (ignoreScriptCheck w).
  - rewrite H. now destruct (ignoreScriptCheck w).
  - rewrite H. now destruct (ignoreScriptCheck w).
  - intros H0. rewrite H, H0. now destruct (ignoreScriptCheck w).
  - rewrite H. destruct (ignoreTemplateCheck w); [reflexivity|].
    now destruct (textDocument (virtualScriptGen (sourceFile w))).
  - rewrite H. destruct (ignoreTemplateCheck w); [reflexivity|].
    now destruct (textDocument (virtualScriptGen (sourceFile w))).
  - rewrite H. destruct (ignoreTemplateCheck w); [reflexivity|].
    now destruct (textDocument (virtualScriptGen (sourceFile w))).
  - rewrite H. now destruct (ignoreTemplateCheck w).
  - now rewrite H.
Qed.

Lemma typeProducer_no_maps p w :
  typeProducer p = true -> tsSourceMaps w = [] -> producer p w = [].
Proof.
  intros Hp Hm. destruct p; try discriminate Hp; cbn [producer];
    unfold useScriptValidation, useTemplateScriptValidation; rewrite Hm;
    repeat match goal with
           | |- context [if ?b then _ else _] => destruct b
           | |- context [match ?x with Some _ => _ | None => _ end] => destruct x
           end;
    rewrite ?toTsSourceDiags_no_maps; reflexivity.
Qed.

(** X14.  In dts mode [tsSourceMaps] is empty, and with it every producer
    that reports what the script engine finds delivers nothing; outside
    dts mode [tsSourceMaps] holds the source maps that exist, those of the
    script generator first. *)
Theorem dts_mode_silences_type_producers :
  forall v w p,
    (dtsMode v = Some true ->
       Computed.tsSourceMaps v = []
       /\ (typeProducer p = true ->
           producer p (withTsSourceMaps (Computed.tsSourceMaps v) w) = []))
    /\ (orDefault (dtsMode v) false = false ->
          forall sm, In sm (Computed.tsSourceMaps v) <->
            In (Some sm) [virtualScriptGen_sourceMap v;
                          virtualScriptGen_sourceMapForSuggestion v;
                          virtualScriptGen_sourceMapForTemplate v;
                          virtualScriptMain_sourceMap v;
                          virtualTemplateGen_sourceMap v]).
Proof.
  intros v w p. split.
  - intros Hd. assert (E : Computed.tsSourceMaps v = []).
    { unfold Computed.tsSourceMaps. now rewrite Hd. }
    split; [exact E|]. intros Hp. apply typeProducer_no_maps; [exact Hp|]. now rewrite E.
  - intros Hd sm. unfold Computed.tsSourceMaps, notEmpty. rewrite Hd.
    rewrite <- list_elem_of_In, list_elem_of_omap. split.
    + intros (x & Hx & Hsm). simpl in Hsm. subst x. now apply list_elem_of_In.
    + intros H. exists (Some sm). split; [now apply list_elem_of_In|reflexivity].
Qed.

(** ** The run *)

Lemma insertBy_sorted {A} (key : A -> Z) x (l : list A) :
  StronglySorted (fun a b => (key a <= key b)%Z) l ->
  StronglySorted (fun a b => (key a <= key b)%Z) (insertBy key x l).
Proof.
  induction 1 as [|y l Hl IH Hy]; simpl; [repeat constructor|].
  destruct (Z.leb_spec (key x) (key y)) as [Hle|Hlt].
  - constructor; [now constructor|]. constructor; [exact Hle|].
    eapply Forall_impl; [exact Hy|]. simpl. intros a Ha. lia.
  - constructor; [exact IH|].
    apply Forall_forall. intros a Ha. apply list_elem_of_In in Ha.
    apply (Permutation_in _ (insertBy_perm key x l)) in Ha as [<-|Ha]; [lia|].
    rewrite Forall_forall in Hy. apply Hy. now apply list_elem_of_In.
Qed.

Lemma sortBy_sorted {A} (key : A -> Z) (l : list A) :
  StronglySorted (fun a b => (key a <= key b)%Z) (sortBy key l).
Proof.
  induction l as [|x l IH]; simpl; [constructor|]. now apply insertBy_sorted.
Qed.

Lemma insertBy_stable {A} (key : A -> Z) (c : Z) x (l : list A) :
  List.filter (fun a => (key a =? c)%Z) (insertBy key x l)
  = List.filter (fun a => (key a =? c)%Z) (x :: l).
Proof.
  induction l as [|y l IH]; [reflexivity|]. cbn [insertBy].
  destruct (Z.leb_spec (key x) (key y)) as [Hle|Hlt]; [reflexivity|].
  cbn [List.filter] in *. rewrite IH.
  destruct (Z.eqb_spec (key y) c) as [Hy|Hy], (Z.eqb_spec (key x) c) as [Hx|Hx];
    try reflexivity. lia.
Qed.

Lemma sortBy_stable {A} (key : A -> Z) (c : Z) (l : list A) :
  List.filter (fun a => (key a =? c)%Z) (sortBy key l)
  = List.filter (fun a => (key a =? c)%Z) l.
Proof.
  induction l as [|x l IH]; [reflexivity|]. cbn [sortBy fold_right].
  fold (sortBy key l). rewrite insertBy_stable. cbn [List.filter]. now rewrite IH.
Qed.

Lemma schedule_families withSideEffect st :
  templateTs (fst (schedule withSideEffect st)) = sortedTemplateTs st
  /\ scriptTs (fst (schedule withSideEffect st)) = sortedScriptTs st
  /\ world (fst (schedule withSideEffect st)) = world st
  /\ tsProjectVersion (fst (schedule withSideEffect st))
     = getProjectVersion (tsLanguageService (world st)).
Proof.
  unfold schedule. cbv zeta.
  destruct (luc_script (lastUpdateChanged (sourceFile (world st)))),
    (luc_scriptSetup (lastUpdateChanged (sourceFile (world st)))),
    (luc_template (lastUpdateChanged (sourceFile (world st)))), withSideEffect;
    repeat split.
Qed.

(** X15.  A run leaves each of the two families sorted by the cost its
    producers had at the start of the run, cheapest first; the sort
    neither adds nor drops a producer, and producers of equal cost keep
    their order. *)
Theorem families_sorted_by_cost :
  forall withSideEffect st,
    let cost := fun p => snd (records st p) in
    let after := fst (schedule withSideEffect st) in
    (ascending cost (templateTs after) /\ ascending cost (scriptTs after))
    /\ (Permutation (templateTs after) (templateTs st)
        /\ Permutation (scriptTs after) (scriptTs st))
    /\ (forall c, costing cost c (templateTs after) = costing cost c (templateTs st)
                  /\ costing cost c (scriptTs after) = costing cost c (scriptTs st))
    /\ (wellFormed st -> wellFormed after).
Proof.
  intros withSideEffect st cost after.
  destruct (schedule_families withSideEffect st) as (Ht & Hs & _ & _).
  subst after. rewrite Ht, Hs. unfold sortedTemplateTs, sortedScriptTs, ascending, costing.
  fold cost. split; [split; apply sortBy_sorted|].
  split; [split; apply sortBy_perm|].
  split; [intros c; split; apply sortBy_stable|].
  intros [H1 H2]. split; cbn.
  - rewrite Ht. unfold sortedTemplateTs. now rewrite sortBy_perm.
  - rewrite Hs. unfold sortedScriptTs. now rewrite sortBy_perm.
Qed.

Lemma runLoop_final {K} all keep rest :
  forall (k : K) st,
    let final := snd (snd (runLoop None all keep rest k st)) in
    world final = world st
    /\ tsProjectVersion final = tsProjectVersion st
    /\ templateTs final = templateTs st
    /\ scriptTs final = scriptTs st
    /\ (forall p, In p rest ->
          records final p = (producer p (world st), elapsed (world st) p))
    /\ (forall p, ~ In p rest -> records final p = records st p)
    /\ length (fst (runLoop None all keep rest k st)) = 2 * length rest
    /\ (rest <> [] ->
        last (fst (runLoop None all keep rest k st))
        = Some (Response (withDiagnostics (results all keep final)), final)).
Proof.
  induction rest as [|p rest IH]; intros k st; cbn zeta.
  - simpl. repeat split; tauto.
  - cbn [runLoop].
    specialize (IH k (setRecord p (producer p (world st), elapsed (world st) p) st)).
    cbn zeta in IH.
    destruct (runLoop None all keep rest k _) as [events [k' final]] eqn:E.
    cbn [fst snd] in *. destruct IH as (Hw & Hv & Ht & Hs & Hin & Hout & Hlen & Hlast).
    cbn [setRecord world tsProjectVersion templateTs scriptTs records] in *.
    repeat split; try assumption.
    + intros q [<-|Hq].
      * destruct (in_dec ProducerId_eq_dec p rest) as [Hp|Hp]; [now apply Hin|].
        rewrite (Hout p Hp). now rewrite bool_decide_eq_true_2.
      * now apply Hin.
    + intros q Hq. rewrite Hout by (intros H; apply Hq; now right).
      rewrite bool_decide_eq_false_2; [reflexivity|]. intros ->. apply Hq. now left.
    + cbn [app length]. rewrite Hlen. lia.
    + intros _. cbn [app]. destruct rest as [|r rest].
      * cbn [runLoop] in E. injection E as <- <- <-. reflexivity.
      * destruct events as [|ev events]; [discriminate Hlen|].
        change (last (ev :: events)
                = Some (Response (withDiagnostics (results all keep final)), final)).
        now apply Hlast.
Qed.

Lemma allOf_nonTs withSideEffect st :
  exists more, allOf withSideEffect st = nonTs ++ more.
Proof.
  destruct (schedule_cases withSideEffect st) as (H1 & H2 & H3).
  destruct (luc_script (lastUpdateChanged (sourceFile (world st)))
            || luc_scriptSetup (lastUpdateChanged (sourceFile (world st)))) eqn:E1.
  - destruct (H1 eq_refl) as [-> _]. eauto.
  - destruct (luc_template (lastUpdateChanged (sourceFile (world st)))) eqn:E2.
    + destruct (H2 eq_refl eq_refl) as [-> _]. eauto.
    + destruct (H3 eq_refl eq_refl) as [-> _]. eauto.
Qed.


Lemma runLoop_cancel_prefix {K} (isCancel : IsCancel K) all keep rest :
  passive isCancel ->
  forall (k k0 : K) st,
    unpolled (fst (runLoop (Some isCancel) all keep rest k st))
      `prefix_of` fst (runLoop None all keep rest k0 st).
Proof.
  intros Hpassive. induction rest as [|p rest IH]; intros k k0 st; [reflexivity|].
  cbn [runLoop]. pose proof (Hpassive k st) as Hst.
  destruct (isCancel k st) as [[k' st'] b]. cbn [fst snd] in Hst. subst st'.
  destruct b; [apply prefix_nil|].
  specialize (IH k' k0 (setRecord p (producer p (world st), elapsed (world st) p) st)).
  destruct (runLoop (Some isCancel) all keep rest k' _) as [events final].
  destruct (runLoop None all keep rest k0 _) as [events0 final0].
  cbn [fst app unpolled List.filter] in *.
  now do 2 apply prefix_cons.
Qed.

(** X29.  Cancelling only cuts a run short: with a callback that leaves
    the state alone while it is awaited, what a run evaluates and responds
    is, step by step and in the same states, the beginning of what the run
    without callback evaluates and responds. *)
Theorem cancelled_run_is_prefix_of_complete_run :
  forall (K : Type) (isCancel : IsCancel K) withSideEffect (k k0 : K) st,
    passive isCancel ->
    unpolled (fst (getDiagnostics (Some isCancel) withSideEffect k st))
      `prefix_of` fst (getDiagnostics None withSideEffect k0 st).
Proof.
  intros K isCancel withSideEffect k k0 st Hpassive.
  rewrite !getDiagnostics_runLoop. now apply runLoop_cancel_prefix.
Qed.

Lemma cancelled_run_is_prefix_of_complete_run_witness :
  passive cancelAtThird
  /\ unpolled (fst (getDiagnostics (Some cancelAtThird) true 0 (appState appSourceFile)))
       `prefix_of` fst (getDiagnostics None true 0 (appState appSourceFile)).
Proof.
  assert (H : passive cancelAtThird) by (intros k st; reflexivity).
  split; [exact H|].
  apply (cancelled_run_is_prefix_of_complete_run nat cancelAtThird true 0 0
           (appState appSourceFile) H).
Defined.

(** X30.  After a second [update] with the same document no section
    counts as changed, so the next run evaluates the style check, the
    template check and the script check first; without side-effect
    producers it evaluates nothing else and holds both families, the
    script family before the template family. *)
Theorem run_after_unchanged_update :
  forall P G newVueDocument s st withSideEffect,
    sourceFile (world st)
    = fst (update P G newVueDocument (fst (update P G newVueDocument s))) ->
    allOf withSideEffect st
    = nonTs ++ (if withSideEffect then sortedScriptTs st ++ sortedTemplateTs st else [])
    /\ keepOf withSideEffect st
       = (if withSideEffect then [] else sortedScriptTs st ++ sortedTemplateTs st)
    /\ forall K (k : K),
         computedOf (fst (getDiagnostics None false k st)) = nonTs.
Proof.
  intros P G doc s st withSideEffect Hsf.
  assert (Hluc : lastUpdateChanged (sourceFile (world st))
                 = {| luc_template := false; luc_script := false;
                      luc_scriptSetup := false |}).
  { rewrite Hsf, update_lastUpdateChanged. cbv zeta.
    rewrite updateTemplate_snd, updateScript_snd, updateScriptSetup_snd.
    rewrite update_descriptor. cbv zeta. cbn [template script scriptSetup].
    rewrite updateTemplate_content, updateScript_content, updateScriptSetup_content.
    now rewrite !differs_same. }
  assert (Hcases : forall b,
            allOf b st = nonTs ++ (if b then sortedScriptTs st ++ sortedTemplateTs st else [])
            /\ keepOf b st = (if b then [] else sortedScriptTs st ++ sortedTemplateTs st)).
  { intros b. destruct (schedule_cases b st) as (_ & _ & H3). cbv zeta in H3.
    rewrite Hluc in H3. exact (H3 eq_refl eq_refl). }
  destruct (Hcases withSideEffect) as [Hall Hkeep].
  split; [exact Hall|]. split; [exact Hkeep|].
  intros K k. rewrite getDiagnostics_runLoop, runLoop_computed_all.
  destruct (Hcases false) as [-> _]. apply app_nil_r.
Qed.

Lemma run_after_unchanged_update_witness :
  sourceFile (world savedAgain)
  = fst (update appParsers appGenerators appDocument
           (fst (update appParsers appGenerators appDocument freshSourceFile)))
  /\ allOf false savedAgain = nonTs.
Proof.
  assert (H : sourceFile (world savedAgain)
              = fst (update appParsers appGenerators appDocument
                       (fst (update appParsers appGenerators appDocument freshSourceFile))))
    by reflexivity.
  split; [exact H|].
  rewrite <- (app_nil_r nonTs).
  apply (run_after_unchanged_update appParsers appGenerators appDocument freshSourceFile
           savedAgain false H).
Defined.

(** ** [tsDocuments], [getVueCompileErrors], [useComponentCompletionData] *)

Lemma setDocument_lookup doc docs u x :
  setDocument doc docs !! u = Some x ->
  (doc = Some x /\ uri x = u) \/ docs !! u = Some x.
Proof.
  destruct doc as [d|]; simpl; [|now right].
  intros [[<- <-]|[_ H]]%lookup_insert_Some; [now left|now right].
Qed.

Lemma setDocument_is_Some doc docs u :
  is_Some (docs !! u) -> is_Some (setDocument doc docs !! u).
Proof.
  destruct doc as [d|]; simpl; [|trivial]. intros H.
  destruct (decide (uri d = u)) as [<-|Hne].
  - rewrite lookup_insert_eq. eauto.
  - now rewrite lookup_insert_ne.
Qed.

(** X17.  [tsDocuments] holds every document under its own uri.  In dts
    mode it holds the raw script document and nothing else; outside dts
    mode it holds generated documents only, and always one under the uri
    of the main script. *)
Theorem tsDocuments_by_uri :
  forall v,
    (forall u doc, Computed.tsDocuments v !! u = Some doc ->
       uri doc = u
       /\ (if orDefault (dtsMode v) false
           then virtualScriptRaw_textDocument v = Some doc
           else In (Some doc) (generatedDocuments v)))
    /\ (orDefault (dtsMode v) false = true ->
        Computed.tsDocuments v
        = match virtualScriptRaw_textDocument v with
          | Some doc => {[ uri doc := doc ]}
          | None => ∅
          end)
    /\ (orDefault (dtsMode v) false = false ->
        is_Some (Computed.tsDocuments v !! uri (virtualScriptMain_textDocument v))).
Proof.
  intros v. unfold Computed.tsDocuments, generatedDocuments. cbv zeta.
  destruct (orDefault (dtsMode v) false) eqn:Hd.
  - split; [|split; [|discriminate]].
    + intros u doc H. apply setDocument_lookup in H as [[H1 H2]|H]; [now split|].
      now rewrite lookup_empty in H.
    + intros _. destruct (virtualScriptRaw_textDocument v) as [d|]; simpl; [|reflexivity].
      now rewrite insert_empty.
  - split; [|split; [discriminate|]].
    + intros u doc H.
      repeat (apply setDocument_lookup in H as [[H1 H2]|H];
              [split; [exact H2|]; rewrite <- H1; simpl; tauto|]).
      now rewrite lookup_empty in H.
    + intros _. do 4 apply setDocument_is_Some. simpl. rewrite lookup_insert_eq. eauto.
Qed.

Lemma fold_left_located doc (errors : list CompilerError) (acc : list Diagnostic) :
  fold_left (fun result err =>
    match err_loc err with
    | None => result
    | Some l => result ++ [Template.diagnosticOf doc err l]
    end) errors acc
  = acc ++ map (fun '(err, l) => Template.diagnosticOf doc err l) (located errors).
Proof.
  revert acc. induction errors as [|e es IH]; intros acc; simpl.
  - now rewrite app_nil_r.
  - rewrite IH. unfold located. cbn [omap list_omap].
    destruct (err_loc e) as [l|]; simpl; [|reflexivity]. now rewrite <- app_assoc.
Qed.

Lemma fold_left_objects doc (errors : list (string + CompilerError)) (acc : list Diagnostic) :
  fold_left (fun result err =>
    match err with
    | inl _ => result
    | inr err =>
        match err_loc err with
        | None => result
        | Some l => result ++ [Template.diagnosticOf doc err l]
        end
    end) errors acc
  = acc ++ map (fun '(err, l) => Template.diagnosticOf doc err l) (located (objects errors)).
Proof.
  revert acc. induction errors as [|e es IH]; intros acc; simpl.
  - now rewrite app_nil_r.
  - rewrite IH. unfold located, objects. cbn [omap list_omap].
    destruct e as [s|e]; simpl; [reflexivity|].
    destruct (err_loc e) as [l|]; simpl; [|reflexivity]. now rewrite <- app_assoc.
Qed.

(** X18.  Every diagnostic of [getVueCompileErrors] is an error of source
    [vue].  Errors without a location, and errors that are strings, are
    left out; the others come in order, those handed to [onError] first.
    When the compiler throws, what it reported before is kept and one
    diagnostic over the whole document, with the message thrown, follows. *)
Theorem vue_compile_errors_are_located_errors :
  forall (compileTemplate : TemplateCompiler) doc,
    let result := Template.getVueCompileErrors compileTemplate doc in
    let reported := fst (compileTemplate (text doc)) in
    let diagnostics := map (fun '(err, l) => Template.diagnosticOf doc err l) in
    (forall d, In d result ->
       severity d = Some SevError /\ source d = Some "vue" /\ tags d = None)
    /\ (forall errors,
          snd (compileTemplate (text doc)) = Compiled errors ->
          result = diagnostics (located reported ++ located (objects errors)))
    /\ (forall thrownCode thrownMessage,
          snd (compileTemplate (text doc)) = Thrown thrownCode thrownMessage ->
          exists d,
            result = diagnostics (located reported) ++ [d]
            /\ message d = thrownMessage /\ code d = thrownCode
            /\ range d = {| r_start := positionAt doc 0;
                            r_end := positionAt doc (String.length (text doc)) |}).
Proof.
  intros compileTemplate doc result reported diagnostics.
  subst result reported. unfold Template.getVueCompileErrors.
  destruct (compileTemplate (text doc)) as [reported templateResult]. cbn [fst snd].
  rewrite fold_left_located. cbn [app].
  assert (Hd : forall l d, In d (diagnostics l) ->
            severity d = Some SevError /\ source d = Some "vue" /\ tags d = None).
  { intros l d Hin. apply in_map_iff in Hin as ([err loc] & <- & _). repeat split. }
  destruct templateResult as [errors|thrownCode thrownMessage].
  - rewrite fold_left_objects. fold diagnostics. split; [|split].
    + intros d [H|H]%in_app_iff; eapply Hd; exact H.
    + intros errors' [= <-]. subst diagnostics. cbv beta. now rewrite map_app.
    + intros c m [=].
  - fold diagnostics. split; [|split].
    + intros d [H|[<-|[]]]%in_app_iff; [eapply Hd; exact H|repeat split].
    + intros errors [=].
    + intros c m [= <- <-]. eexists. split; [reflexivity|]. repeat split.
Qed.

Lemma completion_fold_lookup hyphenate ls doc tags :
  forall (data : gmap string ComponentCompletion) key e,
    fold_left (fun data tag =>
      let entry := componentCompletion ls doc tag in
      <[hyphenate (data_name tag) := entry]> (<[data_name tag := entry]> data)) tags data
      !! key = Some e ->
    data !! key = Some e
    \/ exists tag, In tag tags /\ e = componentCompletion ls doc tag
                   /\ (key = data_name tag \/ key = hyphenate (data_name tag)).
Proof.
  induction tags as [|tag tags IH]; intros data key e; simpl; [now left|].
  intros H. apply IH in H as [H|(tag' & Hin & He & Hk)].
  - apply lookup_insert_Some in H as [[<- <-]|[_ H]].
    { right. exists tag. split; [now left|]. split; [reflexivity|now right]. }
    apply lookup_insert_Some in H as [[<- <-]|[_ H]]; [|now left].
    right. exists tag. split; [now left|]. split; [reflexivity|now left].
  - right. exists tag'. split; [now right|]. now split.
Qed.

Lemma completion_fold_is_Some hyphenate ls doc tags :
  forall (data : gmap string ComponentCompletion) key,
    is_Some (data !! key) ->
    is_Some (fold_left (fun data tag =>
      let entry := componentCompletion ls doc tag in
      <[hyphenate (data_name tag) := entry]> (<[data_name tag := entry]> data)) tags data
      !! key).
Proof.
  induction tags as [|tag tags IH]; intros data key H; simpl; [exact H|].
  apply IH. rewrite !lookup_insert_is_Some'. tauto.
Qed.

Lemma completion_fold_tags hyphenate ls doc tags :
  forall (data : gmap string ComponentCompletion) tag,
    In tag tags ->
    let after :=
      fold_left (fun data tag =>
        let entry := componentCompletion ls doc tag in
        <[hyphenate (data_name tag) := entry]> (<[data_name tag := entry]> data)) tags data in
    is_Some (after !! data_name tag) /\ is_Some (after !! hyphenate (data_name tag)).
Proof.
  induction tags as [|t tags IH]; intros data tag Hin; [destruct Hin|].
  cbn zeta. simpl. destruct Hin as [->|Hin]; [|now apply IH].
  split; apply completion_fold_is_Some; rewrite !lookup_insert_is_Some'; tauto.
Qed.

(** X19.  Asking for the component completion data records the project
    version of the engine and changes nothing else.  The data is empty
    unless both the generated template script and the raw template
    document exist.  Otherwise it
    holds under ["*"] the global attributes, with no item, whatever the
    tags are called; it holds an entry under the name of every tag and
    under its hyphenated name; and every other entry it holds is that of a
    tag, under the name of the tag or its hyphenated name. *)
Theorem component_completion_data_entries :
  forall hyphenate T st,
    let w := world st in
    let data := snd (getComponentCompletionData hyphenate T st) in
    let d := templateScriptData (sourceFile w) in
    let tags := componentItems d ++ htmlElementItems d in
    (let after := fst (getComponentCompletionData hyphenate T st) in
     tsProjectVersion after = getProjectVersion (tsLanguageService w)
     /\ world after = w /\ records after = records st
     /\ templateTs after = templateTs st /\ scriptTs after = scriptTs st)
    /\ (textDocument (virtualTemplateGen (sourceFile w)) = None
     \/ tr_textDocument (virtualTemplateRaw w) = None -> data = ∅)
    /\ (forall doc raw,
          textDocument (virtualTemplateGen (sourceFile w)) = Some doc ->
          tr_textDocument (virtualTemplateRaw w) = Some raw ->
          (exists bind,
             data !! "*" = Some {| cc_item := None; cc_bind := bind;
                                   cc_on := []; cc_slot := [] |})
          /\ (forall tag, In tag tags ->
                is_Some (data !! data_name tag)
                /\ is_Some (data !! hyphenate (data_name tag)))
          /\ (forall key entry, data !! key = Some entry -> key <> "*" ->
                exists tag,
                  In tag tags
                  /\ entry = componentCompletion (tsLanguageService w) doc tag
                  /\ (key = data_name tag \/ key = hyphenate (data_name tag)))).
Proof.
  intros hyphenate T st w data d tags. subst data.
  unfold getComponentCompletionData. cbn [fst snd world]. fold w.
  split; [repeat split|]. unfold componentCompletionData.
  fold d. fold tags. split.
  - intros [->| ->]; [reflexivity|].
    now destruct (textDocument (virtualTemplateGen (sourceFile w))).
  - intros doc raw -> ->. split; [|split].
    + eexists. apply lookup_insert_eq.
    + intros tag Hin.
      destruct (completion_fold_tags hyphenate (tsLanguageService w) doc tags ∅ tag Hin)
        as [H1 H2].
      split; rewrite lookup_insert_is_Some'; now right.
    + intros key entry H Hkey. rewrite lookup_insert_ne in H by congruence.
      apply completion_fold_lookup in H as [H|H]; [|exact H].
      now rewrite lookup_empty in H.
Qed.

Lemma prefix_append (a b : string) : String.prefix a (a +:+ b) = true.
Proof. apply prefix_correct. apply substring_app_exact. Qed.

(** X26.  When the pug parser failed, [pugErrors] is the one error of the
    parser, at its line and column, and the template is not compiled.
    Otherwise [pugErrors] has one diagnostic for every compile error, in
    order, none dropped: with the severity, code, source and tags of the
    compile error, at its place in the pug source when the source map
    gives one, and otherwise over the whole template with the html in
    question after the message.  Without the template document or the pug
    document there are no errors. *)
Theorem pug_errors_keep_every_compile_error :
  forall tools getVueCompileErrors textDocument pugDoc,
    (forall astError,
       Template.pug_error pugDoc = Some astError ->
       exists d,
         Template.pugErrors tools getVueCompileErrors (Some textDocument) (Some pugDoc) = [d]
         /\ message d = Template.ast_msg astError /\ code d = Template.ast_code astError
         /\ r_start (range d)
            = {| line := Template.ast_line astError;
                 character := Template.ast_column astError |}
         /\ r_end (range d) = r_start (range d))
    /\ (Template.pug_error pugDoc = None ->
        Forall2 (reportsPugError tools (Template.pug_sourceMap pugDoc) textDocument)
          (Template.pugErrors tools getVueCompileErrors (Some textDocument) (Some pugDoc))
          (getVueCompileErrors
             (Template.pug_mappedDocument (Template.pug_sourceMap pugDoc))))
    /\ Template.pugErrors tools getVueCompileErrors None (Some pugDoc) = []
    /\ Template.pugErrors tools getVueCompileErrors (Some textDocument) None = [].
Proof.
  intros tools getVueCompileErrors textDocument pugDoc. unfold Template.pugErrors.
  split; [|split; [|split; reflexivity]].
  - intros astError ->. eexists. split; [reflexivity|]. repeat split.
  - intros ->.
    generalize (getVueCompileErrors
                  (Template.pug_mappedDocument (Template.pug_sourceMap pugDoc))).
    intros errors.
    match goal with
    | |- Forall2 _ (fold_left ?step errors []) errors =>
        assert (H : forall acc, exists ds,
                  fold_left step errors acc = acc ++ ds
                  /\ Forall2 (reportsPugError tools (Template.pug_sourceMap pugDoc)
                                textDocument) ds errors)
    end.
    { induction errors as [|error errors IH]; intros acc; simpl.
      - exists []. split; [now rewrite app_nil_r|constructor].
      - match goal with
        | |- context [fold_left _ errors ?acc'] => destruct (IH acc') as (ds & E & Hds)
        end.
        rewrite E. unfold reportsPugError.
        destruct (Template.pugRangeOf tools (Template.pug_sourceMap pugDoc) error)
          as [pugRange|] eqn:Er; rewrite <- app_assoc; eexists; (split; [reflexivity|]);
          (constructor; [|exact Hds]); rewrite Er; repeat split.
        apply prefix_append. }
    destruct (H []) as (ds & E & Hds). now rewrite E.
Qed.

(** ** The commands [HTML_TO_PUG] and [PUG_TO_HTML] *)

Lemma substring_length (s : string) :
  forall a n, String.length (substring a n s) = Nat.min n (String.length s - a).
Proof.
  induction s as [|ch s IH]; intros [|a] [|n]; simpl; try reflexivity.
  - now rewrite IH, Nat.sub_0_r.
  - now rewrite IH.
  - now rewrite IH.
Qed.

Lemma positionAt_min doc offset :
  positionAt doc offset = positionAt doc (Nat.min offset (String.length (text doc))).
Proof.
  unfold positionAt.
  now replace (Nat.min (Nat.min offset (String.length (text doc))) (String.length (text doc)))
    with (Nat.min offset (String.length (text doc))) by lia.
Qed.

(** The text between two offsets, whatever they are. *)
Lemma getTextIn_window doc a b :
  a <= b ->
  getTextIn doc {| r_start := positionAt doc a; r_end := positionAt doc b |}
  = substring (Nat.min a (String.length (text doc)))
      (Nat.min b (String.length (text doc)) - Nat.min a (String.length (text doc)))
      (text doc).
Proof.
  intros Hab. rewrite (positionAt_min doc a), (positionAt_min doc b).
  apply getTextIn_offsets; lia.
Qed.

Lemma startsWith_short w p :
  String.length w < String.length p -> startsWith w p = false.
Proof.
  intros Hlt. unfold startsWith. destruct (String.prefix p w) eqn:E; [|reflexivity].
  apply prefix_correct in E. apply (f_equal String.length) in E.
  rewrite substring_length in E. lia.
Qed.

Lemma startsWith_same_length w p :
  String.length w = String.length p -> startsWith w p = String.eqb w p.
Proof.
  intros Hlen. unfold startsWith. destruct (String.eqb_spec w p) as [->|Hne].
  - apply prefix_correct. apply substring_whole.
  - destruct (String.prefix p w) eqn:E; [|reflexivity].
    apply prefix_correct in E. rewrite <- Hlen, substring_whole in E. contradiction.
Qed.

Lemma tagAt_short docText offset :
  String.length docText < offset + String.length startMatch -> tagAt docText offset = false.
Proof.
  intros Hlt. unfold tagAt. apply String.eqb_neq. intros E.
  apply (f_equal String.length) in E. rewrite substring_length in E.
  change (String.length startMatch) with 9 in *. lia.
Qed.

(** The test of the loop, on the text of the document. *)
Lemma startsWith_window doc (start : Z) :
  startsWith
    (getTextIn doc
       {| r_start := positionAtZ doc start;
          r_end := positionAtZ doc (start + Z.of_nat (String.length startMatch)) |})
    startMatch
  = (0 <=? start)%Z && tagAt (text doc) (Z.to_nat start).
Proof.
  unfold positionAtZ. rewrite getTextIn_window by lia.
  set (len := String.length (text doc)).
  destruct (Z.leb_spec 0 start) as [Hs|Hs]; cbn [andb].
  - rewrite Z2Nat.inj_add, Nat2Z.id by lia. set (s := Z.to_nat start).
    destruct (Nat.le_gt_cases (s + String.length startMatch) len) as [Hle|Hgt].
    + rewrite !Nat.min_l by lia.
      replace (s + String.length startMatch - s) with (String.length startMatch) by lia.
      unfold tagAt. apply startsWith_same_length. rewrite substring_length.
      subst len. lia.
    + rewrite (tagAt_short _ _ Hgt). apply startsWith_short. rewrite substring_length.
      subst len. change (String.length startMatch) with 9 in *. lia.
  - apply startsWith_short. rewrite substring_length. subst len.
    change (String.length startMatch) with 9 in *. lia.
Qed.

(** The loop finds the last opening at or before [start], and throws when
    there is none. *)
Lemma findStart_spec doc :
  forall fuel (start : Z),
    Z.to_nat start <= fuel ->
    match findStart doc fuel start with
    | Some s =>
        (0 <= s <= start)%Z /\ tagAt (text doc) (Z.to_nat s) = true
        /\ forall s', (s < s' <= start)%Z -> tagAt (text doc) (Z.to_nat s') = false
    | None => forall s', (0 <= s' <= start)%Z -> tagAt (text doc) (Z.to_nat s') = false
    end.
Proof.
  induction fuel as [|fuel IH]; intros start Hfuel; cbn [findStart];
    rewrite startsWith_window.
  - destruct (Z.leb_spec 0 start) as [Hs|Hs]; cbn [andb].
    + assert (start = 0%Z) as -> by lia.
      destruct (tagAt (text doc) (Z.to_nat 0)) eqn:E.
      * split; [lia|]. split; [exact E|]. intros; lia.
      * intros s' Hs'. assert (s' = 0%Z) as -> by lia. exact E.
    + intros s' Hs'. lia.
  - destruct (Z.leb_spec 0 start) as [Hs|Hs]; cbn [andb].
    + destruct (tagAt (text doc) (Z.to_nat start)) eqn:E.
      * split; [lia|]. split; [exact E|]. intros; lia.
      * destruct (Z.ltb_spec (start - 1) 0) as [Hlt|Hge].
        -- intros s' Hs'. assert (s' = start) as -> by lia. exact E.
        -- specialize (IH (start - 1)%Z ltac:(lia)).
           destruct (findStart doc fuel (start - 1)) as [s|].
           ++ destruct IH as (H1 & H2 & H3). split; [lia|]. split; [exact H2|].
              intros s' Hs'. destruct (Z.eq_dec s' start) as [->|Hne]; [exact E|].
              apply H3. lia.
           ++ intros s' Hs'. destruct (Z.eq_dec s' start) as [->|Hne]; [exact E|].
              apply IH. lia.
    + destruct (Z.ltb_spec (start - 1) 0) as [Hlt|Hge]; [|lia]. intros s' Hs'. lia.
Qed.

Lemma replaceTemplate_edits document template newTemplate :
  replaceTemplate document template newTemplate <> Done None.
Proof.
  unfold replaceTemplate. now destruct (findStart _ _ _).
Qed.

(** X20.  [HTML_TO_PUG] goes on only for a template of language [html],
    and [PUG_TO_HTML] only for one of language [pug]; so at most one of the
    two has an effect on a component.  The edit of either replaces the
    text up to the end of the template content by the new tag and the
    converted content. *)
Theorem template_conversion_guards :
  forall htmlToPug pugToHtml ctx document,
    (htmlToPugCommand htmlToPug ctx document = Done None
     <-> forall t, template (getDescriptor ctx) = Some t -> lang t <> "html")
    /\ (pugToHtmlCommand pugToHtml ctx document = Done None
        <-> forall t, template (getDescriptor ctx) = Some t -> lang t <> "pug")
    /\ (htmlToPugCommand htmlToPug ctx document = Done None
        \/ pugToHtmlCommand pugToHtml ctx document = Done None)
    /\ (forall edit,
          htmlToPugCommand htmlToPug ctx document = Done (Some edit) ->
          exists t, template (getDescriptor ctx) = Some t
            /\ newText edit = pugTag +:+ htmlToPug (content t) +:+ String LF ""
            /\ r_end (te_range edit) = positionAt document (end_ (loc t)))
    /\ (forall edit,
          pugToHtmlCommand pugToHtml ctx document = Done (Some edit) ->
          exists t, template (getDescriptor ctx) = Some t
            /\ newText edit = htmlTag +:+ String LF "" +:+ pugToHtml (content t)
            /\ r_end (te_range edit) = positionAt document (end_ (loc t))).
Proof.
  intros htmlToPug pugToHtml ctx document. unfold htmlToPugCommand, pugToHtmlCommand.
  destruct (template (getDescriptor ctx)) as [t|].
  2:{ repeat split; try discriminate; auto. }
  destruct (String.eqb_spec (lang t) "html") as [Hh|Hh];
    destruct (String.eqb_spec (lang t) "pug") as [Hp|Hp]; cbn [negb];
    try (rewrite Hh in Hp; discriminate Hp).
  - split; [|split; [|split; [|split]]].
    + split; [intros H; now apply replaceTemplate_edits in H|].
      intros H. now destruct (H t eq_refl).
    + split; [intros _ t' [= <-]; exact Hp|reflexivity].
    + now right.
    + intros edit H. exists t. split; [reflexivity|]. unfold replaceTemplate in H.
      destruct (findStart _ _ _); [|discriminate H]. injection H as <-.
      split; [|reflexivity]. cbn [newText]. unfold pugTag. now rewrite !append_assoc.
    + discriminate.
  - split; [|split; [|split; [|split]]].
    + split; [intros _ t' [= <-]; exact Hh|reflexivity].
    + split; [intros H; now apply replaceTemplate_edits in H|].
      intros H. now destruct (H t eq_refl).
    + now left.
    + discriminate.
    + intros edit H. exists t. split; [reflexivity|]. unfold replaceTemplate in H.
      destruct (findStart _ _ _); [|discriminate H]. injection H as <-.
      split; reflexivity.
  - split; [|split; [|split; [|split]]].
    + split; [intros _ t' [= <-]; exact Hh|reflexivity].
    + split; [intros _ t' [= <-]; exact Hp|reflexivity].
    + now left.
    + discriminate.
    + discriminate.
Qed.

(** More rounds than [start] change nothing. *)
Lemma findStart_fuel doc :
  forall fuel (start : Z),
    Z.to_nat start <= fuel ->
    findStart doc fuel start = findStart doc (Z.to_nat start) start.
Proof.
  induction fuel as [|fuel IH]; intros start Hfuel.
  - now replace (Z.to_nat start) with 0 by lia.
  - destruct (Z.to_nat start) as [|n] eqn:En.
    + cbn [findStart]. destruct (startsWith _ _); [reflexivity|].
      destruct (Z.ltb_spec (start - 1) 0) as [Hlt|Hge]; [reflexivity|lia].
    + cbn [findStart]. destruct (startsWith _ _); [reflexivity|].
      destruct (Z.ltb_spec (start - 1) 0) as [Hlt|Hge]; [reflexivity|].
      rewrite IH by lia. now replace (Z.to_nat (start - 1)) with n by lia.
Qed.

(** The search of the two handlers, on the text of the document. *)
Lemma template_search document template newTemplate :
  let from := (Z.of_nat (start (loc template)) - 10)%Z in
  match replaceTemplate document template newTemplate with
  | Done (Some edit) =>
      exists s,
        (Z.of_nat s <= from)%Z
        /\ tagAt (text document) s = true
        /\ (forall s', s < s' -> (Z.of_nat s' <= from)%Z -> tagAt (text document) s' = false)
        /\ edit = {| te_range := {| r_start := positionAt document s;
                                    r_end := positionAt document (end_ (loc template)) |};
                     newText := newTemplate |}
  | Done None => False
  | Throws _ =>
      forall s', (Z.of_nat s' <= from)%Z -> tagAt (text document) s' = false
  end.
Proof.
  intros from. unfold replaceTemplate.
  change (Z.of_nat (String.length "<template>")) with 10%Z. fold from.
  pose proof (findStart_spec document (Z.to_nat from) from (Nat.le_refl _)) as H.
  destruct (findStart document (Z.to_nat from) from) as [s|].
  - destruct H as (H1 & H2 & H3). exists (Z.to_nat s).
    split; [lia|]. split; [exact H2|]. split; [|reflexivity].
    intros s' Hlt Hle. rewrite <- (Nat2Z.id s'). apply H3. lia.
  - intros s' Hle. rewrite <- (Nat2Z.id s'). apply H. lia.
Qed.

(** X21.  The start of the edit is searched backwards from ten characters
    before the template content: it is the last place at or before that
    offset where [<template] stands in the document, and the handler
    throws when there is no such place.  The search needs no more rounds
    than that offset. *)
Theorem template_tag_searched_backwards :
  forall document template newTemplate,
    let from := (Z.of_nat (start (loc template)) - 10)%Z in
    match replaceTemplate document template newTemplate with
    | Done (Some edit) =>
        exists s,
          (Z.of_nat s <= from)%Z
          /\ tagAt (text document) s = true
          /\ (forall s', s < s' -> (Z.of_nat s' <= from)%Z -> tagAt (text document) s' = false)
          /\ edit = {| te_range := {| r_start := positionAt document s;
                                      r_end := positionAt document (end_ (loc template)) |};
                       newText := newTemplate |}
    | Done None => False
    | Throws _ =>
        forall s', (Z.of_nat s' <= from)%Z -> tagAt (text document) s' = false
    end
    /\ forall fuel, Z.to_nat from <= fuel ->
          findStart document fuel from = findStart document (Z.to_nat from) from.
Proof.
  intros document template newTemplate from. split.
  - apply template_search.
  - intros fuel Hfuel. now apply findStart_fuel.
Qed.

Lemma substring_app_left (a b : string) :
  forall n m, n + m <= String.length a -> substring n m (a +:+ b) = substring n m a.
Proof.
  induction a as [|ch a IH]; intros n m Hle.
  - simpl in Hle. assert (n = 0) as -> by lia. assert (m = 0) as -> by lia.
    now rewrite !substring_none.
  - rewrite append_cons. destruct n as [|n]; simpl.
    + destruct m as [|m]; [reflexivity|]. f_equal. apply IH. simpl in Hle. lia.
    + apply IH. simpl in Hle. lia.
Qed.

Lemma tagAt_in_tag pre tag more k :
  k + String.length startMatch <= String.length tag ->
  tagAt (pre +:+ tag +:+ more) (String.length pre + k) = tagAt tag k.
Proof.
  intros Hle. unfold tagAt. rewrite substring_app_skip.
  now rewrite substring_app_left by exact Hle.
Qed.

Lemma openingTag_spec tag :
  openingTag tag = true ->
  tagAt tag 0 = true
  /\ String.length "<template>" <= String.length tag
  /\ forall k, 1 <= k -> k + String.length "<template>" <= String.length tag ->
               tagAt tag k = false.
Proof.
  unfold openingTag. intros [[H1 H2]%andb_true_iff H3]%andb_true_iff.
  apply Nat.leb_le in H2. split; [exact H1|]. split; [exact H2|].
  intros k Hk1 Hk2. rewrite forallb_forall in H3.
  apply negb_true_iff. apply H3. apply in_seq. lia.
Qed.

(** What the two handlers do to a document whose template stands between
    [pre] and [rest]. *)
Lemma replaceTemplate_result document t tag pre rest newTemplate :
  text document = pre +:+ tag +:+ content t +:+ rest ->
  openingTag tag = true ->
  start (loc t) = String.length pre + String.length tag ->
  end_ (loc t) = String.length pre + String.length tag + String.length (content t) ->
  exists edit,
    replaceTemplate document t newTemplate = Done (Some edit)
    /\ applyEdits document [edit] = Some (pre +:+ newTemplate +:+ rest).
Proof.
  intros Htext Htag Hstart Hend.
  apply openingTag_spec in Htag as (Hat & Hlen & Hin).
  change (String.length "<template>") with 10 in *.
  assert (Hpre : tagAt (text document) (String.length pre) = true).
  { rewrite Htext, <- (Nat.add_0_r (String.length pre)), tagAt_in_tag; [exact Hat|].
    change (String.length startMatch) with 9. lia. }
  assert (Hno : forall k, 1 <= k -> k + 10 <= String.length tag ->
            tagAt (text document) (String.length pre + k) = false).
  { intros k Hk1 Hk2. rewrite Htext, tagAt_in_tag; [now apply Hin|].
    change (String.length startMatch) with 9. lia. }
  assert (Hdoc : String.length (text document)
                 = String.length pre + String.length tag + String.length (content t)
                   + String.length rest).
  { rewrite Htext, !length_append. lia. }
  pose proof (template_search document t newTemplate) as Hs.
  cbv zeta in Hs. destruct (replaceTemplate document t newTemplate) as [[edit|]|what].
  - destruct Hs as (s & Hle & Hs & Hafter & ->). eexists. split; [reflexivity|].
    assert (s = String.length pre) as ->.
    { destruct (Nat.lt_trichotomy s (String.length pre)) as [Hlt|[Heq|Hgt]]; [|exact Heq|].
      - rewrite (Hafter (String.length pre)) in Hpre; [discriminate Hpre|exact Hlt|lia].
      - replace s with (String.length pre + (s - String.length pre)) in Hs by lia.
        rewrite Hno in Hs; [discriminate Hs|lia|lia]. }
    unfold applyEdits. cbn [map te_range r_start r_end newText].
    rewrite !offsetAt_positionAt by lia. cbn [sortBy fold_right insertBy].
    rewrite (applySorted_cons _ _ _ _ _ _
               (substring (end_ (loc t)) (String.length (text document) - end_ (loc t))
                  (text document))) by (try lia; reflexivity).
    rewrite Nat.sub_0_r. f_equal. rewrite Htext at 1. rewrite substring_app_exact.
    f_equal. f_equal. rewrite Hdoc, Hend, Htext.
    rewrite <- !append_assoc, <- !length_append.
    rewrite <- (Nat.add_0_r (String.length _)) at 1. rewrite substring_app_skip.
    replace (_ - _) with (String.length rest) by (rewrite !length_append; lia).
    apply substring_whole.
  - destruct Hs.
  - rewrite (Hs (String.length pre)) in Hpre; [discriminate Hpre|lia].
Qed.

(** X22.  On a document whose template stands between [pre] and [rest],
    with an opening tag [tag], the edit of [HTML_TO_PUG] gives the
    document in which the tag is [<template lang="pug">] and the content
    is the converted content followed by a line break; the edit of
    [PUG_TO_HTML] gives the document in which the tag is [<template>] and
    the content is a line break followed by the converted content.  What
    stands before the tag and after the content is kept. *)
Theorem template_conversion_result :
  forall htmlToPug pugToHtml ctx document t tag pre rest,
    template (getDescriptor ctx) = Some t ->
    text document = pre +:+ tag +:+ content t +:+ rest ->
    openingTag tag = true ->
    start (loc t) = String.length pre + String.length tag ->
    end_ (loc t) = String.length pre + String.length tag + String.length (content t) ->
    (lang t = "html" ->
     exists edit,
       htmlToPugCommand htmlToPug ctx document = Done (Some edit)
       /\ applyEdits document [edit]
          = Some (pre +:+ (pugTag +:+ htmlToPug (content t) +:+ String LF "") +:+ rest))
    /\ (lang t = "pug" ->
        exists edit,
          pugToHtmlCommand pugToHtml ctx document = Done (Some edit)
          /\ applyEdits document [edit]
             = Some (pre +:+ (htmlTag +:+ String LF "" +:+ pugToHtml (content t)) +:+ rest)).
Proof.
  intros htmlToPug pugToHtml ctx document t tag pre rest Ht Htext Htag Hstart Hend.
  split; intros Hlang.
  - unfold htmlToPugCommand. rewrite Ht, Hlang. cbn [String.eqb Ascii.eqb negb].
    destruct (replaceTemplate_result document t tag pre rest
                ("<template lang=" +:+ doubleQuote +:+ "pug" +:+ doubleQuote +:+ ">"
                   +:+ htmlToPug (content t) +:+ String LF "")
                Htext Htag Hstart Hend) as (edit & H1 & H2).
    exists edit. split; [exact H1|]. rewrite H2. unfold pugTag.
    now rewrite !append_assoc.
  - unfold pugToHtmlCommand. rewrite Ht, Hlang. cbn [String.eqb Ascii.eqb negb].
    exact (replaceTemplate_result document t tag pre rest _ Htext Htag Hstart Hend).
Qed.

Lemma template_conversion_result_witness :
  openingTag pugTag = true
  /\ exists edit,
       pugToHtmlCommand (fun pug => "<div>hello</div>") (templateContext pugTemplate)
         pugComponent = Done (Some edit)
       /\ applyEdits pugComponent [edit]
          = Some ("<!-- App -->"
                    +:+ (htmlTag +:+ String LF "" +:+ "<div>hello</div>") +:+ "</template>").
Proof.
  split; [reflexivity|].
  apply (template_conversion_result (fun html => "div hello")
           (fun pug => "<div>hello</div>") (templateContext pugTemplate) pugComponent
           pugTemplate pugTag "<!-- App -->" "</template>");
    reflexivity.
Defined.

(** ** Selection ranges *)

Section Selection.
Import SelectionRanges SelectionSpec.

Lemma pushSourceRange_mappedBack {D} (sourceMap : RangeMap D) result selectRange :
  pushSourceRange sourceMap result selectRange = result ++ mappedBack sourceMap selectRange.
Proof.
  unfold pushSourceRange, mappedBack.
  destruct (getSourceRange2 _ _ _); [reflexivity|now rewrite app_nil_r].
Qed.

Lemma getTsResult_positions S positions sourceFile :
  getTsResult S positions sourceFile = flat_map (tsAt S sourceFile) positions.
Proof.
  unfold getTsResult. rewrite (fold_left_push _ (tsAt S sourceFile)); [reflexivity|].
  intros acc position. unfold tsAt, selectionsAt.
  apply (fold_left_push _ (fun sourceMap =>
    flat_map (fun mapped => flat_map (mappedBack (id sourceMap)) (tsSelect S sourceMap mapped))
      (getMappedRanges1 (id sourceMap) position))).
  intros acc' sourceMap.
  apply (fold_left_push _ (fun mapped =>
    flat_map (mappedBack (id sourceMap)) (tsSelect S sourceMap mapped))).
  intros acc'' tsRange. unfold tsSelect.
  destruct (basic (capabilities (data tsRange))); cbn [negb]; [|now rewrite app_nil_r].
  destruct (ts_getSelectionRange S _ _) as [selectRange|]; simpl;
    [|now rewrite app_nil_r].
  now rewrite pushSourceRange_mappedBack, app_nil_r.
Qed.

Lemma getHtmlResult_positions S positions sourceFile :
  getHtmlResult S positions sourceFile = flat_map (htmlAt S sourceFile) positions.
Proof.
  unfold getHtmlResult. rewrite (fold_left_push _ (htmlAt S sourceFile)); [reflexivity|].
  intros acc position. unfold htmlAt, selectionsAt.
  apply (fold_left_push _ (fun sourceMap =>
    flat_map (fun mapped =>
      flat_map (mappedBack (tm_map sourceMap)) (htmlSelect S sourceMap mapped))
      (getMappedRanges1 (tm_map sourceMap) position))).
  intros acc' sourceMap.
  apply (fold_left_push _ (fun mapped =>
    flat_map (mappedBack (tm_map sourceMap)) (htmlSelect S sourceMap mapped))).
  intros acc'' htmlRange. apply fold_left_push. apply pushSourceRange_mappedBack.
Qed.

Lemma getCssResult_positions S positions sourceFile :
  getCssResult S positions sourceFile = flat_map (cssAt S sourceFile) positions.
Proof.
  unfold getCssResult. rewrite (fold_left_push _ (cssAt S sourceFile)); [reflexivity|].
  intros acc position. unfold cssAt, selectionsAt.
  apply (fold_left_push _ (fun sourceMap =>
    flat_map (fun mapped =>
      flat_map (mappedBack (cm_map sourceMap)) (cssSelect S sourceMap mapped))
      (getMappedRanges1 (cm_map sourceMap) position))).
  intros acc' sourceMap. unfold cssSelect.
  destruct (css_getLanguageService S _) as [getSelectionRanges|].
  2:{ induction (getMappedRanges1 _ _); simpl; [now rewrite app_nil_r|assumption]. }
  destruct (cm_stylesheet sourceMap) as [stylesheet|].
  2:{ induction (getMappedRanges1 _ _); simpl; [now rewrite app_nil_r|assumption]. }
  apply (fold_left_push _ (fun mapped =>
    flat_map (mappedBack (cm_map sourceMap))
      (getSelectionRanges (mappedDocument (cm_map sourceMap)) [m_start mapped] stylesheet))).
  intros acc'' cssRange. apply fold_left_push. apply pushSourceRange_mappedBack.
Qed.

Lemma in_selectionsAt {M D} (rangeMap : M -> RangeMap D) select sourceMaps positions r :
  In r (flat_map (selectionsAt rangeMap select sourceMaps) positions)
  <-> selected rangeMap select sourceMaps positions r.
Proof.
  unfold selected, selectionsAt. rewrite in_flat_map. split.
  - intros (position & Hp & H). apply in_flat_map in H as (sourceMap & Hsm & H).
    apply in_flat_map in H as (mapped & Hm & H).
    apply in_flat_map in H as (selectRange & Hs & H). unfold mappedBack in H.
    destruct (getSourceRange2 _ _ _) as [vueRange|] eqn:E; [|destruct H].
    destruct H as [<-|[]]. exists position, sourceMap, mapped, selectRange, vueRange.
    repeat split; assumption.
  - intros (position & sourceMap & mapped & selectRange & vueRange
            & Hp & Hsm & Hm & Hs & E & ->).
    exists position. split; [exact Hp|]. apply in_flat_map. exists sourceMap.
    split; [exact Hsm|]. apply in_flat_map. exists mapped. split; [exact Hm|].
    apply in_flat_map. exists selectRange. split; [exact Hs|].
    unfold mappedBack. rewrite E. now left.
Qed.

(** X23.  For a component that is not known the selection ranges are
    undefined.  Otherwise they are those of the styles, then those of the
    template, then those of the scripts.  A selection range is returned
    exactly when a service gave it at the start of a range that one of the
    positions is mapped to, and the same source map maps it back: the
    script engine is asked only where the mapped range has the [basic]
    capability, the template service is chosen by the language of the
    source map, and a style source map without language service or
    without stylesheet gives nothing. *)
Theorem selection_ranges_are_mapped_back :
  forall sourceFiles S document positions,
    (sourceFiles !! uri document = None ->
     register sourceFiles S document positions = None)
    /\ (forall sourceFile,
          sourceFiles !! uri document = Some sourceFile ->
          register sourceFiles S document positions
          = Some (getCssResult S positions sourceFile
                    ++ getHtmlResult S positions sourceFile
                    ++ getTsResult S positions sourceFile)
          /\ (forall r, In r (getTsResult S positions sourceFile)
                        <-> selected id (tsSelect S) (getTsSourceMaps sourceFile) positions r)
          /\ (forall r, In r (getHtmlResult S positions sourceFile)
                        <-> selected tm_map (htmlSelect S)
                              (getHtmlSourceMaps sourceFile ++ getPugSourceMaps sourceFile)
                              positions r)
          /\ (forall r, In r (getCssResult S positions sourceFile)
                        <-> selected cm_map (cssSelect S) (getCssSourceMaps sourceFile)
                              positions r)).
Proof.
  intros sourceFiles S document positions. unfold register. split.
  - now intros ->.
  - intros sourceFile ->. split; [reflexivity|].
    rewrite getTsResult_positions, getHtmlResult_positions, getCssResult_positions.
    split; [|split]; intros r; apply in_selectionsAt.
Qed.

Lemma selectionsAt_no_parent {M D} (rangeMap : M -> RangeMap D) select sourceMaps positions r :
  In r (flat_map (selectionsAt rangeMap select sourceMaps) positions) -> sr_parent r = None.
Proof.
  intros H. apply in_selectionsAt in H as (? & ? & ? & ? & ? & _ & _ & _ & _ & _ & ->).
  reflexivity.
Qed.

(** X24.  The selection ranges returned have no parent.  They come grouped
    by kind and not by position: each kind gives its ranges in the order
    of the positions, so that the result for two lists of positions, one
    after the other, is a rearrangement of the two results; and no
    position gives no selection range. *)
Theorem selection_ranges_grouped_by_kind :
  forall sourceFiles S document sourceFile,
    sourceFiles !! uri document = Some sourceFile ->
    (forall positions ranges,
       register sourceFiles S document positions = Some ranges ->
       forall r, In r ranges -> sr_parent r = None)
    /\ register sourceFiles S document [] = Some []
    /\ (forall positions1 positions2,
          getTsResult S (positions1 ++ positions2) sourceFile
          = getTsResult S positions1 sourceFile ++ getTsResult S positions2 sourceFile
          /\ getHtmlResult S (positions1 ++ positions2) sourceFile
             = getHtmlResult S positions1 sourceFile ++ getHtmlResult S positions2 sourceFile
          /\ getCssResult S (positions1 ++ positions2) sourceFile
             = getCssResult S positions1 sourceFile ++ getCssResult S positions2 sourceFile)
    /\ (forall positions1 positions2 ranges1 ranges2 ranges,
          register sourceFiles S document positions1 = Some ranges1 ->
          register sourceFiles S document positions2 = Some ranges2 ->
          register sourceFiles S document (positions1 ++ positions2) = Some ranges ->
          Permutation ranges (ranges1 ++ ranges2)).
Proof.
  intros sourceFiles S document sourceFile Hsf. unfold register. rewrite Hsf.
  assert (Happ : forall positions1 positions2,
            getTsResult S (positions1 ++ positions2) sourceFile
            = getTsResult S positions1 sourceFile ++ getTsResult S positions2 sourceFile
            /\ getHtmlResult S (positions1 ++ positions2) sourceFile
               = getHtmlResult S positions1 sourceFile
                 ++ getHtmlResult S positions2 sourceFile
            /\ getCssResult S (positions1 ++ positions2) sourceFile
               = getCssResult S positions1 sourceFile
                 ++ getCssResult S positions2 sourceFile).
  { intros positions1 positions2.
    rewrite !getTsResult_positions, !getHtmlResult_positions, !getCssResult_positions.
    now rewrite !flat_map_app. }
  split; [|split; [reflexivity|split; [exact Happ|]]].
  - intros positions ranges [= <-] r.
    rewrite getTsResult_positions, getHtmlResult_positions, getCssResult_positions.
    intros [H|[H|H]%in_app_iff]%in_app_iff; eapply selectionsAt_no_parent; exact H.
  - intros positions1 positions2 ranges1 ranges2 ranges [= <-] [= <-] [= <-].
    destruct (Happ positions1 positions2) as (-> & -> & ->).
    set (c1 := getCssResult S positions1 sourceFile).
    set (c2 := getCssResult S positions2 sourceFile).
    set (h1 := getHtmlResult S positions1 sourceFile).
    set (h2 := getHtmlResult S positions2 sourceFile).
    set (t1 := getTsResult S positions1 sourceFile).
    set (t2 := getTsResult S positions2 sourceFile).
    rewrite <- !app_assoc. apply Permutation_app_head.
    rewrite (Permutation_app_swap_app c2 h1). apply Permutation_app_head.
    rewrite (Permutation_app_swap_app t1 c2). apply Permutation_app_head.
    apply Permutation_app_swap_app.
Qed.

Lemma selection_ranges_grouped_by_kind_witness :
  selectionSourceFiles !! uri pugComponent = Some selectionSourceFile
  /\ register selectionSourceFiles selectionServices pugComponent [] = Some [].
Proof.
  assert (H : selectionSourceFiles !! uri pugComponent = Some selectionSourceFile)
    by reflexivity.
  split; [exact H|].
  apply (selection_ranges_grouped_by_kind selectionSourceFiles selectionServices
           pugComponent selectionSourceFile H).
Defined.

End Selection.

(** ** The references of a ref-sugar variable *)

Lemma reference_fold_spec (step : list TextEdit -> Location -> list TextEdit)
    (P : Location -> TextEdit -> Prop) :
  (forall edits reference,
     step edits reference = edits
     \/ exists edit, step edits reference = edits ++ [edit] /\ P reference edit) ->
  forall references edits,
    edits `prefix_of` fold_left step references edits
    /\ length (fold_left step references edits) <= length edits + length references
    /\ forall edit, In edit (fold_left step references edits) ->
         In edit edits \/ exists reference, In reference references /\ P reference edit.
Proof.
  intros Hstep references. induction references as [|r rs IH]; intros edits; simpl.
  - split; [reflexivity|]. split; [lia|]. now left.
  - destruct (IH (step edits r)) as (Hpre & Hlen & Hin).
    destruct (Hstep edits r) as [E|(e & E & He)]; rewrite E in *.
    + split; [exact Hpre|]. split; [lia|]. intros edit H.
      destruct (Hin edit H) as [H'|(r' & Hr' & HP)]; [now left|].
      right. exists r'. split; [now right|exact HP].
    + split; [|split].
      * etransitivity; [|exact Hpre]. now apply prefix_app_r.
      * rewrite length_app in Hlen. simpl in Hlen. lia.
      * intros edit H. destruct (Hin edit H) as [H'|(r' & Hr' & HP)].
        -- apply in_app_iff in H' as [H'|[<-|[]]]; [now left|].
           right. exists r. split; [now left|exact He].
        -- right. exists r'. split; [now right|exact HP].
Qed.

Lemma unuseReference_step document scriptSetup _var varText edits reference :
  unuseReference document scriptSetup _var varText edits reference = edits
  \/ exists edit,
       unuseReference document scriptSetup _var varText edits reference = edits ++ [edit]
       /\ rewrites document scriptSetup _var reference edit.
Proof.
  unfold unuseReference, rewrites. cbv zeta.
  destruct (String.eqb_spec (l_uri reference) (uri document)) as [Hu|Hu]; cbn [negb];
    [|now left].
  destruct (_ && _) eqn:Hdecl; [now left|].
  destruct (_ && _) eqn:Hin in |- *; [|now left].
  apply andb_true_iff in Hin as [H1%Nat.leb_le H2%Nat.leb_le].
  assert (Hnot : ~ (offsetAt document (r_start (l_range reference))
                    = start (loc scriptSetup) + start _var
                    /\ offsetAt document (r_end (l_range reference))
                       = start (loc scriptSetup) + end_ _var)).
  { intros [E1 E2]. rewrite E1, E2, !Nat.eqb_refl in Hdecl. discriminate Hdecl. }
  right. destruct (String.eqb _ _); eexists; (split; [reflexivity|]); repeat split;
    assumption.
Qed.

Lemma useReference_step document scriptSetup _var varText edits reference :
  useReference document scriptSetup _var varText edits reference = edits
  \/ exists edit,
       useReference document scriptSetup _var varText edits reference = edits ++ [edit]
       /\ rewrites document scriptSetup _var reference edit.
Proof.
  unfold useReference, rewrites. cbv zeta.
  destruct (String.eqb_spec (l_uri reference) (uri document)) as [Hu|Hu]; cbn [negb];
    [|now left].
  destruct (_ && _) eqn:Hdecl; [now left|].
  destruct (_ && _) eqn:Hin in |- *; [|now left].
  apply andb_true_iff in Hin as [H1%Nat.leb_le H2%Nat.leb_le].
  assert (Hnot : ~ (offsetAt document (r_start (l_range reference))
                    = start (loc scriptSetup) + start _var
                    /\ offsetAt document (r_end (l_range reference))
                       = start (loc scriptSetup) + end_ _var)).
  { intros [E1 E2]. rewrite E1, E2, !Nat.eqb_refl in Hdecl. discriminate Hdecl. }
  right. destruct (String.eqb _ _); eexists; (split; [reflexivity|]); repeat split;
    assumption.
Qed.

(** X25.  In both directions of [SWITCH_REF_SUGAR] the loop over the
    references of a variable only adds edits, at most one for each
    reference; and every edit it adds starts where a reference starts that
    is in the document of the command, lies within the script-setup block
    and is not the declaration itself.  References in other documents and
    outside the block are left alone. *)
Theorem reference_edits_stay_in_script_setup :
  forall ctx document scriptSetup _var edits,
    let references := referencesOf ctx document scriptSetup _var in
    let added (after : list TextEdit) :=
      edits `prefix_of` after
      /\ length after <= length edits + length references
      /\ forall edit, In edit after ->
           In edit edits
           \/ exists reference,
                In reference references
                /\ rewrites document scriptSetup _var reference edit in
    added (unuseReferences ctx document scriptSetup _var edits)
    /\ added (useReferences ctx document scriptSetup _var edits).
Proof.
  intros ctx document scriptSetup _var edits references added. subst added references.
  unfold unuseReferences, useReferences, referencesOf. cbv zeta. cbn [r_start].
  split; apply reference_fold_spec; intros edits' reference.
  - apply unuseReference_step.
  - apply useReference_step.
Qed.

Lemma fold_left_push_in {A B} (step : list B -> A -> list B) (f : A -> list B) :
  (forall acc x, step acc x = acc ++ f x) ->
  forall l init y,
    In y (fold_left step l init) <-> In y init \/ exists x, In x l /\ In y (f x).
Proof.
  intros Hstep l init y. rewrite (fold_left_push step f Hstep), in_app_iff, in_flat_map.
  reflexivity.
Qed.

(** X27.  The edits that import [ref] are added after the edits of the
    declarations and references, which are kept; each of them is an
    additional edit of a completion labelled [ref], resolved and with a
    module to import from, at the place the source map of the generated
    script gives for it.  An additional edit without such a place, and a
    completion without module or without additional edits, adds nothing. *)
Theorem import_edits_come_from_ref_completion :
  forall ctx scriptDocument targetToSource edits,
    let after := importRefEdits ctx scriptDocument targetToSource edits in
    edits `prefix_of` after
    /\ forall edit,
         In edit after <-> In edit edits \/ importsRef ctx scriptDocument targetToSource edit.
Proof.
  intros ctx scriptDocument targetToSource edits after. subst after.
  unfold importRefEdits, importsRef. cbv zeta.
  set (items := cmd_doComplete ctx scriptDocument _).
  set (mapped := fun scriptEdit : TextEdit =>
         match targetToSource (te_range scriptEdit) with
         | Some vueRange => [ {| te_range := vueRange; newText := newText scriptEdit |} ]
         | None => []
         end).
  set (ofItem := fun item : CompletionItem =>
         if negb (String.eqb (label item) "ref") then []
         else
           match data_importModule (doCompletionResolve ctx item) with
           | None => []
           | Some m =>
               if String.eqb m "" then []
               else
                 match additionalTextEdits (doCompletionResolve ctx item) with
                 | None => []
                 | Some additional => flat_map mapped additional
                 end
           end).
  assert (Hstep : forall acc item,
            (if negb (String.eqb (label item) "ref") then acc
             else
               match data_importModule (doCompletionResolve ctx item) with
               | None => acc
               | Some m =>
                   if String.eqb m "" then acc
                   else
                     match additionalTextEdits (doCompletionResolve ctx item) with
                     | None => acc
                     | Some additional =>
                         fold_left (fun edits edit =>
                           match targetToSource (te_range edit) with
                           | None => edits
                           | Some vueRange =>
                               edits ++ [ {| te_range := vueRange; newText := newText edit |} ]
                           end) additional acc
                     end
               end) = acc ++ ofItem item).
  { intros acc item. unfold ofItem.
    destruct (negb _); [now rewrite app_nil_r|].
    destruct (data_importModule _) as [m|]; [|now rewrite app_nil_r].
    destruct (String.eqb m ""); [now rewrite app_nil_r|].
    destruct (additionalTextEdits _) as [additional|]; [|now rewrite app_nil_r].
    apply fold_left_push. intros acc' scriptEdit. unfold mapped.
    destruct (targetToSource _); [reflexivity|now rewrite app_nil_r]. }
  split.
  - rewrite (fold_left_push _ ofItem Hstep). now apply prefix_app_r.
  - intros edit. rewrite (fold_left_push_in _ ofItem Hstep). apply or_iff_compat_l.
    split.
    + intros (item & Hitem & Hin). unfold ofItem in Hin.
      destruct (String.eqb_spec (label item) "ref") as [Hl|Hl]; [|destruct Hin].
      cbn [negb] in Hin.
      destruct (data_importModule _) as [m|] eqn:Em; [|destruct Hin].
      destruct (String.eqb_spec m "") as [Hm|Hm]; [destruct Hin|].
      destruct (additionalTextEdits _) as [additional|] eqn:Ea; [|destruct Hin].
      apply in_flat_map in Hin as (scriptEdit & Hs & Hin). unfold mapped in Hin.
      destruct (targetToSource _) as [vueRange|] eqn:Et; [|destruct Hin].
      destruct Hin as [<-|[]]. exists item, m, additional, scriptEdit.
      repeat split; assumption.
    + intros (item & m & additional & scriptEdit & Hitem & Hl & Em & Hm & Ea & Hs & Et & Hn).
      exists item. split; [exact Hitem|]. unfold ofItem. rewrite Hl, Em, Ea.
      cbn [String.eqb Ascii.eqb negb].
      destruct (String.eqb_spec m "") as [Hm'|_]; [contradiction|].
      apply in_flat_map. exists scriptEdit. split; [exact Hs|]. unfold mapped.
      rewrite Et. left. destruct edit as [r t]. simpl in *. now rewrite Hn.
Qed.

(** X28.  [SWITCH_REF_SUGAR] ends without any edit exactly when the
    component has no script-setup block, when the generator has no data
    for it, or when declarations with the sugar are to be rewritten and
    the generated script or its source map is missing: in that case the
    edits of the declarations and references are not applied either.
    Where there are declarations with the sugar, only these are
    rewritten, and where there are none, no completion is asked for. *)
Theorem switch_ref_sugar_without_edit :
  forall ctx document,
    (switchRefSugar ctx document = None
     <-> scriptSetup (getDescriptor ctx) = None
         \/ getScriptSetupData ctx = None
         \/ exists genData,
              getScriptSetupData ctx = Some genData /\ labels genData <> []
              /\ (getVirtualScript_document ctx = None
                  \/ getVirtualScript_targetToSource ctx = None))
    /\ (forall genData refCalls',
          getScriptSetupData ctx = Some genData -> labels genData <> [] ->
          switchRefSugar ctx document
          = switchRefSugar
              {| getDescriptor := getDescriptor ctx;
                 getScriptSetupData :=
                   Some {| labels := labels genData; refCalls := refCalls' |};
                 getVirtualScript_document := getVirtualScript_document ctx;
                 getVirtualScript_targetToSource := getVirtualScript_targetToSource ctx;
                 findReferences := findReferences ctx;
                 cmd_doComplete := cmd_doComplete ctx;
                 doCompletionResolve := doCompletionResolve ctx;
                 SearchTexts_Ref := SearchTexts_Ref ctx |} document)
    /\ (forall genData scriptDocument' targetToSource' doComplete',
          getScriptSetupData ctx = Some genData -> labels genData = [] ->
          switchRefSugar ctx document
          = switchRefSugar
              {| getDescriptor := getDescriptor ctx;
                 getScriptSetupData := getScriptSetupData ctx;
                 getVirtualScript_document := scriptDocument';
                 getVirtualScript_targetToSource := targetToSource';
                 findReferences := findReferences ctx;
                 cmd_doComplete := doComplete';
                 doCompletionResolve := doCompletionResolve ctx;
                 SearchTexts_Ref := SearchTexts_Ref ctx |} document).
Proof.
  intros ctx document. unfold switchRefSugar. cbn [getDescriptor getScriptSetupData
    getVirtualScript_document getVirtualScript_targetToSource labels refCalls].
  split; [|split].
  - destruct (scriptSetup (getDescriptor ctx)) as [ss|]; [|split; auto].
    destruct (getScriptSetupData ctx) as [genData|]; [|split; auto].
    destruct (labels genData) as [|l ls] eqn:El.
    + split; [discriminate|]. intros [H|[H|(g & [= <-] & Hl & _)]]; try discriminate.
      now destruct Hl.
    + destruct (getVirtualScript_document ctx) as [sd|],
        (getVirtualScript_targetToSource ctx) as [ts|].
      * split; [discriminate|].
        intros [H|[H|(g & _ & _ & [H|H])]]; discriminate.
      * split; [|reflexivity]. intros _. right. right. exists genData.
        rewrite El. repeat split; [discriminate|now right].
      * split; [|reflexivity]. intros _. right. right. exists genData.
        rewrite El. repeat split; [discriminate|now left].
      * split; [|reflexivity]. intros _. right. right. exists genData.
        rewrite El. repeat split; [discriminate|now left].
  - intros genData refCalls' -> Hl. destruct (scriptSetup (getDescriptor ctx)); [|reflexivity].
    cbn [labels]. destruct (labels genData) as [|l ls]; [now destruct Hl|]. reflexivity.
  - intros genData scriptDocument' targetToSource' doComplete' -> Hl.
    destruct (scriptSetup (getDescriptor ctx)); [|reflexivity]. now rewrite Hl.
Qed.

(** ** The further models on the sample component *)

(** The selection ranges at two positions: each is the word the script
    engine selects on the line, two lines further down in the component;
    the parent the engine gave is gone. *)
Example app_selection_ranges :
  SelectionRanges.register selectionSourceFiles selectionServices pugComponent
    [Samples.pos 0 3; Samples.pos 1 2]
  = Some [SelectionRanges.mkSelectionRange
            {| r_start := Samples.pos 2 0; r_end := Samples.pos 2 6 |} None;
          SelectionRanges.mkSelectionRange
            {| r_start := Samples.pos 3 0; r_end := Samples.pos 3 6 |} None].
Proof. reflexivity. Qed.

(** [PUG_TO_HTML] on the pug component: the tag is found eleven characters
    before the place where the search starts. *)
Example app_pug_to_html :
  pugToHtmlCommand (fun _ => "<div>hello</div>") (templateContext pugTemplate) pugComponent
  = Done (Some {| te_range := {| r_start := Samples.pos 0 12; r_end := Samples.pos 0 42 |};
                  newText := "<template>" +:+ String LF "" +:+ "<div>hello</div>" |}).
Proof. reflexivity. Qed.

(** [HTML_TO_PUG] does nothing on it, and throws on a component whose
    template content starts before the tenth character. *)
Example app_html_to_pug :
  htmlToPugCommand (fun _ => "div") (templateContext pugTemplate) pugComponent = Done None
  /\ htmlToPugCommand (fun _ => "div")
       (templateContext {| lang := "html"; content := "<p/>";
                           loc := {| start := 5; end_ := 9 |}; ignore := false |})
       pugComponent
     = Throws "Can't find start of tag <template>".
Proof. split; reflexivity. Qed.

(** A compiler that reports one error with a location and one without,
    and then throws. *)
Example app_compile_errors :
  map (fun d => (range d, message d))
    (Template.getVueCompileErrors
       (fun _ => ([ {| err_code := Some "2"; err_message := "x"; err_loc := None |};
                    {| err_code := Some "3"; err_message := "y";
                       err_loc := Some {| start := 1; end_ := 4 |} |} ],
                  Thrown None "z"))
       pugComponent)
  = [ ({| r_start := Samples.pos 0 1; r_end := Samples.pos 0 4 |}, "y");
      ({| r_start := Samples.pos 0 0; r_end := Samples.pos 0 53 |}, "z") ].
Proof. reflexivity. Qed.
